(** * cStress parallel model search: scorers, out-of-fold probabilities,
      work-item reassembly and score aggregation

    A shallow embedding of
    [cerebralcortex/data_processor/cStress_model_param_fold_parallel_spark.py].

    Conventions of the embedding.
    - A Python float that is finite is modelled by the rational it denotes
      ([Q]); comparisons of such floats are comparisons of rationals.  The
      quotients of sample counts that [two_bias_scorer_CV] compares with
      [0.95] and with each other are modelled exactly; this agrees with
      IEEE doubles for every array of fewer than [2^50] samples.
    - numpy division by a zero count does not raise: it yields [nan] or
      [inf] and emits a RuntimeWarning.  [npfloat] keeps these values and
      the scorer records in [zero_div] whether such a division was done.
    - Rounding float arithmetic whose result is only stored or compared
      later (fold means, F1) is taken through the class [FloatArith].
    - [np.argsort] is taken through the class [TwoBias.ArgSort]: an
      ascending rearrangement, with the order of equal predictions left
      to the library.  Examples are run with the sort by insertion.
    - Python exceptions are the [Raise] results of the monad [py]. *)

From Stdlib Require Import ZArith QArith Qminmax List Lia Permutation Bool.
From Stdlib Require Import Sorted.
From stdpp Require Import base option list gmap strings.
Import ListNotations.

Local Open Scope Z_scope.

(** ** Python results *)

Inductive exn : Type :=
| ValueError | KeyError | IndexError | NameError | ZeroDivisionError.

Inductive py (A : Type) : Type :=
| Ok (a : A)
| Raise (e : exn).
Arguments Ok {A} a.
Arguments Raise {A} e.

#[global] Instance py_ret : MRet py := fun A a => Ok a.

#[global] Instance py_bind : MBind py := fun A B k m =>
  match m with
  | Ok a => k a
  | Raise e => Raise e
  end.

Definition of_option {A : Type} (e : exn) (o : option A) : py A :=
  match o with
  | Some a => Ok a
  | None => Raise e
  end.

Fixpoint py_mapM {A B : Type} (f : A -> py B) (l : list A) : py (list B) :=
  match l with
  | [] => Ok []
  | a :: l' => b ← f a; bs ← py_mapM f l'; Ok (b :: bs)
  end.

(** ** Floats *)

(** The value of a numpy true division. *)
Inductive npfloat : Type :=
| Finite (q : Q)
| PosInf
| NegInf
| NaN.

(** [a / b] on numpy scalars holding the integers [a] and [b]. *)
Definition np_div (a b : Z) : npfloat :=
  if b =? 0 then
    if a =? 0 then NaN else if 0 <? a then PosInf else NegInf
  else Finite (inject_Z a / inject_Z b)%Q.

(** [x >= 0.95]; every comparison with [nan] is false. *)
Definition ge95 (x : npfloat) : bool :=
  match x with
  | Finite q => Qle_bool (95 # 100) q
  | PosInf => true
  | NegInf => false
  | NaN => false
  end.

Definition Qlt_bool (a b : Q) : bool := negb (Qle_bool b a).

Lemma Qlt_bool_true (a b : Q) : Qlt_bool a b = true <-> (a < b)%Q.
Proof.
  unfold Qlt_bool. rewrite negb_true_iff. split.
  - intros H. apply Qnot_le_lt. intros Hle.
    apply Qle_bool_iff in Hle. congruence.
  - intros H. destruct (Qle_bool b a) eqn:Hle; [|reflexivity].
    apply Qle_bool_iff in Hle. exfalso. exact (Qlt_not_le _ _ H Hle).
Qed.

Lemma Qlt_bool_false (a b : Q) : Qlt_bool a b = false <-> (b <= a)%Q.
Proof.
  unfold Qlt_bool. rewrite negb_false_iff. apply Qle_bool_iff.
Qed.

(** Rounding arithmetic of the floats. *)
Class FloatArith : Type := {
  fadd : Q -> Q -> Q;
  fmul : Q -> Q -> Q;
  fdiv : Q -> Q -> Q
}.

(** The arithmetic without rounding, for running the model on examples. *)
Definition exact_arith : FloatArith :=
  {| fadd := Qplus; fmul := Qmult; fdiv := Qdiv |}.

(** ** [two_bias_scorer_CV] *)

Module TwoBias.

(** A row of [db]: the predicted probability and the label. *)
Definition row : Type := (Q * Z)%type.

(** [db[np.argsort(db[:, 0]), :]]: the rows in ascending order of the
    first column.  [np.argsort] with its default kind is not a stable
    sort: which of two rows with equal predictions comes first is the
    library's choice.  The model takes the reordering as a capability
    with what the library promises of it: the rows are rearranged, none
    lost, and the predictions ascend. *)
Class ArgSort : Type := {
  sort_rows : list row -> list row;
  sort_rows_perm : forall l, sort_rows l ≡ₚ l;
  sort_rows_ascending :
    forall l, StronglySorted (fun a b : row => (fst a <= fst b)%Q)
                (sort_rows l)
}.

Arguments sort_rows {AS} l : rename.

(** The sort by insertion, which keeps rows with equal predictions in
    their input order.  It is what numpy's default sort does on arrays
    of at most 16 elements, and the order the model is run with on
    examples. *)
Fixpoint insert_row (x : row) (l : list row) : list row :=
  match l with
  | [] => [x]
  | r :: l' => if Qlt_bool (fst r) (fst x) then r :: insert_row x l' else x :: l
  end.

Definition insertion_sort (l : list row) : list row := foldr insert_row [] l.

Lemma insert_row_perm (x : row) (l : list row) : insert_row x l ≡ₚ x :: l.
Proof.
  induction l as [|r l IH]; [reflexivity|].
  cbn [insert_row]. destruct (Qlt_bool (fst r) (fst x)); [|reflexivity].
  rewrite IH. apply perm_swap.
Qed.

Lemma insertion_sort_perm (l : list row) : insertion_sort l ≡ₚ l.
Proof.
  induction l as [|x l IH]; [reflexivity|].
  change (insertion_sort (x :: l)) with (insert_row x (insertion_sort l)).
  rewrite insert_row_perm, IH. reflexivity.
Qed.

Lemma insert_row_ascending (x : row) (l : list row) :
  StronglySorted (fun a b : row => (fst a <= fst b)%Q) l ->
  StronglySorted (fun a b : row => (fst a <= fst b)%Q) (insert_row x l).
Proof.
  induction l as [|r l IH]; intros Hs.
  - constructor; constructor.
  - cbn [insert_row]. apply StronglySorted_inv in Hs as [Hl Hr].
    destruct (Qlt_bool (fst r) (fst x)) eqn:Hlt.
    + apply Qlt_bool_true in Hlt. constructor; [apply IH, Hl|].
      apply Forall_forall. intros z Hz.
      rewrite insert_row_perm in Hz.
      apply elem_of_cons in Hz as [->|Hz]; [apply Qlt_le_weak, Hlt|].
      rewrite Forall_forall in Hr. apply Hr, Hz.
    + apply Qlt_bool_false in Hlt.
      constructor; [constructor; assumption|].
      constructor; [exact Hlt|].
      eapply Forall_impl; [exact Hr|].
      intros z Hz. cbn beta in *. eapply Qle_trans; eassumption.
Qed.

Lemma insertion_sort_ascending (l : list row) :
  StronglySorted (fun a b : row => (fst a <= fst b)%Q) (insertion_sort l).
Proof.
  induction l as [|x l IH]; [constructor|].
  change (insertion_sort (x :: l)) with (insert_row x (insertion_sort l)).
  apply insert_row_ascending, IH.
Qed.

Definition insertion_argsort : ArgSort :=
  {| sort_rows := insertion_sort;
     sort_rows_perm := insertion_sort_perm;
     sort_rows_ascending := insertion_sort_ascending |}.

(** [np.sum(y == 1)] *)
Definition count_pos (y : list Z) : Z :=
  Z.of_nat (length (List.filter (fun l => l =? 1) y)).

(** The variables the two loops assign and the function returns or that
    outlive an iteration, with the record of divisions by a zero count. *)
Record scan : Type := mkScan {
  optbias : list Q;
  minloss : Q;
  zero_div : bool
}.

(** The inner loop [for j in range(i + 1, n)], over the rows [db[j:]]. *)
Fixpoint inner_loop (n i : Z) (vi : Q) (j : Z) (rows : list row)
    (running_pos running_neg running_tp running_tn : Z) (st : scan) : scan :=
  match rows with
  | [] => st
  | (vj, lj) :: rows' =>
      let running_tp := if lj =? 1 then running_tp - 1 else running_tp in
      let running_pos := if lj =? 1 then running_pos - 1 else running_pos in
      let running_neg := if lj =? 1 then running_neg else running_neg - 1 in
      let lost := (inject_Z (j - i) / inject_Z n)%Q in
      if (running_pos =? 0) || (running_neg =? 0) then st
      else if ge95 (np_div running_tp running_pos)
              && ge95 (np_div running_tn running_neg)
              && Qlt_bool lost (minloss st)
      then inner_loop n i vi (j + 1) rows'
             running_pos running_neg running_tp running_tn
             (mkScan [vi; vj] lost (zero_div st))
      else inner_loop n i vi (j + 1) rows'
             running_pos running_neg running_tp running_tn st
  end.

(** [tp / pos >= 0.95 and tn / neg >= 0.95]: the value of the test and
    whether a division by zero was evaluated; [and] does not evaluate its
    second operand when the first is false. *)
Definition single_cut_test (tp pos tn neg : Z) : bool * bool :=
  if ge95 (np_div tp pos)
  then (ge95 (np_div tn neg), (pos =? 0) || (neg =? 0))
  else (false, pos =? 0).

(** The outer loop [for i in range(n)], over the rows [db[i:]]. *)
Fixpoint outer_loop (n pos neg : Z) (i : Z) (rows : list row)
    (tp tn : Z) (st : scan) : scan :=
  match rows with
  | [] => st
  | (vi, li) :: rows' =>
      let tp := if li =? 1 then tp - 1 else tp in
      let tn := if li =? 1 then tn else tn + 1 in
      let (sat, zd) := single_cut_test tp pos tn neg in
      let st := mkScan (optbias st) (minloss st) (zero_div st || zd) in
      if sat
      then outer_loop n pos neg (i + 1) rows' tp tn
             (mkScan [vi; vi] (minloss st) (zero_div st))
      else outer_loop n pos neg (i + 1) rows' tp tn
             (inner_loop n i vi (i + 1) rows' pos neg tp tn st)
  end.

(** The body of the function on the sorted rows. *)
Definition scan_rows (db : list row) : scan :=
  let y := map snd db in
  let pos := count_pos y in
  let n := Z.of_nat (length y) in
  let neg := n - pos in
  outer_loop n pos neg 0 db pos 0 (mkScan [] 1%Q false).

Section Run.

Context {AS : ArgSort}.

(** The whole run; [np.vstack] raises when the two vectors differ in
    length. *)
Definition run (probs : list Q) (y : list Z) : py scan :=
  if Nat.eqb (length probs) (length y)
  then Ok (scan_rows (sort_rows (combine probs y)))
  else Raise ValueError.

(** [two_bias_scorer_CV(probs, y, True)] *)
Definition two_bias_scorer_CV_bias (probs : list Q) (y : list Z)
  : py (Q * list Q) :=
  st ← run probs y; Ok ((- minloss st)%Q, optbias st).

(** [two_bias_scorer_CV(probs, y)] *)
Definition two_bias_scorer_CV (probs : list Q) (y : list Z) : py Q :=
  st ← run probs y; Ok (- minloss st)%Q.

End Run.

End TwoBias.

(** ** [f1_bias_scorer_CV] *)

Module F1Bias.
Section F1Bias.

Context {FA : FloatArith}.

(** [sklearn.metrics.precision_recall_curve(y, probs)], a library
    function: the precision, recall and threshold arrays, or an
    exception. *)
Variable precision_recall_curve :
  list Z -> list Q -> py (list Q * list Q * list Q).

(** The loop [for i in range(0, len(thresholds))], with the pair
    [(f1, bias)] as its state. *)
Fixpoint threshold_loop (precision recall thresholds : list Q)
    (idx : list nat) (f1 bias : Q) : py (Q * Q) :=
  match idx with
  | [] => Ok (f1, bias)
  | i :: idx' =>
      p ← of_option IndexError (precision !! i);
      r ← of_option IndexError (recall !! i);
      if negb (Qeq_bool p 0 && Qeq_bool r 0) then
        let f := fdiv (fmul 2 (fmul p r)) (fadd p r) in
        if Qlt_bool f1 f then
          t ← of_option IndexError (thresholds !! i);
          threshold_loop precision recall thresholds idx' f t
        else threshold_loop precision recall thresholds idx' f1 bias
      else threshold_loop precision recall thresholds idx' f1 bias
  end.

(** [f1_bias_scorer_CV(probs, y, True)] *)
Definition f1_bias_scorer_CV_bias (probs : list Q) (y : list Z)
  : py (Q * Q) :=
  prt ← precision_recall_curve y probs;
  let '(precision, recall, thresholds) := prt in
  threshold_loop precision recall thresholds
    (seq 0 (length thresholds)) 0%Q 0%Q.

(** [f1_bias_scorer_CV(probs, y)] *)
Definition f1_bias_scorer_CV (probs : list Q) (y : list Z) : py Q :=
  fb ← f1_bias_scorer_CV_bias probs y; Ok (fst fb).

End F1Bias.
End F1Bias.

(** ** The classifier capability *)

(** The estimator the search is given: [set_params] with a
    parameter setting followed by [fit(X, y)] gives a fitted model, [predict_proba(X)[:, 1]]
    is computed row by row, and [score(X, y)] is the estimator's own
    score method. *)
Class Estimator (feat param model : Type) : Type := {
  est_fit : param -> list feat -> list Z -> model;
  predict_proba1 : model -> feat -> Q;
  est_score : model -> list feat -> list Z -> Q
}.

(** A fold: the train indices and the test indices.  Indices are natural
    numbers, as the fold generator produces them. *)
Definition fold : Type := (list nat * list nat)%type.

(** Every index of every fold addresses one of the [n] samples. *)
Definition folds_in_range (n : nat) (cv : list fold) : Prop :=
  forall f, f ∈ cv ->
    (forall i, i ∈ fst f -> (i < n)%nat) /\ (forall i, i ∈ snd f -> (i < n)%nat).

(** The test index sets of the folds form an exact partition of the
    index range: together they hold every index below [n] once. *)
Definition test_partition (n : nat) (cv : list fold) : Prop :=
  concat (map snd cv) ≡ₚ seq 0 n.

(** The invariant of a fold: its train and test index sets are
    disjoint. *)
Definition folds_disjoint (cv : list fold) : Prop :=
  forall f, f ∈ cv -> forall i, i ∈ fst f -> i ∉ snd f.

(** [a[idx]] for an index array [idx]. *)
Definition np_take {A : Type} (a : list A) (idx : list nat) : py (list A) :=
  py_mapM (fun i => of_option IndexError (a !! i)) idx.

(** [a[idx] = vals] for an index array [idx]. *)
Fixpoint np_put {A : Type} (a : list A) (idx : list nat) (vals : list A)
  : py (list A) :=
  match idx, vals with
  | [], [] => Ok a
  | i :: idx', v :: vals' =>
      if decide (i < length a)%nat
      then np_put (<[i:=v]> a) idx' vals'
      else Raise IndexError
  | _, _ => Raise ValueError
  end.

(** ** [cross_val_probs] *)

Module CrossVal.
Section CrossVal.

Context {feat param model : Type} {E : Estimator feat param model}.

(** The loop [for train, test in cv], with [predicted_values] as its
    state; [parameters] are the parameters the estimator carries. *)
Fixpoint fold_loop (parameters : param) (X : list feat) (y : list Z)
    (cv : list fold) (predicted_values : list Q) : py (list Q) :=
  match cv with
  | [] => Ok predicted_values
  | (train, test) :: cv' =>
      X_train ← np_take X train;
      y_train ← np_take y train;
      X_test ← np_take X test;
      let temp := map (predict_proba1 (est_fit parameters X_train y_train)) X_test in
      predicted_values ← np_put predicted_values test temp;
      fold_loop parameters X y cv' predicted_values
  end.

Definition cross_val_probs (parameters : param) (X : list feat) (y : list Z)
    (cv : list fold) : py (list Q) :=
  fold_loop parameters X y cv (replicate (length y) 0%Q).

End CrossVal.
End CrossVal.

(** ** The parallel searches *)

(** [GridSearchCVSparkParallel.fit] and
    [RandomGridSearchCVSparkParallel.fit] have the same body from the
    construction of [param_grid] on; they differ in the parameter
    iterable ([ParameterGrid] or [ParameterSampler]), which the model
    takes as the list of the settings it yields. *)

Module Search.
Section Search.

Context {FA : FloatArith}.
Context {feat param model : Type} {E : Estimator feat param model}.

(** A scorer in the library's sense: a callable
    [scorer(estimator, X, y)]. *)
Definition sk_scorer : Type := model -> list feat -> list Z -> Q.

(** [sklearn.metrics.scorer.check_scoring(estimator, scoring=...)]:
    without a [scoring] it is the pass-through scorer, that is the
    estimator's [score] method. *)
Definition check_scoring (scoring : option sk_scorer) : sk_scorer :=
  match scoring with
  | Some s => s
  | None => est_score
  end.

(** What [_fit_and_score(..., return_parameters=True)] returns:
    [[test_score, n_test_samples, scoring_time, parameters]]. *)
Record fit_result : Type := mkFitResult {
  test_score : Q;
  n_test_samples : nat;
  scoring_time : Q;
  parameters : param
}.

(** [sklearn.cross_validation._fit_and_score]: fit a clone with the
    parameters on the train rows, score it on the test rows.  [elapsed]
    is the wall-clock time the call reports. *)
Definition fit_and_score (X : list feat) (y : list Z) (scorer : sk_scorer)
    (train test : list nat) (params : param) (elapsed : Q) : py fit_result :=
  X_train ← np_take X train;
  y_train ← np_take y train;
  X_test ← np_take X test;
  y_test ← np_take y test;
  let estimator := est_fit params X_train y_train in
  Ok (mkFitResult (scorer estimator X_test y_test) (length X_test)
        elapsed params).

(** A work item: [(parameters, train, test)]. *)
Definition work_item : Type := (param * list nat * list nat)%type.

(** [[(parameters, train, test) for parameters in parameter_iterable
      for (train, test) in cv]] *)
Definition make_param_grid (parameter_iterable : list param)
    (cv : list fold) : list work_item :=
  flat_map (fun parameters =>
              map (fun tt : fold => (parameters, fst tt, snd tt)) cv)
    parameter_iterable.

(** [list(zip(range(len(param_grid)), param_grid))] *)
Definition index_grid {A : Type} (grid : list A) : list (nat * A) :=
  combine (seq 0 (length grid)) grid.

(** The closure [local_fit]. *)
Definition local_fit (X : list feat) (y : list Z) (scorer : sk_scorer)
    (elapsed : nat -> Q) (tup : nat * work_item) : py (nat * fit_result) :=
  let '(index, (parameters, train, test)) := tup in
  res ← fit_and_score X y scorer train test parameters (elapsed index);
  Ok (index, res).

(** [dict(pairs)]: a later pair replaces an earlier one with the same
    key. *)
Definition dict_of_pairs {A : Type} (pairs : list (nat * A)) : gmap nat A :=
  fold_left (fun d kv => <[fst kv := snd kv]> d) pairs ∅.

(** [[indexed_output[idx] for idx in range(n)]] on the collected
    pairs. *)
Definition reassemble {A : Type} (n : nat) (collected : list (nat * A))
  : py (list A) :=
  let indexed_output := dict_of_pairs collected in
  py_mapM (fun idx => of_option KeyError (indexed_output !! idx)) (seq 0 n).

(** [_CVScoreTuple] *)
Record cv_score_tuple : Type := mkCVScore {
  cvs_parameters : param;
  mean_validation_score : Q;
  cv_validation_scores : list Q
}.

(** The state of the loop over one block of [out]. *)
Record block_state : Type := mkBlock {
  blk_n_test_samples : nat;
  blk_score : Q;
  blk_all_scores : list Q;
  blk_parameters : option param
}.

(** [for this_score, this_n_test_samples, _, parameters in block].
    The loop variable [parameters] stays bound after the loop; it is
    unbound ([None]) only while no tuple has been read. *)
Fixpoint block_loop (iid : bool) (block : list fit_result)
    (st : block_state) : block_state :=
  match block with
  | [] => st
  | r :: block' =>
      let all_scores := blk_all_scores st ++ [test_score r] in
      let this_score :=
        if iid then fmul (test_score r) (inject_Z (Z.of_nat (n_test_samples r)))
        else test_score r in
      let n_test :=
        if iid then (blk_n_test_samples st + n_test_samples r)%nat
        else blk_n_test_samples st in
      block_loop iid block'
        (mkBlock n_test (fadd (blk_score st) this_score) all_scores
           (Some (parameters r)))
  end.

(** [range(0, n_fits, n_folds)] *)
Definition grid_starts (n_fits n_folds : nat) : py (list nat) :=
  if Nat.eqb n_folds 0 then Raise ValueError
  else Ok (map (fun k => (k * n_folds)%nat)
             (seq 0 ((n_fits + n_folds - 1) / n_folds))).

(** The loop [for grid_start in range(0, n_fits, n_folds)], with
    [grid_scores] and the variable [parameters] as its state.  The list
    [scores] the source also appends to is never read and is left
    out.  With [iid] the running score is divided by
    [float(n_test_samples)], which is [0.0] when the folds of the block
    have no test sample: that division raises ZeroDivisionError (on a
    numpy score it would give nan with a warning; either way the block
    gets no mean).  Without [iid] the divisor [float(n_folds)] is not 0,
    the range of the loop having refused a step of 0. *)
Fixpoint grid_loop (iid : bool) (n_folds : nat) (out : list fit_result)
    (starts : list nat) (params_var : option param)
    (grid_scores : list cv_score_tuple) : py (list cv_score_tuple) :=
  match starts with
  | [] => Ok grid_scores
  | grid_start :: starts' =>
      let st := block_loop iid (take n_folds (drop grid_start out))
                  (mkBlock 0 0%Q [] params_var) in
      score ←
        (if iid
         then if Nat.eqb (blk_n_test_samples st) 0
              then Raise ZeroDivisionError
              else Ok (fdiv (blk_score st)
                         (inject_Z (Z.of_nat (blk_n_test_samples st))))
         else Ok (fdiv (blk_score st) (inject_Z (Z.of_nat n_folds))));
      p ← of_option NameError (blk_parameters st);
      grid_loop iid n_folds out starts' (Some p)
        (grid_scores ++ [mkCVScore p score (blk_all_scores st)])
  end.

(** The grouping of [out] into [grid_scores]. *)
Definition aggregate (iid : bool) (n_folds : nat) (out : list fit_result)
  : py (list cv_score_tuple) :=
  starts ← grid_starts (length out) n_folds;
  grid_loop iid n_folds out starts None [].

(** [sorted(grid_scores, key=lambda x: x.mean_validation_score,
    reverse=True)]: descending keys, equal keys in their original
    order. *)
Fixpoint insert_desc (x : cv_score_tuple) (l : list cv_score_tuple)
  : list cv_score_tuple :=
  match l with
  | [] => [x]
  | g :: l' =>
      if Qlt_bool (mean_validation_score x) (mean_validation_score g)
      then g :: insert_desc x l'
      else x :: l
  end.

Definition sorted_desc (l : list cv_score_tuple) : list cv_score_tuple :=
  foldr insert_desc [] l.

(** [sorted(...)[0]] *)
Definition select_best (grid_scores : list cv_score_tuple)
  : py cv_score_tuple :=
  of_option IndexError (head (sorted_desc grid_scores)).

(** The attributes [fit] sets. *)
Record fitted_search : Type := mkFitted {
  grid_scores_ : list cv_score_tuple;
  best_params_ : param;
  best_score_ : Q;
  best_estimator_ : option model
}.

(** The configuration of a search object. *)
Record search_config : Type := mkConfig {
  scoring : option sk_scorer;
  iid : bool;
  refit : bool;
  cv : list fold
}.

(** [fit] from the pairs the parallel map has collected on. *)
Definition fit_collected (cfg : search_config) (X : list feat) (y : list Z)
    (n_grid : nat) (collected : list (nat * fit_result)) : py fitted_search :=
  out ← reassemble n_grid collected;
  grid_scores ← aggregate (iid cfg) (length (cv cfg)) out;
  best ← select_best grid_scores;
  let best_estimator :=
    if refit cfg then Some (est_fit (cvs_parameters best) X y) else None in
  Ok (mkFitted grid_scores (cvs_parameters best)
        (mean_validation_score best) best_estimator).

(** [par_param_grid.map(local_fit).collect()] with the pairs delivered
    in the order [deliver] puts them. *)
Definition parallel_map (X : list feat) (y : list Z) (scorer : sk_scorer)
    (elapsed : nat -> Q)
    (deliver : list (nat * fit_result) -> list (nat * fit_result))
    (indexed_param_grid : list (nat * work_item))
  : py (list (nat * fit_result)) :=
  pairs ← py_mapM (local_fit X y scorer elapsed) indexed_param_grid;
  Ok (deliver pairs).

(** [fit(X, y)] *)
Definition fit (cfg : search_config) (parameter_iterable : list param)
    (elapsed : nat -> Q)
    (deliver : list (nat * fit_result) -> list (nat * fit_result))
    (X : list feat) (y : list Z) : py fitted_search :=
  if negb (Nat.eqb (length y) (length X)) then Raise ValueError
  else
    let param_grid := make_param_grid parameter_iterable (cv cfg) in
    let indexed_param_grid := index_grid param_grid in
    let scorer := check_scoring (scoring cfg) in
    collected ← parallel_map X y scorer elapsed deliver indexed_param_grid;
    fit_collected cfg X y (length param_grid) collected.

End Search.
End Search.

(** ** [cstress_spark_parallel_fold_param_model_main] *)

Module Main.
Section Main.

Context {FA : FloatArith} {AS : TwoBias.ArgSort}.
Context {feat param model : Type} {E : Estimator feat param model}.

Variable precision_recall_curve :
  list Z -> list Q -> py (list Q * list Q * list Q).

(** [args.scorer]: ['f1'] or anything else. *)
Inductive scorer_arg : Type := ScorerF1 | ScorerTwoBias.

(** [args.whichsearch]: ['grid'] or anything else. *)
Inductive search_arg : Type := SearchGrid | SearchRandomized.

(** The bias a scorer returns with [ret_bias=True]: one threshold from
    the f1 scorer, a list from the two-bias scorer. *)
Inductive bias_value : Type :=
| BiasThreshold (t : Q)
| BiasList (l : list Q).

(** [if args.scorer == 'f1': scorer = f1_bias_scorer_CV
     else: scorer = two_bias_scorer_CV], called with [ret_bias=True]. *)
Definition select_scorer (a : scorer_arg)
  : list Q -> list Z -> py (Q * bias_value) :=
  match a with
  | ScorerF1 => fun probs y =>
      sb ← F1Bias.f1_bias_scorer_CV_bias precision_recall_curve probs y;
      Ok (fst sb, BiasThreshold (snd sb))
  | ScorerTwoBias => fun probs y =>
      sb ← TwoBias.two_bias_scorer_CV_bias probs y;
      Ok (fst sb, BiasList (snd sb))
  end.

(** [bias == []] *)
Definition bias_is_empty (b : bias_value) : bool :=
  match b with
  | BiasList [] => true
  | _ => false
  end.

(** What the last part of [main] does with the bias. *)
Inductive report : Type :=
| SaveModel (b : bias_value)
| ResultsNotGood.

(** [if not bias == []: save_model(...) ... else: print("Results not
    good")] *)
Definition report_model (bias : bias_value) : report :=
  if negb (bias_is_empty bias) then SaveModel bias else ResultsNotGood.

(** Both constructor calls pass [scoring=None], [iid=False] and leave
    [refit] at its default. *)
Definition main_config (lkf : list fold) : @Search.search_config feat model :=
  Search.mkConfig None false true lkf.

Record main_output : Type := mkMainOutput {
  out_search : @Search.fitted_search param model;
  out_cv_probs : list Q;
  out_score : Q;
  out_bias : bias_value;
  out_report : report
}.

(** The function from the construction of the search on; the parsed
    data, the fold generator [lkf] and the two parameter iterables are
    its inputs. *)
Definition main (scorer_name : scorer_arg) (whichsearch : search_arg)
    (grid_iterable sampler_iterable : list param)
    (elapsed : nat -> Q)
    (deliver : list (nat * Search.fit_result) -> list (nat * Search.fit_result))
    (traindata : list feat) (trainlabels : list Z) (lkf : list fold)
  : py main_output :=
  let scorer := select_scorer scorer_name in
  let parameter_iterable :=
    match whichsearch with
    | SearchGrid => grid_iterable
    | SearchRandomized => sampler_iterable
    end in
  clf ← Search.fit (main_config lkf) parameter_iterable elapsed deliver
          traindata trainlabels;
  CV_probs ← CrossVal.cross_val_probs (Search.best_params_ clf)
               traindata trainlabels lkf;
  sb ← scorer CV_probs trainlabels;
  Ok (mkMainOutput clf CV_probs (fst sb) (snd sb) (report_model (snd sb))).

End Main.
End Main.

(** ** The constraints of the two-bias scorer, by position *)

(** The sensitivity and specificity tests of [two_bias_scorer_CV] written
    on the sorted rows by position, without the loops: what it means that
    a single cut at row [i], or the pair of cuts at rows [i < j], meets
    both 0.95 constraints. *)
Module Cuts.

Definition labels (db : list TwoBias.row) : list Z := map snd db.

(** The number of labels different from 1. *)
Definition count_neg (y : list Z) : Z :=
  Z.of_nat (length y) - TwoBias.count_pos y.

(** [tp] and [tn] after row [i] has been passed. *)
Definition tp_at (db : list TwoBias.row) (i : nat) : Z :=
  TwoBias.count_pos (labels db) - TwoBias.count_pos (labels (take (S i) db)).

Definition tn_at (db : list TwoBias.row) (i : nat) : Z :=
  count_neg (labels (take (S i) db)).

(** The test of the outer loop, [tp / pos >= 0.95 and tn / neg >= 0.95]. *)
Definition single_test (tp pos tn neg : Z) : bool :=
  ge95 (np_div tp pos) && ge95 (np_div tn neg).

(** The tests of the inner loop on the running counts: neither pool is
    empty and both ratios reach 0.95. *)
Definition pair_test (running_pos running_neg running_tp running_tn : Z)
  : bool :=
  negb (running_pos =? 0) && negb (running_neg =? 0)
  && ge95 (np_div running_tp running_pos)
  && ge95 (np_div running_tn running_neg).

(** The single cut at row [i] meets both constraints. *)
Definition single_cut_ok (db : list TwoBias.row) (i : nat) : bool :=
  single_test (tp_at db i) (TwoBias.count_pos (labels db))
    (tn_at db i) (count_neg (labels db)).

(** The rows [i+1 .. j], which the pair of cuts [(i, j)] takes out. *)
Definition band (db : list TwoBias.row) (i j : nat) : list TwoBias.row :=
  take (j - i) (drop (S i) db).

(** The pair of cuts at rows [i < j] leaves both pools non-empty and
    meets both constraints. *)
Definition pair_cut_ok (db : list TwoBias.row) (i j : nat) : bool :=
  let k := TwoBias.count_pos (labels (band db i j)) in
  let m := count_neg (labels (band db i j)) in
  pair_test (TwoBias.count_pos (labels db) - k) (count_neg (labels db) - m)
    (tp_at db i - k) (tn_at db i).

(** Some single cut or some pair of cuts meets both constraints. *)
Definition feasible (db : list TwoBias.row) : bool :=
  existsb (fun i =>
             single_cut_ok db i
             || existsb (fun j => pair_cut_ok db i j)
                  (seq (S i) (length db - S i)))
    (seq 0 (length db)).

End Cuts.

(** ** A pair of thresholds, by value *)

(** The spec's words for a bias [lo <= hi]: predictions at most [lo]
    are decided negative, predictions at least [hi] are decided
    positive, those strictly between are rejected, and sensitivity and
    specificity are taken among the decided samples.  The words leave
    open what a prediction equal to both thresholds is decided as;
    [at_both] says whether it is positive (as the report of [main]
    reads the bias) or negative. *)
Module Thresholds.







End Thresholds.

(** ** A small estimator to run the model on *)

Module Toy.

(** One feature per row; the model is the parameter setting itself, the
    predicted probability is the feature, and [score] is the accuracy of
    the decision [feature >= 1/2]. *)
Definition decide_half (x : Q) : Z := if Qle_bool (1 # 2) x then 1 else 0.

Definition accuracy (X : list Q) (y : list Z) : Q :=
  let hits := List.filter (fun xy : Q * Z => decide_half (fst xy) =? snd xy) (combine X y) in
  (inject_Z (Z.of_nat (length hits)) / inject_Z (Z.of_nat (length y)))%Q.

#[global] Instance estimator : Estimator Q nat nat :=
  {| est_fit := fun p _ _ => p;
     predict_proba1 := fun _ x => x;
     est_score := fun _ X y => accuracy X y |}.

Definition X : list Q := [1 # 10; 9 # 10; 2 # 10; 8 # 10].
Definition y : list Z := [0; 1; 0; 1].
Definition lkf : list fold := [([2; 3], [0; 1]); ([0; 1], [2; 3])]%nat.
Definition elapsed (idx : nat) : Q := 0.
Definition grid : list nat := [7; 8]%nat.

(** A curve for the f1 scorer on examples: one threshold. *)
Definition curve (y : list Z) (probs : list Q)
  : py (list Q * list Q * list Q) :=
  Ok ([1; 1]%Q, [1; 0]%Q, [1 # 2]).

(** The pairs the four work items of [grid] and [lkf] give, in
    generation order and in the reverse order. *)
Definition pairs : list (nat * @Search.fit_result nat) :=
  Eval vm_compute in
    match py_mapM (Search.local_fit X y est_score elapsed)
            (Search.index_grid (Search.make_param_grid grid lkf)) with
    | Ok p => p
    | Raise _ => []
    end.

Definition results : list (@Search.fit_result nat) := map snd pairs.

Definition collected : list (nat * @Search.fit_result nat) := rev pairs.

Definition cfg : @Search.search_config Q nat := Main.main_config lkf.

(** The same search with [iid] set. *)
Definition iid_cfg : @Search.search_config Q nat :=
  Search.mkConfig None true true lkf.


(** Predictions that rank the only positive below the only negative. *)
Definition bad_probs : list Q := [1 # 10; 9 # 10].
Definition bad_y : list Z := [1; 0].

(** A fold plan that leaves sample 3 untested. *)
Definition partial_lkf : list fold := [([2; 3], [0; 1]); ([0; 1], [2])]%nat.

End Toy.

(** ** An estimator that remembers its training rows *)

Module Memo.

(** The probability of a row is 1 when the model was fitted on a row
    equal to it, and 0 otherwise. *)
Definition seen (m : list Q) (x : Q) : Q :=
  if existsb (Qeq_bool x) m then 1%Q else 0%Q.

Definition estimator : Estimator Q nat (list Q) :=
  {| est_fit := fun _ X _ => X;
     predict_proba1 := seen;
     est_score := fun _ _ _ => 0%Q |}.

Definition X : list Q := [1 # 10; 9 # 10].
Definition y : list Z := [0; 1].

(** One fold that trains on the samples it tests, and two folds that
    do not. *)
Definition leaky : list fold := [([0; 1], [0; 1])]%nat.
Definition clean : list fold := [([1], [0]); ([0], [1])]%nat.

End Memo.

(** ** [cv_fit_and_score] *)

Module CvFit.
Section CvFit.

Context {feat param model : Type} {E : Estimator feat param model}.

(** [cv_fit_and_score(estimator, X, y, scorer, parameters, cv)]: the
    estimator takes the parameters, the scorer is applied to the
    out-of-fold probabilities of the whole data set, and the pair
    [[score, parameters]] is returned. *)
Definition cv_fit_and_score (X : list feat) (y : list Z)
    (scorer : list Q -> list Z -> py Q) (parameters : param)
    (cv : list fold) : py (Q * param) :=
  cv_predictions ← CrossVal.cross_val_probs parameters X y cv;
  score ← scorer cv_predictions y;
  Ok (score, parameters).

End CvFit.
End CvFit.

(** ** The aggregate of one block, in closed form *)

Module Blocks.
Section Blocks.

Context {FA : FloatArith} {param : Type}.

(** The block of [out] that starts at item [b * n_folds]. *)
Definition block_of (n_folds : nat) (out : list (@Search.fit_result param))
    (b : nat) : list (@Search.fit_result param) :=
  take n_folds (drop (b * n_folds) out).

(** What a fold adds to the running score. *)
Definition fold_term (iid : bool) (r : @Search.fit_result param) : Q :=
  if iid
  then fmul (Search.test_score r)
         (inject_Z (Z.of_nat (Search.n_test_samples r)))
  else Search.test_score r.

(** The number of test samples of a block. *)
Definition block_tests (block : list (@Search.fit_result param)) : nat :=
  fold_left (fun k r => (k + Search.n_test_samples r)%nat) block 0%nat.

(** The mean of a block: the terms added to 0 in fold order, divided by
    the number of test samples ([iid]) or by the number of folds. *)
Definition block_mean (iid : bool) (n_folds : nat)
    (block : list (@Search.fit_result param)) : Q :=
  let total := fold_left (fun s r => fadd s (fold_term iid r)) block 0%Q in
  if iid
  then fdiv total (inject_Z (Z.of_nat (block_tests block)))
  else fdiv total (inject_Z (Z.of_nat n_folds)).

End Blocks.
End Blocks.

(** ** The report at the end of [main] *)

Module Report.

(** [CV_probs >= bias] as integers. *)
Definition at_least (t : Q) (p : Q) : Z := if Qle_bool t p then 1 else 0.

(** The f1 branch: [predicted = np.asarray(CV_probs >= bias)],
    [classified = range(n)]. *)
Definition classify_f1 (CV_probs : list Q) (n : nat) (bias : Q)
  : list nat * list Z :=
  (seq 0 n, map (at_least bias) CV_probs).

(** The two-bias branch:
    [classified = np.where(np.logical_or(CV_probs <= bias[0],
                                         CV_probs >= bias[1]))[0]] and
    [predicted = np.asarray(CV_probs[classified] >= bias[1])]. *)
Definition classify_two_bias (CV_probs : list Q) (bias : list Q)
  : py (list nat * list Z) :=
  lo ← of_option IndexError (bias !! 0%nat);
  hi ← of_option IndexError (bias !! 1%nat);
  let classified :=
    List.filter
      (fun k => match CV_probs !! k with
                | Some p => Qle_bool p lo || Qle_bool hi p
                | None => false
                end)
      (seq 0 (length CV_probs)) in
  chosen ← np_take CV_probs classified;
  Ok (classified, map (at_least hi) chosen).

(** [n - len(classified)], the count printed as lost. *)
Definition lost (n : nat) (classified : list nat) : Z :=
  Z.of_nat n - Z.of_nat (length classified).

End Report.

(** ** Preparation of the data *)

Module Prep.

(** The dict literal of [decode_label], and the lookup [mapping[label]]. *)
Definition mapping : list (string * Z) :=
  [("c1", 0); ("c2", 1); ("c3", 1); ("c4", 0); ("c5", 0); ("c6", 0);
   ("c7", 2)].

Fixpoint dict_get (d : list (string * Z)) (k : string) : option Z :=
  match d with
  | [] => None
  | (k', v) :: d' => if String.eqb k' k then Some v else dict_get d' k
  end.

(** [decode_label(label)]; [label[:2]] keeps at most two characters. *)
Definition decode_label (label : string) : py Z :=
  let label := String.substring 0 2 label in
  of_option KeyError (dict_get mapping label).

(** A stress mark [[participantID, label, start, end]]. *)
Definition mark : Type := (Z * string * Z * Z)%type.

(** The loop of [check_stress_mark] that fills [result]. *)
Fixpoint marks_loop (stress_mark : list mark) (pid start_time end_time : Z)
    (result : list string) : list string :=
  match stress_mark with
  | [] => result
  | (id_index, gt, st, et) :: rest =>
      if (id_index =? pid) && negb (String.eqb gt "c7")
      then if (st <? start_time) && (end_time <? et)
           then marks_loop rest pid start_time end_time (result ++ [gt])
           else marks_loop rest pid start_time end_time result
      else marks_loop rest pid start_time end_time result
  end.

(** [Counter(result)]: the counts, in the order the elements were first
    seen. *)
Fixpoint counter_add (x : string) (c : list (string * nat))
  : list (string * nat) :=
  match c with
  | [] => [(x, 1%nat)]
  | (k, n) :: c' =>
      if String.eqb k x then (k, S n) :: c' else (k, n) :: counter_add x c'
  end.

Definition Counter (l : list string) : list (string * nat) :=
  fold_left (fun c x => counter_add x c) l [].

(** [most_common(1)]: the first entry with the largest count. *)
Definition most_common_1 (c : list (string * nat)) : list (string * nat) :=
  match c with
  | [] => []
  | e :: c' =>
      [fold_left (fun best e' => if (snd best <? snd e')%nat then e' else best)
         c' e]
  end.

Definition check_stress_mark (stress_mark : list mark) (pid start_time : Z)
  : list (string * nat) :=
  let end_time := start_time + 60000 in
  most_common_1 (Counter (marks_loop stress_mark pid start_time end_time [])).

(** A feature row [[participant_id, timestamp, f1, f2, ...]]. *)
Definition feature_row : Type := (Z * Z * list Q)%type.

(** The first loop of [analyze_events_with_features]; the entry that
    starts as [np.inf] holds [min(inf, start) = start] at once. *)
Fixpoint start_times_loop (stress_marks : list mark)
    (start_times : gmap Z Z) : gmap Z Z :=
  match stress_marks with
  | [] => start_times
  | (pid, label, start, _) :: rest =>
      if String.eqb label "c4"
      then start_times_loop rest
             (<[pid := match start_times !! pid with
                       | None => start
                       | Some v => Z.min v start
                       end]> start_times)
      else start_times_loop rest start_times
  end.

(** The second loop, with the three lists it appends to. *)
Fixpoint features_loop (stress_marks : list mark) (start_times : gmap Z Z)
    (features : list feature_row)
    (final_features : list (list Q)) (feature_labels subjects : list Z)
  : py (list (list Q) * list Z * list Z) :=
  match features with
  | [] => Ok (final_features, feature_labels, subjects)
  | (id_index, ts, f) :: rest =>
      match start_times !! id_index with
      | None => Raise KeyError
      | Some first =>
          if ts <? first
          then features_loop stress_marks start_times rest
                 final_features feature_labels subjects
          else
            match check_stress_mark stress_marks id_index ts with
            | [] => features_loop stress_marks start_times rest
                      final_features feature_labels subjects
            | (gt, _) :: _ =>
                match decode_label gt with
                | Raise e => Raise e
                | Ok stress_class =>
                    features_loop stress_marks start_times rest
                      (final_features ++ [f])
                      (feature_labels ++ [stress_class])
                      (subjects ++ [id_index])
                end
            end
      end
  end.

Definition analyze_events_with_features (features : list feature_row)
    (stress_marks : list mark) : py (list (list Q) * list Z * list Z) :=
  features_loop stress_marks (start_times_loop stress_marks ∅) features
    [] [] [].

(** [d[i]] on a list: a negative index counts from the end. *)
Definition py_index {A : Type} (d : list A) (i : Z) : py A :=
  let n := Z.of_nat (length d) in
  if 0 <=? i then of_option IndexError (d !! Z.to_nat i)
  else if 0 <=? n + i then of_option IndexError (d !! Z.to_nat (n + i))
  else Raise IndexError.

(** [reduce_data(data, r)] *)
Definition reduce_data {A : Type} (data : list (list A)) (r : list Z)
  : py (list (list A)) :=
  py_mapM (fun d => py_mapM (py_index d) r) data.

End Prep.

(** ** Closed forms for the preparation of the data *)

Module PrepSpec.
Import Prep.

Definition mark_label (m : mark) : string := let '(_, gt, _, _) := m in gt.

(** A mark that [check_stress_mark] counts for a window starting at
    [start_time]. *)
Definition qualifies (pid start_time : Z) (m : mark) : bool :=
  let '(id_index, gt, st, et) := m in
  (id_index =? pid) && negb (String.eqb gt "c7")
  && (st <? start_time) && (start_time + 60000 <? et).

Definition votes (marks : list mark) (pid start_time : Z) (gt : string)
  : nat :=
  length (List.filter
            (fun m => qualifies pid start_time m
                      && String.eqb gt (mark_label m)) marks).

Definition is_baseline (pid : Z) (m : mark) : bool :=
  let '(id_index, gt, _, _) := m in (id_index =? pid) && String.eqb gt "c4".

Definition mark_start (m : mark) : Z := let '(_, _, st, _) := m in st.

Definition has_baseline (marks : list mark) (pid : Z) : bool :=
  existsb (is_baseline pid) marks.

(** A feature row that [analyze_events_with_features] keeps. *)
Definition kept (marks : list mark) (row : feature_row) : bool :=
  let '(pid, ts, _) := row in
  existsb (fun m => is_baseline pid m && (mark_start m <=? ts)) marks
  && existsb (qualifies pid ts) marks.

(** The count a [Counter] holds for a key, and the occurrences of a key
    in a list. *)
Fixpoint counter_get (c : list (string * nat)) (k : string) : nat :=
  match c with
  | [] => 0%nat
  | (k', n) :: c' => if String.eqb k' k then n else counter_get c' k
  end.

Definition cnt (k : string) (l : list string) : nat :=
  length (List.filter (String.eqb k) l).

Definition row_pid (row : feature_row) : Z := let '(pid, _, _) := row in pid.
Definition row_features (row : feature_row) : list Q :=
  let '(_, _, f) := row in f.

End PrepSpec.

(** ** The elapsed time *)

Module Elapsed.

(** [elapsed_time_format_hr_min_sec(seconds)] on a whole number of
    seconds: the hours, minutes and seconds it prints.  [divmod] on
    integers is the floor division with its remainder. *)
Definition elapsed_time_format_hr_min_sec (seconds : Z) : Z * Z * Z :=
  let '(m, s) := (seconds / 60, seconds mod 60) in
  let '(h, m) := (m / 60, m mod 60) in
  (h, m, s).

End Elapsed.

(** ** Sample marks and feature rows *)

Module ToyPrep.

(** One participant with a baseline, a stress, a rest and a "c7" mark. *)
Definition marks : list Prep.mark :=
  [(1, "c4", 0, 100000); (1, "c2", 100000, 300000);
   (1, "c1", 300000, 500000); (1, "c7", 0, 500000)].

(** Four windows of participant 1; the third one crosses the end of the
    stress mark. *)
Definition features : list Prep.feature_row :=
  [(1, 10, [1 # 2; 1 # 3]); (1, 150000, [1 # 4; 1 # 5]);
   (1, 280000, [1 # 6; 1 # 7]); (1, 310000, [1 # 8; 1 # 9])].

(** A window of a participant without marks. *)
Definition orphan : list Prep.feature_row := [(2, 10, [1 # 2; 1 # 3])].

Definition table : list (list Z) := [[10; 20; 30]; [40; 50; 60]].

End ToyPrep.

(** ** Shapes of results *)

Module Shapes.

(** A bias of the two-bias scorer over the predictions [vals]: empty, or
    a pair of predictions [lo <= hi]. *)
Definition bias_shape (vals : list Q) (b : list Q) : Prop :=
  b = [] \/ exists lo hi, b = [lo; hi] /\ (lo <= hi)%Q
                          /\ lo ∈ vals /\ hi ∈ vals.

(** The F1 value the f1 scorers compute from a precision and a recall,
    and the test they skip a threshold on. *)
Definition f_measure {FA : FloatArith} (p r : Q) : Q :=
  fdiv (fmul 2 (fmul p r)) (fadd p r).

Definition degenerate (p r : Q) : bool := Qeq_bool p 0 && Qeq_bool r 0.

(** Rows in ascending order of the prediction. *)
Definition rows_ascending (db : list TwoBias.row) : Prop :=
  StronglySorted (fun a b : TwoBias.row => (fst a <= fst b)%Q) db.

End Shapes.

(** * Properties *)

(** ** The monad and index arrays *)

Lemma py_mapM_seq_lookup {A : Type} (f : nat -> py A) (rs : list A) (a : nat) :
  (forall i r, rs !! i = Some r -> f (a + i)%nat = Ok r) ->
  py_mapM f (seq a (length rs)) = Ok rs.
Proof.
  revert a. induction rs as [|r rs IH]; intros a Hf; [reflexivity|].
  cbn [length seq py_mapM].
  rewrite <- (Nat.add_0_r a) at 1. rewrite (Hf 0%nat r eq_refl).
  cbn. rewrite IH; [reflexivity|].
  intros i r' Hi. replace (S a + i)%nat with (a + S i)%nat by lia.
  apply Hf. exact Hi.
Qed.

Lemma py_mapM_length {A B : Type} (f : A -> py B) (l : list A) (bs : list B) :
  py_mapM f l = Ok bs -> length bs = length l.
Proof.
  revert bs. induction l as [|a l IH]; intros bs H; cbn in H.
  - injection H as <-. reflexivity.
  - destruct (f a) as [b|e]; cbn in H; [|discriminate].
    destruct (py_mapM f l) as [bs'|e]; cbn in H; [|discriminate].
    injection H as <-. cbn. f_equal. apply IH. reflexivity.
Qed.

Lemma py_mapM_lookup {A B : Type} (f : A -> py B) (l : list A) (bs : list B)
    (i : nat) (a : A) :
  py_mapM f l = Ok bs -> l !! i = Some a ->
  exists b, bs !! i = Some b /\ f a = Ok b.
Proof.
  revert bs i. induction l as [|a0 l IH]; intros bs i H Hi; [discriminate|].
  cbn in H.
  destruct (f a0) as [b0|e] eqn:Hf; cbn in H; [|discriminate].
  destruct (py_mapM f l) as [bs'|e] eqn:Hm; cbn in H; [|discriminate].
  injection H as <-.
  destruct i as [|i]; cbn in Hi.
  - injection Hi as ->. exists b0. split; [reflexivity|exact Hf].
  - cbn. eapply IH; [reflexivity|exact Hi].
Qed.

Lemma py_mapM_total {A B : Type} (f : A -> py B) (l : list A) :
  (forall a, a ∈ l -> exists b, f a = Ok b) ->
  exists bs, py_mapM f l = Ok bs.
Proof.
  induction l as [|a l IH]; intros H; [exists []; reflexivity|].
  destruct (H a) as [b Hb]; [left|].
  destruct IH as [bs Hbs]; [intros a' Ha'; apply H; right; exact Ha'|].
  exists (b :: bs). cbn. rewrite Hb. cbn. rewrite Hbs. reflexivity.
Qed.

Lemma np_take_total {A : Type} (a : list A) (idx : list nat) :
  (forall i, i ∈ idx -> (i < length a)%nat) ->
  exists r, np_take a idx = Ok r.
Proof.
  intros H. apply py_mapM_total. intros i Hi.
  destruct (lookup_lt_is_Some_2 a i (H i Hi)) as [x Hx].
  exists x. rewrite Hx. reflexivity.
Qed.

(** ** Reassembly of the collected pairs *)

Section Reassembly.

Context {A : Type}.
Implicit Types (pairs : list (nat * A)) (d : gmap nat A).

Lemma dict_fold_absent pairs d (k : nat) :
  k ∉ pairs.*1 ->
  fold_left (fun d kv => <[fst kv := snd kv]> d) pairs d !! k = d !! k.
Proof.
  revert d. induction pairs as [|[k' v'] pairs IH]; intros d Hk; [reflexivity|].
  cbn in *. apply not_elem_of_cons in Hk as [Hne Hk].
  rewrite IH by exact Hk. apply lookup_insert_ne. congruence.
Qed.

Lemma dict_fold_present pairs d (k : nat) (v : A) :
  NoDup pairs.*1 -> (k, v) ∈ pairs ->
  fold_left (fun d kv => <[fst kv := snd kv]> d) pairs d !! k = Some v.
Proof.
  revert d. induction pairs as [|[k' v'] pairs IH]; intros d Hnd Hin.
  - inversion Hin.
  - cbn in *. apply NoDup_cons in Hnd as [Hk' Hnd].
    apply elem_of_cons in Hin as [Heq|Hin].
    + injection Heq as <- <-.
      rewrite dict_fold_absent by exact Hk'. apply lookup_insert_eq.
    + apply IH; assumption.
Qed.

Lemma index_grid_lookup_from (l : list A) (a i : nat) :
  combine (seq a (length l)) l !! i = (fun x => ((a + i)%nat, x)) <$> l !! i.
Proof.
  revert a i. induction l as [|x l IH]; intros a i; [reflexivity|].
  destruct i as [|i]; cbn.
  - rewrite Nat.add_0_r. reflexivity.
  - rewrite IH. replace (S a + i)%nat with (a + S i)%nat by lia. reflexivity.
Qed.

Lemma index_grid_lookup (l : list A) (i : nat) :
  Search.index_grid l !! i = (fun x => (i, x)) <$> l !! i.
Proof. apply (index_grid_lookup_from l 0 i). Qed.

Lemma index_grid_keys (l : list A) :
  (Search.index_grid l).*1 = seq 0 (length l).
Proof.
  unfold Search.index_grid. generalize 0%nat.
  induction l as [|x l IH]; intros a; [reflexivity|].
  cbn. f_equal. apply IH.
Qed.

Lemma dict_of_permuted (results : list A) pairs (k : nat) (v : A) :
  pairs ≡ₚ Search.index_grid results ->
  results !! k = Some v ->
  Search.dict_of_pairs pairs !! k = Some v.
Proof.
  intros Hp Hk. unfold Search.dict_of_pairs.
  apply dict_fold_present.
  - rewrite Hp, index_grid_keys. apply NoDup_seq.
  - rewrite Hp. apply list_elem_of_lookup. exists k.
    rewrite index_grid_lookup, Hk. reflexivity.
Qed.

Lemma reassemble_permuted (results : list A) pairs :
  pairs ≡ₚ Search.index_grid results ->
  Search.reassemble (length results) pairs = Ok results.
Proof.
  intros Hp. unfold Search.reassemble.
  apply py_mapM_seq_lookup. intros i r Hi. cbn.
  rewrite (dict_of_permuted results pairs i r Hp Hi). reflexivity.
Qed.

End Reassembly.

(** ** The search: order independence and block structure *)

Section SearchFacts.

Context {FA : FloatArith}.
Context {feat param model : Type} {E : Estimator feat param model}.

Local Abbreviation fit_result := (@Search.fit_result param).
Local Abbreviation cv_score_tuple := (@Search.cv_score_tuple param).

(** C1.  Whatever the order in which the parallel map delivers the
    pairs [(index, result)], looking the indices [0 .. N-1] up in the
    dictionary built from them gives the results in generation order;
    hence the grid scores and everything [fit] computes from the pairs,
    the selected best setting included, are those of the in-order run. *)
Theorem reassembly_order_independent
    (cfg : Search.search_config) (X : list feat) (y : list Z)
    (results : list fit_result) (collected : list (nat * fit_result)) :
  collected ≡ₚ Search.index_grid results ->
  Search.reassemble (length results) collected = Ok results
  /\ (forall iid n_folds,
        (out ← Search.reassemble (length results) collected;
         Search.aggregate iid n_folds out)
        = Search.aggregate iid n_folds results)
  /\ Search.fit_collected cfg X y (length results) collected
     = Search.fit_collected cfg X y (length results)
         (Search.index_grid results).
Proof.
  intros Hp.
  pose proof (reassemble_permuted results collected Hp) as Hc.
  pose proof (reassemble_permuted results (Search.index_grid results)
                (reflexivity _)) as Hi.
  split; [exact Hc|]. split.
  - intros iid n_folds. rewrite Hc. reflexivity.
  - unfold Search.fit_collected. rewrite Hc, Hi. reflexivity.
Qed.

Lemma make_param_grid_length (ps : list param) (cv : list fold) :
  length (Search.make_param_grid ps cv) = (length ps * length cv)%nat.
Proof.
  unfold Search.make_param_grid.
  induction ps as [|p ps IH]; [reflexivity|].
  cbn [flat_map]. rewrite length_app, length_map.
  cbn [length Nat.mul]. f_equal. exact IH.
Qed.

Lemma make_param_grid_lookup (ps : list param) (cv : list fold)
    (b k : nat) (p : param) (f : fold) :
  ps !! b = Some p -> cv !! k = Some f ->
  Search.make_param_grid ps cv !! (b * length cv + k)%nat
  = Some (p, fst f, snd f).
Proof.
  unfold Search.make_param_grid.
  revert b. induction ps as [|p0 ps IH]; intros b Hb Hk; [discriminate|].
  cbn [flat_map]. destruct b as [|b]; cbn in Hb.
  - injection Hb as ->. cbn [Nat.mul Nat.add].
    rewrite lookup_app_l by (rewrite length_map; eapply lookup_lt_Some; eauto).
    change (map ?g cv) with (g <$> cv).
    rewrite list_lookup_fmap, Hk. reflexivity.
  - rewrite lookup_app_r by (rewrite length_map; cbn; lia).
    rewrite length_map.
    replace (S b * length cv + k - length cv)%nat
      with (b * length cv + k)%nat by (cbn; lia).
    apply IH; assumption.
Qed.

Lemma make_param_grid_parameters (ps : list param) (cv : list fold) :
  map (fun w : Search.work_item => fst (fst w)) (Search.make_param_grid ps cv)
  = flat_map (fun p => replicate (length cv) p) ps.
Proof.
  unfold Search.make_param_grid.
  induction ps as [|p ps IH]; [reflexivity|].
  cbn [flat_map]. rewrite map_app. f_equal; [|exact IH].
  rewrite map_map. cbn. clear. induction cv as [|f cv IH]; [reflexivity|].
  cbn. f_equal. exact IH.
Qed.

Lemma local_fit_parameters (X : list feat) (y : list Z)
    (scorer : Search.sk_scorer) (elapsed : nat -> Q)
    (idx : nat) (w : Search.work_item) (idx' : nat) (r : fit_result) :
  Search.local_fit X y scorer elapsed (idx, w) = Ok (idx', r) ->
  idx' = idx /\ Search.parameters r = fst (fst w).
Proof.
  destruct w as [[p train] test]. unfold Search.local_fit, Search.fit_and_score.
  destruct (np_take X train); cbn; [|discriminate].
  destruct (np_take y train); cbn; [|discriminate].
  destruct (np_take X test); cbn; [|discriminate].
  destruct (np_take y test); cbn; [|discriminate].
  intros H. injection H as <- <-. split; reflexivity.
Qed.

Lemma block_loop_parameters (iid : bool) (block : list fit_result)
    (st : Search.block_state) (q : param) :
  block <> [] ->
  (forall r, r ∈ block -> Search.parameters r = q) ->
  Search.blk_parameters (Search.block_loop iid block st) = Some q.
Proof.
  revert st. induction block as [|r block IH]; intros st Hne Hall; [done|].
  cbn [Search.block_loop].
  destruct block as [|r' block].
  - cbn. f_equal. apply Hall. left.
  - apply IH; [done|]. intros r0 Hr0. apply Hall. right. exact Hr0.
Qed.

Lemma block_loop_all_scores (iid : bool) (block : list fit_result)
    (st : Search.block_state) :
  Search.blk_all_scores (Search.block_loop iid block st)
  = Search.blk_all_scores st ++ map Search.test_score block.
Proof.
  revert st. induction block as [|r block IH]; intros st; cbn.
  - rewrite app_nil_r. reflexivity.
  - rewrite IH. cbn. rewrite <- app_assoc. reflexivity.
Qed.

Lemma block_loop_n_test (iid : bool) (block : list fit_result)
    (st : Search.block_state) :
  Search.blk_n_test_samples (Search.block_loop iid block st)
  = if iid
    then (Search.blk_n_test_samples st
          + sum_list (map Search.n_test_samples block))%nat
    else Search.blk_n_test_samples st.
Proof.
  revert st. induction block as [|r block IH]; intros st;
    cbn [Search.block_loop map sum_list_with id].
  - destruct iid; lia.
  - rewrite IH. cbn [Search.blk_n_test_samples]. destruct iid; lia.
Qed.

(** The grouping loop either returns one grid score per block, with the
    block's setting, or it is the [iid] loop stopped by a block without
    test samples. *)
Lemma grid_loop_parameters (iid : bool) (n : nat) (out : list fit_result)
    (qs : list param) (a : nat) (pv : option param)
    (acc : list cv_score_tuple) :
  (0 < n)%nat ->
  map Search.parameters (drop (a * n) out)
  = flat_map (fun p => replicate n p) qs ->
  (exists gs,
     Search.grid_loop iid n out
       (map (fun k => (k * n)%nat) (seq a (length qs))) pv acc
     = Ok (acc ++ gs)
     /\ map Search.cvs_parameters gs = qs)
  \/ (iid = true
      /\ Search.grid_loop iid n out
           (map (fun k => (k * n)%nat) (seq a (length qs))) pv acc
         = Raise ZeroDivisionError
      /\ exists k, (a <= k < a + length qs)%nat
                   /\ sum_list (map Search.n_test_samples
                                  (take n (drop (k * n) out))) = 0%nat).
Proof.
  intros Hn. revert a pv acc.
  induction qs as [|q qs IH]; intros a pv acc Hout.
  - left. exists []. split; [cbn; rewrite app_nil_r|]; reflexivity.
  - cbn [length seq map Search.grid_loop]. cbn [flat_map] in Hout.
    assert (Hblock : map Search.parameters (take n (drop (a * n) out))
                     = replicate n q).
    { rewrite <- firstn_map, Hout.
      rewrite take_app_length' by (symmetry; apply length_replicate). reflexivity. }
    assert (Hq : Search.blk_parameters
                   (Search.block_loop iid (take n (drop (a * n) out))
                      (Search.mkBlock 0 0%Q [] pv)) = Some q).
    { apply block_loop_parameters.
      - intros Hnil. rewrite Hnil in Hblock. destruct n; [lia|discriminate].
      - intros r Hr.
        assert (Hin : Search.parameters r ∈ replicate n q).
        { rewrite <- Hblock. apply list_elem_of_In, in_map, list_elem_of_In, Hr. }
        apply elem_of_replicate in Hin. tauto. }
    assert (Hnext : map Search.parameters (drop (S a * n) out)
                    = flat_map (fun p => replicate n p) qs).
    { replace (S a * n)%nat with (a * n + n)%nat by lia.
      rewrite <- drop_drop, <- skipn_map, Hout.
      rewrite drop_app_length' by (symmetry; apply length_replicate). reflexivity. }
    rewrite block_loop_n_test, Hq. cbn [Search.blk_n_test_samples].
    destruct iid.
    + destruct (Nat.eqb_spec
                  (0 + sum_list (map Search.n_test_samples
                                   (take n (drop (a * n) out)))) 0)
        as [Hz|Hz].
      * right. split; [reflexivity|]. split; [reflexivity|].
        exists a. split; [lia|exact Hz].
      * cbn [of_option mbind py_bind].
        edestruct (IH (S a) (Some q)) as [[gs [Hgs Hps]]|(_ & Hgs & k & Hk & Hz')];
          [exact Hnext| |].
        -- left. eexists (_ :: gs). split.
           ++ rewrite Hgs, <- app_assoc. reflexivity.
           ++ cbn. rewrite Hps. reflexivity.
        -- right. split; [reflexivity|]. split; [exact Hgs|].
           exists k. split; [lia|exact Hz'].
    + cbn [of_option mbind py_bind].
      edestruct (IH (S a) (Some q)) as [[gs [Hgs Hps]]|(Hf & _)];
        [exact Hnext| |discriminate].
      left. eexists (_ :: gs). split.
      * rewrite Hgs, <- app_assoc. reflexivity.
      * cbn. rewrite Hps. reflexivity.
Qed.

Lemma grid_starts_exact (m n : nat) :
  (0 < n)%nat ->
  Search.grid_starts (m * n) n = Ok (map (fun k => (k * n)%nat) (seq 0 m)).
Proof.
  intros Hn. unfold Search.grid_starts.
  destruct (Nat.eqb_spec n 0) as [->|_]; [lia|].
  replace ((m * n + n - 1) / n)%nat with m; [reflexivity|].
  replace (m * n + n - 1)%nat with (m * n + (n - 1))%nat by lia.
  rewrite Nat.div_add_l by lia. rewrite Nat.div_small by lia. lia.
Qed.

Lemma aggregate_parameters (iid : bool) (n : nat) (out : list fit_result)
    (ps : list param) :
  (0 < n)%nat ->
  map Search.parameters out = flat_map (fun p => replicate n p) ps ->
  (exists gs, Search.aggregate iid n out = Ok gs
              /\ map Search.cvs_parameters gs = ps)
  \/ (iid = true
      /\ Search.aggregate iid n out = Raise ZeroDivisionError
      /\ exists k, (k < length ps)%nat
                   /\ sum_list (map Search.n_test_samples
                                  (take n (drop (k * n) out))) = 0%nat).
Proof.
  intros Hn Hout. unfold Search.aggregate.
  assert (Hlen : length out = (length ps * n)%nat).
  { rewrite <- (length_map Search.parameters), Hout. clear.
    induction ps as [|p ps IH]; [reflexivity|].
    cbn. rewrite length_app, length_replicate, IH. reflexivity. }
  rewrite Hlen, grid_starts_exact by exact Hn. cbn [mbind py_bind].
  destruct (grid_loop_parameters iid n out ps 0 None [] Hn Hout)
    as [[gs [Hgs Hps]]|(Hi & Hgs & k & Hk & Hz)].
  - left. exists gs. split; [exact Hgs|exact Hps].
  - right. split; [exact Hi|]. split; [exact Hgs|].
    exists k. split; [lia|exact Hz].
Qed.

Lemma block_sizes {A B : Type} (ts : list B) (ps : list A) (k : nat) :
  (k < length ps)%nat ->
  take (length ts) (drop (k * length ts) (flat_map (fun _ => ts) ps)) = ts.
Proof.
  revert k. induction ps as [|p ps IH]; intros k Hk; [cbn in Hk; lia|].
  cbn [flat_map]. destruct k as [|k].
  - cbn [Nat.mul drop]. apply take_app_length.
  - replace (S k * length ts)%nat with (length ts + k * length ts)%nat by lia.
    rewrite drop_app_add. apply IH. cbn in Hk. lia.
Qed.

Lemma sum_sizes_zero (cv : list fold) :
  sum_list (map (fun f : fold => length (snd f)) cv) = 0%nat ->
  forall f, f ∈ cv -> snd f = [].
Proof.
  induction cv as [|g cv IH]; intros Hs f Hf; [inversion Hf|].
  cbn [map sum_list_with id] in Hs.
  apply elem_of_cons in Hf as [->|Hf].
  - apply length_zero_iff_nil. lia.
  - apply IH; [lia|exact Hf].
Qed.

Lemma map_lookup {A B : Type} (f : A -> B) (l : list A) (i : nat) :
  map f l !! i = f <$> l !! i.
Proof. change (map f l) with (f <$> l). apply list_lookup_fmap. Qed.

Lemma local_fit_pairs (X : list feat) (y : list Z)
    (scorer : Search.sk_scorer) (elapsed : nat -> Q)
    (grid : list Search.work_item) (pairs : list (nat * fit_result)) :
  py_mapM (Search.local_fit X y scorer elapsed) (Search.index_grid grid)
  = Ok pairs ->
  pairs = Search.index_grid (map snd pairs)
  /\ map Search.parameters (map snd pairs)
     = map (fun w : Search.work_item => fst (fst w)) grid.
Proof.
  intros Hm.
  assert (Hlen : length pairs = length grid).
  { rewrite (py_mapM_length _ _ _ Hm). unfold Search.index_grid.
    rewrite length_combine, length_seq. lia. }
  assert (Hat : forall i w, grid !! i = Some w ->
            exists r, pairs !! i = Some (i, r)
                      /\ Search.parameters r = fst (fst w)).
  { intros i w Hw.
    destruct (py_mapM_lookup _ _ _ i (i, w) Hm) as [[i' r] [Hb Hf]].
    { rewrite index_grid_lookup. unfold Search.work_item in *.
      rewrite Hw. reflexivity. }
    apply local_fit_parameters in Hf as [-> Hp].
    exists r. split; assumption. }
  split.
  - apply list_eq. intros i. rewrite index_grid_lookup, map_lookup.
    destruct (grid !! i) as [w|] eqn:Hw.
    + destruct (Hat i w Hw) as [r [Hr _]]. rewrite Hr. reflexivity.
    + apply lookup_ge_None in Hw.
      rewrite (proj2 (lookup_ge_None pairs i)) by lia. reflexivity.
  - apply list_eq. intros i. rewrite !map_lookup.
    destruct (grid !! i) as [w|] eqn:Hw.
    + destruct (Hat i w Hw) as [r [Hr Hp]]. rewrite Hr. cbn. rewrite Hp.
      reflexivity.
    + apply lookup_ge_None in Hw.
      rewrite (proj2 (lookup_ge_None pairs i)) by lia. reflexivity.
Qed.

Lemma local_fit_n_test_samples (X : list feat) (y : list Z)
    (scorer : Search.sk_scorer) (elapsed : nat -> Q)
    (idx : nat) (w : Search.work_item) (idx' : nat) (r : fit_result) :
  Search.local_fit X y scorer elapsed (idx, w) = Ok (idx', r) ->
  Search.n_test_samples r = length (snd w).
Proof.
  destruct w as [[p train] test]. unfold Search.local_fit, Search.fit_and_score.
  destruct (np_take X train); cbn; [|discriminate].
  destruct (np_take y train); cbn; [|discriminate].
  destruct (np_take X test) as [X_test|] eqn:Ht; cbn; [|discriminate].
  destruct (np_take y test); cbn; [|discriminate].
  intros H. injection H as <- <-. cbn.
  exact (py_mapM_length _ _ _ Ht).
Qed.

Lemma local_fit_sizes (X : list feat) (y : list Z)
    (scorer : Search.sk_scorer) (elapsed : nat -> Q)
    (grid : list Search.work_item) (pairs : list (nat * fit_result)) :
  py_mapM (Search.local_fit X y scorer elapsed) (Search.index_grid grid)
  = Ok pairs ->
  map Search.n_test_samples (map snd pairs)
  = map (fun w : Search.work_item => length (snd w)) grid.
Proof.
  intros Hm.
  assert (Hlen : length pairs = length grid).
  { rewrite (py_mapM_length _ _ _ Hm). unfold Search.index_grid.
    rewrite length_combine, length_seq. lia. }
  apply list_eq. intros i. rewrite !map_lookup.
  destruct (grid !! i) as [w|] eqn:Hw.
  - destruct (py_mapM_lookup _ _ _ i (i, w) Hm) as [[i' r] [Hb Hf]].
    { rewrite index_grid_lookup. unfold Search.work_item in *.
      rewrite Hw. reflexivity. }
    rewrite Hb. cbn. f_equal.
    exact (local_fit_n_test_samples _ _ _ _ _ _ _ _ Hf).
  - apply lookup_ge_None in Hw.
    rewrite (proj2 (lookup_ge_None pairs i)) by lia. reflexivity.
Qed.

Lemma make_param_grid_sizes (ps : list param) (cv : list fold) :
  map (fun w : Search.work_item => length (snd w)) (Search.make_param_grid ps cv)
  = flat_map (fun _ => map (fun f : fold => length (snd f)) cv) ps.
Proof.
  unfold Search.make_param_grid.
  induction ps as [|p ps IH]; [reflexivity|].
  cbn [flat_map]. rewrite map_app. f_equal; [|exact IH].
  rewrite map_map. reflexivity.
Qed.

(** What the grouping makes of the results of the work items: whenever
    it returns, the settings of the grid scores are the parameter
    iterable; and it returns unless [iid] is set and no fold has a test
    sample. *)
Lemma fitted_results_aggregate (parameter_iterable : list param)
    (cv : list fold) (X : list feat) (y : list Z)
    (scorer : Search.sk_scorer) (elapsed : nat -> Q) (iid : bool)
    (pairs : list (nat * fit_result)) :
  cv <> [] ->
  py_mapM (Search.local_fit X y scorer elapsed)
    (Search.index_grid (Search.make_param_grid parameter_iterable cv))
  = Ok pairs ->
  (forall gs, Search.aggregate iid (length cv) (map snd pairs) = Ok gs ->
     map Search.cvs_parameters gs = parameter_iterable)
  /\ ((iid = true -> exists f, f ∈ cv /\ snd f <> []) ->
      exists gs, Search.aggregate iid (length cv) (map snd pairs) = Ok gs).
Proof.
  intros Hcv Hm.
  destruct (local_fit_pairs _ _ _ _ _ _ Hm) as [_ Hpar].
  destruct (aggregate_parameters iid (length cv) (map snd pairs)
              parameter_iterable)
    as [[gs [Hgs Hps]]|(Hi & Hgs & k & Hk & Hz)].
  { destruct cv; [done|cbn; lia]. }
  { rewrite Hpar. apply make_param_grid_parameters. }
  - split; [|intros _; exists gs; exact Hgs].
    intros gs' Hgs'. congruence.
  - split; [intros gs' Hgs'; congruence|].
    intros Htest. destruct (Htest Hi) as (f & Hf & Hne). exfalso.
    apply Hne. apply (sum_sizes_zero cv); [|exact Hf].
    rewrite <- Hz, <- firstn_map, <- skipn_map,
      (local_fit_sizes _ _ _ _ _ _ Hm), make_param_grid_sizes.
    rewrite <- (length_map (fun f : fold => length (snd f)) cv).
    rewrite block_sizes by exact Hk. reflexivity.
Qed.

(** C9.  In the list of work items every aligned block of [n_folds]
    consecutive items carries one parameter setting, the setting of its
    place in the parameter iterable; so, whatever the order the results
    are delivered in, the [parameters] the aggregation loop is left with
    after each block is that block's setting: whenever the loop
    returns, the settings of [grid_scores] are the parameter iterable in
    generation order, and it returns unless [iid] is set and no fold has
    a test sample. *)
Theorem param_grid_blocks
    (parameter_iterable : list param) (cv : list fold)
    (X : list feat) (y : list Z) (scorer : Search.sk_scorer)
    (elapsed : nat -> Q) (iid : bool)
    (pairs collected : list (nat * fit_result)) :
  cv <> [] ->
  py_mapM (Search.local_fit X y scorer elapsed)
    (Search.index_grid (Search.make_param_grid parameter_iterable cv))
  = Ok pairs ->
  collected ≡ₚ pairs ->
  let param_grid := Search.make_param_grid parameter_iterable cv in
  let n_folds := length cv in
  (forall b k p, parameter_iterable !! b = Some p -> (k < n_folds)%nat ->
     exists w, param_grid !! (b * n_folds + k)%nat = Some w
               /\ fst (fst w) = p)
  /\ exists out,
       Search.reassemble (length param_grid) collected = Ok out
       /\ (forall gs, Search.aggregate iid n_folds out = Ok gs ->
             map Search.cvs_parameters gs = parameter_iterable)
       /\ ((iid = true -> exists f, f ∈ cv /\ snd f <> []) ->
           exists gs, Search.aggregate iid n_folds out = Ok gs).
Proof.
  intros Hcv Hm Hperm param_grid n_folds. split.
  - intros b k p Hb Hk.
    destruct (lookup_lt_is_Some_2 cv k Hk) as [f Hf].
    exists (p, fst f, snd f). split; [|reflexivity].
    apply make_param_grid_lookup; assumption.
  - destruct (local_fit_pairs _ _ _ _ _ _ Hm) as [Hidx Hpar].
    exists (map snd pairs).
    split; [|exact (fitted_results_aggregate parameter_iterable cv X y
                      scorer elapsed iid pairs Hcv Hm)].
    replace (length param_grid) with (length (map snd pairs)).
    + apply reassemble_permuted. rewrite <- Hidx. exact Hperm.
    + rewrite <- (length_map Search.parameters), Hpar, length_map.
      reflexivity.
Qed.

(** [sorted_desc] reorders the tuples and loses none. *)
Lemma sorted_desc_perm (l : list cv_score_tuple) : Search.sorted_desc l ≡ₚ l.
Proof.
  assert (Hins : forall (x : cv_score_tuple) k,
            Search.insert_desc x k ≡ₚ x :: k).
  { intros x k. induction k as [|g k IH]; [reflexivity|].
    cbn [Search.insert_desc].
    destruct (Qlt_bool _ _); [|reflexivity]. rewrite IH. apply perm_swap. }
  induction l as [|x l IH]; [reflexivity|].
  change (Search.sorted_desc (x :: l))
    with (Search.insert_desc x (Search.sorted_desc l)).
  rewrite Hins, IH. reflexivity.
Qed.



End SearchFacts.

(** ** Index-array assignment *)

Section NpPut.

Context {A : Type}.
Implicit Types (a : list A) (idx : list nat) (vals : list A).

Lemma np_put_total a idx vals :
  (forall i, i ∈ idx -> (i < length a)%nat) ->
  length idx = length vals ->
  exists a', np_put a idx vals = Ok a' /\ length a' = length a.
Proof.
  revert a vals. induction idx as [|i idx IH]; intros a vals Hr Hl.
  - destruct vals; [|discriminate]. exists a. split; reflexivity.
  - destruct vals as [|v vals]; [discriminate|]. cbn.
    destruct (decide (i < length a)%nat) as [Hi|Hi].
    + destruct (IH (<[i:=v]> a) vals) as [a' [Ha' Hlen]].
      * intros k Hk. rewrite length_insert. apply Hr. right. exact Hk.
      * cbn in Hl. lia.
      * exists a'. split; [exact Ha'|]. rewrite Hlen. apply length_insert.
    + exfalso. apply Hi, Hr. left.
Qed.

Lemma np_put_other a idx vals a' (s : nat) :
  np_put a idx vals = Ok a' -> s ∉ idx -> a' !! s = a !! s.
Proof.
  revert a vals. induction idx as [|i idx IH]; intros a vals Hp Hs.
  - destruct vals; cbn in Hp; [|discriminate]. injection Hp as <-. reflexivity.
  - destruct vals as [|v vals]; [discriminate|]. cbn in Hp.
    destruct (decide (i < length a)%nat); [|discriminate].
    apply not_elem_of_cons in Hs as [Hne Hs].
    rewrite (IH _ _ Hp Hs). apply list_lookup_insert_ne. congruence.
Qed.

Lemma np_put_written a idx vals a' (s : nat) (vs : A) :
  np_put a idx vals = Ok a' ->
  (forall k v, idx !! k = Some s -> vals !! k = Some v -> v = vs) ->
  s ∈ idx ->
  a' !! s = Some vs.
Proof.
  revert a vals. induction idx as [|i idx IH]; intros a vals Hp Hv Hs.
  - inversion Hs.
  - destruct vals as [|v vals]; [discriminate|]. cbn in Hp.
    destruct (decide (i < length a)%nat) as [Hi|]; [|discriminate].
    destruct (decide (s ∈ idx)) as [Hin|Hout].
    + apply (IH _ _ Hp); [|exact Hin].
      intros k v' Hk Hv'. apply (Hv (S k) v'); assumption.
    + apply elem_of_cons in Hs as [->|Hs]; [|contradiction].
      rewrite (np_put_other _ _ _ _ _ Hp Hout).
      rewrite (Hv 0%nat v eq_refl eq_refl).
      apply list_lookup_insert_eq. exact Hi.
Qed.

End NpPut.

(** ** [cross_val_probs] *)

Section CrossValFacts.

Context {feat param model : Type} {E : Estimator feat param model}.

Lemma np_take_lookup {A : Type} (a : list A) (idx : list nat) (r : list A)
    (k i : nat) :
  np_take a idx = Ok r -> idx !! k = Some i -> r !! k = a !! i.
Proof.
  intros Hr Hk. destruct (py_mapM_lookup _ _ _ k i Hr Hk) as [b [Hb Ho]].
  rewrite Hb. destruct (a !! i); cbn in Ho; congruence.
Qed.

Lemma fold_loop_spec (parameters : param) (X : list feat) (y : list Z)
    (cv : list fold) (pv : list Q) (n : nat) :
  length X = n -> length y = n -> length pv = n ->
  folds_in_range n cv ->
  exists out,
    CrossVal.fold_loop parameters X y cv pv = Ok out
    /\ length out = n
    /\ (forall s, (forall f, f ∈ cv -> s ∉ snd f) -> out !! s = pv !! s)
    /\ (forall s pre f post,
          cv = pre ++ f :: post -> s ∈ snd f ->
          (forall g, g ∈ post -> s ∉ snd g) ->
          exists X_train y_train x,
            np_take X (fst f) = Ok X_train
            /\ np_take y (fst f) = Ok y_train
            /\ X !! s = Some x
            /\ out !! s
               = Some (predict_proba1 (est_fit parameters X_train y_train) x)).
Proof.
  intros HX Hy. revert pv.
  induction cv as [|[train test] cv IH]; intros pv Hpv Hr.
  - exists pv. split; [reflexivity|]. split; [exact Hpv|]. split; [reflexivity|].
    intros s pre f post Hcv. destruct pre; discriminate.
  - destruct (Hr (train, test)) as [Htr Hte]; [left|]. cbn in Htr, Hte.
    destruct (np_take_total X train) as [X_train HXtr];
      [intros i Hi; rewrite HX; auto|].
    destruct (np_take_total y train) as [y_train Hytr];
      [intros i Hi; rewrite Hy; auto|].
    destruct (np_take_total X test) as [X_test HXte];
      [intros i Hi; rewrite HX; auto|].
    set (m := est_fit parameters X_train y_train).
    destruct (np_put_total pv test (map (predict_proba1 m) X_test))
      as [pv' [Hput Hlen']].
    { intros i Hi. rewrite Hpv. auto. }
    { rewrite length_map. symmetry. apply (py_mapM_length _ _ _ HXte). }
    destruct (IH pv') as [out (Hout & Hlen & Hother & Hin)].
    { rewrite Hlen'. exact Hpv. }
    { intros f Hf. apply Hr. right. exact Hf. }
    exists out. split.
    { cbn [CrossVal.fold_loop]. rewrite HXtr. cbn [mbind py_bind].
      rewrite Hytr. cbn [mbind py_bind]. rewrite HXte. cbn [mbind py_bind].
      fold m. rewrite Hput. cbn [mbind py_bind]. exact Hout. }
    split; [exact Hlen|]. split.
    + intros s Hs. rewrite Hother.
      * apply (np_put_other _ _ _ _ _ Hput). apply (Hs (train, test)). left.
      * intros f Hf. apply Hs. right. exact Hf.
    + intros s pre f post Hcv Hsf Hpost.
      destruct pre as [|g pre]; cbn in Hcv.
      * injection Hcv as <- <-. cbn in Hsf. cbn [fst].
        destruct (lookup_lt_is_Some_2 X s) as [x Hx];
          [rewrite HX; auto|].
        exists X_train, y_train, x.
        split; [exact HXtr|]. split; [exact Hytr|]. split; [exact Hx|].
        rewrite (Hother s Hpost).
        apply (np_put_written _ _ _ _ _ _ Hput); [|exact Hsf].
        intros k v Hk Hv. rewrite map_lookup in Hv.
        rewrite (np_take_lookup _ _ _ _ _ HXte Hk), Hx in Hv.
        cbn in Hv. injection Hv as <-. reflexivity.
      * injection Hcv as <- ->. eapply Hin; eauto.
Qed.

(** C10.  The output starts as all zeros, so an index that no fold has in
    its test set keeps the value 0: the call returns normally and the
    probability there is exactly 0. *)
Theorem cross_val_probs_uncovered_zero (parameters : param)
    (X : list feat) (y : list Z) (cv : list fold) (s : nat) :
  length X = length y ->
  folds_in_range (length y) cv ->
  (s < length y)%nat ->
  (forall f, f ∈ cv -> s ∉ snd f) ->
  exists out,
    CrossVal.cross_val_probs parameters X y cv = Ok out
    /\ out !! s = Some 0%Q.
Proof.
  intros HX Hr Hs Hun. unfold CrossVal.cross_val_probs.
  destruct (fold_loop_spec parameters X y cv (replicate (length y) 0%Q)
              (length y) HX eq_refl (length_replicate _ _) Hr)
    as [out (Hout & _ & Hother & _)].
  exists out. split; [exact Hout|].
  rewrite (Hother s Hun). apply lookup_replicate_2. exact Hs.
Qed.

Lemma tests_split (pre post : list fold) (f : fold) :
  concat (map snd (pre ++ f :: post))
  = concat (map snd pre) ++ snd f ++ concat (map snd post).
Proof. rewrite map_app, concat_app. reflexivity. Qed.

Lemma elem_of_tests (cv : list fold) (s : nat) :
  s ∈ concat (map snd cv) <-> exists f, f ∈ cv /\ s ∈ snd f.
Proof.
  rewrite list_elem_of_In, in_concat. split.
  - intros [t [Ht Hs]]. apply in_map_iff in Ht as [f [<- Hf]].
    exists f. split; apply list_elem_of_In; assumption.
  - intros [f [Hf Hs]]. exists (snd f).
    split; [apply in_map|]; apply list_elem_of_In; assumption.
Qed.

(** C8.  When the test index sets of the folds partition the sample
    indices (and every fold is a fold of the data set: its indices
    address samples and its train and test sets are disjoint), the call
    returns one probability per label, and the probability of sample [s]
    is the prediction for [s] of the model fitted on the train rows of
    the one fold that tests [s], rows among which [s] is not. *)
Theorem cross_val_probs_out_of_fold (parameters : param)
    (X : list feat) (y : list Z) (cv : list fold) :
  length X = length y ->
  folds_in_range (length y) cv ->
  test_partition (length y) cv ->
  folds_disjoint cv ->
  exists out,
    CrossVal.cross_val_probs parameters X y cv = Ok out
    /\ length out = length y
    /\ forall s, (s < length y)%nat ->
         exists f X_train y_train x,
           f ∈ cv /\ s ∈ snd f /\ (s ∉ fst f)
           /\ (forall g, g ∈ cv -> s ∈ snd g -> g = f)
           /\ np_take X (fst f) = Ok X_train
           /\ np_take y (fst f) = Ok y_train
           /\ X !! s = Some x
           /\ out !! s
              = Some (predict_proba1 (est_fit parameters X_train y_train) x).
Proof.
  intros HX Hr Hpart Hdisj. unfold CrossVal.cross_val_probs.
  destruct (fold_loop_spec parameters X y cv (replicate (length y) 0%Q)
              (length y) HX eq_refl (length_replicate _ _) Hr)
    as [out (Hout & Hlen & _ & Hin)].
  exists out. split; [exact Hout|]. split; [exact Hlen|].
  intros s Hs.
  assert (Hnd : NoDup (concat (map snd cv))).
  { unfold test_partition in Hpart. rewrite Hpart. apply NoDup_seq. }
  assert (Hcov : s ∈ concat (map snd cv)).
  { unfold test_partition in Hpart. rewrite Hpart.
    apply elem_of_seq. lia. }
  apply elem_of_tests in Hcov as [f [Hf Hsf]].
  apply list_elem_of_split in Hf as [pre [post ->]].
  rewrite tests_split in Hnd.
  apply NoDup_app in Hnd as (_ & Hpre & Hnd).
  apply NoDup_app in Hnd as (_ & Hpost & _).
  assert (Hlater : forall g, g ∈ post -> s ∉ snd g).
  { intros g Hg Hsg. apply (Hpost s Hsf). apply elem_of_tests. eauto. }
  destruct (Hin s pre f post eq_refl Hsf Hlater)
    as (X_train & y_train & x & HXtr & Hytr & Hx & Ho).
  exists f, X_train, y_train, x.
  split; [apply elem_of_app; right; left|].
  split; [exact Hsf|]. split.
  { intros Htr. apply (Hdisj f) in Htr; [|apply elem_of_app; right; left].
    exact (Htr Hsf). }
  split; [|auto].
  intros g Hg Hsg. apply elem_of_app in Hg as [Hg|Hg].
  - exfalso. apply (Hpre s).
    + apply elem_of_tests. eauto.
    + apply elem_of_app. left. exact Hsf.
  - apply elem_of_cons in Hg as [->|Hg]; [reflexivity|].
    exfalso. exact (Hlater g Hg Hsg).
Qed.

End CrossValFacts.

(** ** The two-bias scorer *)

Section TwoBiasFacts.

Import TwoBias Cuts.

Context {AS : ArgSort}.

Lemma count_pos_cons (l : Z) (y : list Z) :
  count_pos (l :: y) = (if l =? 1 then 1 else 0) + count_pos y.
Proof.
  unfold count_pos. cbn [List.filter]. destruct (l =? 1); cbn [length]; lia.
Qed.

Lemma count_neg_cons (l : Z) (y : list Z) :
  count_neg (l :: y) = (if l =? 1 then 0 else 1) + count_neg y.
Proof.
  unfold count_neg. rewrite count_pos_cons. cbn [length].
  destruct (l =? 1); lia.
Qed.

Lemma count_pos_nil : count_pos [] = 0.
Proof. reflexivity. Qed.

Lemma count_neg_nil : count_neg [] = 0.
Proof. reflexivity. Qed.

Lemma inner_loop_no_pair (n i : Z) (vi : Q) (j : Z) (rows : list row)
    (rpos rneg rtp rtn : Z) (st : scan) :
  (forall m, (m < length rows)%nat ->
     pair_test (rpos - count_pos (labels (take (S m) rows)))
       (rneg - count_neg (labels (take (S m) rows)))
       (rtp - count_pos (labels (take (S m) rows))) rtn = false) ->
  inner_loop n i vi j rows rpos rneg rtp rtn st = st.
Proof.
  revert j rpos rneg rtp.
  induction rows as [|[vj lj] rows IH]; intros j rpos rneg rtp H;
    [reflexivity|].
  pose proof (H 0%nat ltac:(cbn; lia)) as H0.
  change (take 1 ((vj, lj) :: rows)) with [(vj, lj)] in H0.
  cbn [labels map snd] in H0.
  rewrite count_pos_cons, count_neg_cons, count_pos_nil, count_neg_nil in H0.
  assert (Hrest : forall m, (m < length rows)%nat ->
     pair_test
       ((if lj =? 1 then rpos - 1 else rpos) - count_pos (labels (take (S m) rows)))
       ((if lj =? 1 then rneg else rneg - 1) - count_neg (labels (take (S m) rows)))
       ((if lj =? 1 then rtp - 1 else rtp) - count_pos (labels (take (S m) rows)))
       rtn = false).
  { intros m Hm. pose proof (H (S m) ltac:(cbn; lia)) as HS.
    change (take (S (S m)) ((vj, lj) :: rows))
      with ((vj, lj) :: take (S m) rows) in HS.
    cbn [labels map snd] in HS. fold (labels (take (S m) rows)) in HS.
    rewrite count_pos_cons, count_neg_cons in HS.
    rewrite <- HS. destruct (lj =? 1); f_equal; lia. }
  cbn [inner_loop]. unfold pair_test in H0.
  destruct (lj =? 1).
  - replace (rpos - (1 + 0)) with (rpos - 1) in H0 by lia.
    replace (rneg - (0 + 0)) with rneg in H0 by lia.
    replace (rtp - (1 + 0)) with (rtp - 1) in H0 by lia.
    destruct (rpos - 1 =? 0); [reflexivity|].
    destruct (rneg =? 0); [reflexivity|]. cbn [negb andb orb] in *.
    rewrite H0. cbn [andb]. apply IH. exact Hrest.
  - replace (rpos - (0 + 0)) with rpos in H0 by lia.
    replace (rneg - (1 + 0)) with (rneg - 1) in H0 by lia.
    replace (rtp - (0 + 0)) with rtp in H0 by lia.
    destruct (rpos =? 0); [reflexivity|].
    destruct (rneg - 1 =? 0); [reflexivity|]. cbn [negb andb orb] in *.
    rewrite H0. cbn [andb]. apply IH. exact Hrest.
Qed.

Lemma outer_loop_infeasible (n pos neg i : Z) (rows : list row)
    (tp tn : Z) (st : scan) :
  (forall m, (m < length rows)%nat ->
     single_test (tp - count_pos (labels (take (S m) rows))) pos
       (tn + count_neg (labels (take (S m) rows))) neg = false
     /\ forall m2, (m < m2 < length rows)%nat ->
          pair_test
            (pos - count_pos (labels (take (m2 - m) (drop (S m) rows))))
            (neg - count_neg (labels (take (m2 - m) (drop (S m) rows))))
            (tp - count_pos (labels (take (S m) rows))
             - count_pos (labels (take (m2 - m) (drop (S m) rows))))
            (tn + count_neg (labels (take (S m) rows))) = false) ->
  optbias (outer_loop n pos neg i rows tp tn st) = optbias st
  /\ minloss (outer_loop n pos neg i rows tp tn st) = minloss st.
Proof.
  revert i tp tn st.
  induction rows as [|[vj lj] rows IH]; intros i tp tn st H;
    [split; reflexivity|].
  cbn [outer_loop].
  set (tp' := if lj =? 1 then tp - 1 else tp).
  set (tn' := if lj =? 1 then tn else tn + 1).
  assert (Etp : forall c, tp - count_pos (lj :: c) = tp' - count_pos c).
  { intros c. rewrite count_pos_cons. subst tp'. destruct (lj =? 1); lia. }
  assert (Etn : forall c, tn + count_neg (lj :: c) = tn' + count_neg c).
  { intros c. rewrite count_neg_cons. subst tn'. destruct (lj =? 1); lia. }
  destruct (H 0%nat ltac:(cbn; lia)) as [H0 Hpairs].
  change (take 1 ((vj, lj) :: rows)) with [(vj, lj)] in H0, Hpairs.
  cbn [labels map snd] in H0, Hpairs.
  rewrite Etp, Etn, count_pos_nil, count_neg_nil, Z.sub_0_r, Z.add_0_r in H0.
  assert (Hinner : forall st0,
            inner_loop n i vj (i + 1) rows pos neg tp' tn' st0 = st0).
  { intros st0. apply inner_loop_no_pair. intros m Hm.
    pose proof (Hpairs (S m) ltac:(cbn; lia)) as HS.
    change (take (S m - 0) (drop 1 ((vj, lj) :: rows)))
      with (take (S m) rows) in HS.
    rewrite Etp, Etn, count_pos_nil, count_neg_nil, Z.sub_0_r, Z.add_0_r in HS.
    exact HS. }
  assert (Hrest : forall m, (m < length rows)%nat ->
     single_test (tp' - count_pos (labels (take (S m) rows))) pos
       (tn' + count_neg (labels (take (S m) rows))) neg = false
     /\ forall m2, (m < m2 < length rows)%nat ->
          pair_test
            (pos - count_pos (labels (take (m2 - m) (drop (S m) rows))))
            (neg - count_neg (labels (take (m2 - m) (drop (S m) rows))))
            (tp' - count_pos (labels (take (S m) rows))
             - count_pos (labels (take (m2 - m) (drop (S m) rows))))
            (tn' + count_neg (labels (take (S m) rows))) = false).
  { intros m Hm. destruct (H (S m) ltac:(cbn; lia)) as [HS HSp].
    change (take (S (S m)) ((vj, lj) :: rows))
      with ((vj, lj) :: take (S m) rows) in HS, HSp.
    cbn [labels map snd] in HS, HSp.
    fold (labels (take (S m) rows)) in HS, HSp.
    rewrite Etp, Etn in HS. split; [exact HS|].
    intros m2 Hm2. pose proof (HSp (S m2) ltac:(cbn; lia)) as HS2.
    change (take (S m2 - S m) (drop (S (S m)) ((vj, lj) :: rows)))
      with (take (m2 - m) (drop (S m) rows)) in HS2.
    rewrite Etp, Etn in HS2. exact HS2. }
  unfold single_cut_test. unfold single_test in H0.
  destruct (ge95 (np_div tp' pos)); cbn [andb] in H0; [rewrite H0|];
    cbv beta iota zeta; rewrite Hinner;
    match goal with
    | |- optbias (outer_loop _ _ _ _ _ _ _ ?s) = _ /\ _ =>
        destruct (IH (i + 1) tp' tn' s Hrest) as [Ho Hm]
    end;
    rewrite Ho, Hm; split; reflexivity.
Qed.

Lemma existsb_false_all {A : Type} (f : A -> bool) (l : list A) :
  existsb f l = false -> forall x, In x l -> f x = false.
Proof.
  induction l as [|a l IH]; intros H x Hx; [destruct Hx|].
  cbn in H. apply orb_false_iff in H as [Ha Hl].
  destruct Hx as [<-|Hx]; [exact Ha|]. apply IH; assumption.
Qed.

Lemma feasible_false (db : list row) :
  feasible db = false ->
  forall i, (i < length db)%nat ->
    single_cut_ok db i = false
    /\ forall j, (i < j < length db)%nat -> pair_cut_ok db i j = false.
Proof.
  intros H i Hi. unfold feasible in H.
  pose proof (existsb_false_all _ _ H i) as Hi'. cbn beta in Hi'.
  apply orb_false_iff in Hi' as [Hs Hp].
  2:{ apply in_seq. lia. }
  split; [exact Hs|]. intros j Hj.
  apply (existsb_false_all _ _ Hp j). apply in_seq. lia.
Qed.

Lemma scan_rows_no_cut (db : list row) :
  (forall i, (i < length db)%nat ->
     single_cut_ok db i = false
     /\ forall j, (i < j < length db)%nat -> pair_cut_ok db i j = false) ->
  optbias (scan_rows db) = [] /\ minloss (scan_rows db) = 1%Q.
Proof.
  intros H. unfold scan_rows.
  apply (outer_loop_infeasible _ _ _ _ db _ _ (mkScan [] 1%Q false)).
  intros m Hm. destruct (H m Hm) as [Hs Hp]. split.
  - rewrite Z.add_0_l. exact Hs.
  - intros m2 Hm2. rewrite Z.add_0_l. exact (Hp m2 Hm2).
Qed.

Lemma scan_rows_infeasible (db : list row) :
  feasible db = false ->
  optbias (scan_rows db) = [] /\ minloss (scan_rows db) = 1%Q.
Proof. intros H. apply scan_rows_no_cut, feasible_false, H. Qed.

Lemma count_pos_nonneg (y : list Z) : 0 <= count_pos y.
Proof. unfold count_pos. lia. Qed.

Lemma count_neg_nonneg (y : list Z) : 0 <= count_neg y.
Proof.
  induction y as [|l y IH]; [rewrite count_neg_nil; lia|].
  rewrite count_neg_cons. destruct (l =? 1); lia.
Qed.

Lemma count_pos_app (a b : list Z) :
  count_pos (a ++ b) = count_pos a + count_pos b.
Proof.
  induction a as [|l a IH]; [reflexivity|].
  cbn [app]. rewrite !count_pos_cons, IH. lia.
Qed.

Lemma count_neg_app (a b : list Z) :
  count_neg (a ++ b) = count_neg a + count_neg b.
Proof.
  induction a as [|l a IH]; [reflexivity|].
  cbn [app]. rewrite !count_neg_cons, IH. lia.
Qed.

Lemma labels_app (a b : list row) : labels (a ++ b) = labels a ++ labels b.
Proof. apply map_app. Qed.

Lemma count_pos_take (db : list row) (k : nat) :
  0 <= count_pos (labels (take k db)) <= count_pos (labels db).
Proof.
  rewrite <- (take_drop k db) at 3. rewrite labels_app, count_pos_app.
  pose proof (count_pos_nonneg (labels (take k db))).
  pose proof (count_pos_nonneg (labels (drop k db))). lia.
Qed.

Lemma count_pos_drop (db : list row) (k : nat) :
  0 <= count_pos (labels (drop k db)) <= count_pos (labels db).
Proof.
  rewrite <- (take_drop k db) at 3. rewrite labels_app, count_pos_app.
  pose proof (count_pos_nonneg (labels (take k db))).
  pose proof (count_pos_nonneg (labels (drop k db))). lia.
Qed.

Lemma count_neg_take (db : list row) (k : nat) :
  0 <= count_neg (labels (take k db)) <= count_neg (labels db).
Proof.
  rewrite <- (take_drop k db) at 3. rewrite labels_app, count_neg_app.
  pose proof (count_neg_nonneg (labels (take k db))).
  pose proof (count_neg_nonneg (labels (drop k db))). lia.
Qed.

Lemma count_neg_drop (db : list row) (k : nat) :
  0 <= count_neg (labels (drop k db)) <= count_neg (labels db).
Proof.
  rewrite <- (take_drop k db) at 3. rewrite labels_app, count_neg_app.
  pose proof (count_neg_nonneg (labels (take k db))).
  pose proof (count_neg_nonneg (labels (drop k db))). lia.
Qed.

(** With one class only, no single cut and no pair of cuts passes the
    tests of the scorer. *)
Lemma single_class_no_cut (db : list row) :
  count_pos (labels db) = 0 \/ count_neg (labels db) = 0 ->
  optbias (scan_rows db) = [] /\ minloss (scan_rows db) = 1%Q.
Proof.
  intros Hclass. apply scan_rows_no_cut. intros i Hi. split.
  - unfold single_cut_ok, single_test, tp_at, tn_at.
    destruct Hclass as [Hp|Hn].
    + pose proof (count_pos_take db (S i)). rewrite Hp in *.
      replace (0 - count_pos (labels (take (S i) db))) with 0 by lia.
      reflexivity.
    + pose proof (count_neg_take db (S i)). rewrite Hn in *.
      replace (count_neg (labels (take (S i) db))) with 0 by lia.
      apply andb_false_r.
  - intros j Hj. unfold pair_cut_ok, pair_test, band.
    destruct Hclass as [Hp|Hn].
    + pose proof (count_pos_take (drop (S i) db) (j - i)).
      pose proof (count_pos_drop db (S i)). rewrite Hp in *.
      replace (0 - count_pos (labels (take (j - i) (drop (S i) db))))
        with 0 by lia.
      reflexivity.
    + pose proof (count_neg_take (drop (S i) db) (j - i)).
      pose proof (count_neg_drop db (S i)). rewrite Hn in *.
      replace (0 - count_neg (labels (take (j - i) (drop (S i) db))))
        with 0 by lia.
      cbn [Z.eqb negb]. rewrite andb_false_r. reflexivity.
Qed.

Lemma labels_cons (r : row) (l : list row) :
  labels (r :: l) = snd r :: labels l.
Proof. reflexivity. Qed.

Lemma count_pos_perm (l l' : list row) :
  l ≡ₚ l' -> count_pos (labels l) = count_pos (labels l').
Proof.
  intros H. induction H as [|x l l' _ IH|x x' l|l1 l2 l3 _ IH1 _ IH2].
  - reflexivity.
  - rewrite !labels_cons, !count_pos_cons, IH. reflexivity.
  - rewrite !labels_cons, !count_pos_cons. lia.
  - congruence.
Qed.

Lemma sort_rows_nil : sort_rows [] = [].
Proof. apply Permutation_nil. symmetry. apply sort_rows_perm. Qed.

(** The sort reorders the rows and loses none. *)
Lemma sort_rows_counts (l : list row) :
  length (sort_rows l) = length l
  /\ count_pos (labels (sort_rows l)) = count_pos (labels l).
Proof.
  split.
  - apply Permutation_length, sort_rows_perm.
  - apply count_pos_perm, sort_rows_perm.
Qed.

Lemma labels_combine (probs : list Q) (y : list Z) :
  length probs = length y -> labels (combine probs y) = y.
Proof.
  revert y. induction probs as [|p probs IH]; intros [|l y] H;
    try discriminate; [reflexivity|].
  cbn. f_equal. apply IH. cbn in H. lia.
Qed.

Lemma inner_loop_zero_div (n i : Z) (vi : Q) (j : Z) (rows : list row)
    (rpos rneg rtp rtn : Z) (st : scan) :
  zero_div (inner_loop n i vi j rows rpos rneg rtp rtn st) = zero_div st.
Proof.
  revert j rpos rneg rtp st.
  induction rows as [|[vj lj] rows IH]; intros j rpos rneg rtp st;
    [reflexivity|].
  cbn [inner_loop].
  destruct (_ || _); [reflexivity|].
  destruct (_ && _); rewrite IH; reflexivity.
Qed.

Lemma outer_loop_zero_div_kept (n pos neg i : Z) (rows : list row)
    (tp tn : Z) (st : scan) :
  zero_div st = true ->
  zero_div (outer_loop n pos neg i rows tp tn st) = true.
Proof.
  revert i tp tn st.
  induction rows as [|[vi li] rows IH]; intros i tp tn st H; [exact H|].
  cbn [outer_loop].
  destruct (single_cut_test _ _ _ _) as [sat zd].
  destruct sat; apply IH; cbn [zero_div].
  - rewrite H. reflexivity.
  - rewrite inner_loop_zero_div. cbn [zero_div]. rewrite H. reflexivity.
Qed.

Lemma outer_loop_divides_by_zero (n neg i : Z) (rows : list row)
    (tp tn : Z) (st : scan) :
  rows <> [] ->
  zero_div (outer_loop n 0 neg i rows tp tn st) = true.
Proof.
  destruct rows as [|[vi li] rows]; [done|]. intros _.
  cbn [outer_loop].
  assert (Hzd : forall a b, snd (single_cut_test a 0 b neg) = true).
  { intros a b. unfold single_cut_test.
    destruct (ge95 (np_div a 0)); reflexivity. }
  match goal with
  | |- context [single_cut_test ?a 0 ?b neg] =>
      pose proof (Hzd a b) as Hz;
      destruct (single_cut_test a 0 b neg) as [sat zd]
  end.
  cbn in Hz. subst zd.
  destruct sat; apply outer_loop_zero_div_kept; cbn [zero_div].
  - apply orb_true_r.
  - rewrite inner_loop_zero_div. cbn [zero_div]. apply orb_true_r.
Qed.

(** C5.  On a non-empty label vector without any positive label the
    scorer finds the constraints unsatisfiable (empty bias, loss 1) but
    it does divide by the zero count of positives: the outer loop
    evaluates [tp / pos] with [pos = 0], which the inner loop guards
    against and the outer loop does not. *)
Theorem two_bias_divides_by_zero_without_positives
    (probs : list Q) (y : list Z) :
  length probs = length y ->
  y <> [] ->
  count_pos y = 0 ->
  exists st,
    run probs y = Ok st
    /\ zero_div st = true
    /\ optbias st = [] /\ minloss st = 1%Q.
Proof.
  intros Hlen Hne Hpos. unfold run.
  rewrite (proj2 (Nat.eqb_eq _ _) Hlen).
  eexists. split; [reflexivity|].
  destruct (sort_rows_counts (combine probs y)) as [Hl Hc].
  rewrite labels_combine in Hc by exact Hlen. rewrite Hpos in Hc.
  split.
  - unfold scan_rows. fold (labels (sort_rows (combine probs y))).
    rewrite Hc. apply outer_loop_divides_by_zero.
    intros Hnil. rewrite Hnil in Hl.
    destruct y; [done|]. destruct probs; discriminate.
  - apply single_class_no_cut. left. exact Hc.
Qed.

Lemma lost_positive (d n : Z) :
  0 < n -> 0 < d -> (0 < inject_Z d / inject_Z n)%Q.
Proof.
  intros Hn Hd. apply Qlt_shift_div_l.
  - change 0%Q with (inject_Z 0). rewrite <- Zlt_Qlt. exact Hn.
  - rewrite Qmult_0_l. change 0%Q with (inject_Z 0).
    rewrite <- Zlt_Qlt. exact Hd.
Qed.

Lemma inner_loop_minloss_positive (n i : Z) (vi : Q) (j : Z)
    (rows : list row) (rpos rneg rtp rtn : Z) (st : scan) :
  0 < n -> i < j -> (0 < minloss st)%Q ->
  (0 < minloss (inner_loop n i vi j rows rpos rneg rtp rtn st))%Q.
Proof.
  intros Hn. revert j rpos rneg rtp st.
  induction rows as [|[vj lj] rows IH]; intros j rpos rneg rtp st Hj Hst;
    [exact Hst|].
  cbn [inner_loop].
  destruct (_ || _); [exact Hst|].
  destruct (_ && _); apply IH; try lia; [|exact Hst].
  cbn [minloss]. apply lost_positive; lia.
Qed.

Lemma outer_loop_minloss_positive (n pos neg i : Z) (rows : list row)
    (tp tn : Z) (st : scan) :
  0 < n -> (0 < minloss st)%Q ->
  (0 < minloss (outer_loop n pos neg i rows tp tn st))%Q.
Proof.
  intros Hn. revert i tp tn st.
  induction rows as [|[vi li] rows IH]; intros i tp tn st Hst; [exact Hst|].
  cbn [outer_loop].
  destruct (single_cut_test _ _ _ _) as [sat zd].
  destruct sat; apply IH; cbn [minloss]; [exact Hst|].
  apply inner_loop_minloss_positive; [exact Hn|lia|exact Hst].
Qed.

(** The loss the scorer returns is never 0, whatever the input. *)
Lemma scan_rows_minloss_positive (db : list row) :
  (0 < minloss (scan_rows db))%Q.
Proof.
  destruct db as [|r db]; [reflexivity|].
  unfold scan_rows. apply outer_loop_minloss_positive; [|reflexivity].
  cbn [map length]. lia.
Qed.

Lemma ge95_div_pos (a b : Z) :
  0 < b -> (ge95 (np_div a b) = true <-> 95 * b <= 100 * a).
Proof.
  intros Hb. unfold np_div.
  destruct (Z.eqb_spec b 0) as [->|_]; [lia|].
  cbn [ge95]. rewrite Qle_bool_iff.
  destruct b as [|p|p]; try lia.
  unfold Qle, Qdiv, Qmult, Qinv, inject_Z. cbn. lia.
Qed.

Lemma ge95_numerator_grows (tn tn' neg : Z) :
  0 <= neg -> 0 <= tn <= tn' ->
  ge95 (np_div tn neg) = true -> ge95 (np_div tn' neg) = true.
Proof.
  intros Hneg Htn H.
  destruct (Z.eq_dec neg 0) as [->|Hne].
  - unfold np_div in *. cbn [Z.eqb] in *.
    destruct (Z.eqb_spec tn 0) as [->|Hz]; [discriminate|].
    destruct (Z.eqb_spec tn' 0) as [->|Hz']; [lia|].
    destruct (Z.ltb_spec 0 tn'); [reflexivity|lia].
  - apply ge95_div_pos; [lia|]. apply ge95_div_pos in H; lia.
Qed.

Lemma single_cut_test_value (tp pos tn neg : Z) :
  fst (single_cut_test tp pos tn neg) = single_test tp pos tn neg.
Proof.
  unfold single_cut_test, single_test.
  destruct (ge95 (np_div tp pos)); reflexivity.
Qed.

(** Once the specificity test holds and the sensitivity test fails at a
    row, no pair of cuts starting at that row passes: taking positives
    out of both [running_tp] and [running_pos] lowers their ratio. *)
Lemma no_pair_after_low_sensitivity (pos neg tp tn : Z) (rows : list row) :
  tp = count_pos (labels rows) -> tp <= pos ->
  ge95 (np_div tp pos) = false ->
  forall m, (m < length rows)%nat ->
    pair_test (pos - count_pos (labels (take (S m) rows)))
      (neg - count_neg (labels (take (S m) rows)))
      (tp - count_pos (labels (take (S m) rows))) tn = false.
Proof.
  intros Htp Hle Hlow m Hm. unfold pair_test.
  pose proof (count_pos_take rows (S m)) as Hk. rewrite <- Htp in Hk.
  set (k := count_pos (labels (take (S m) rows))) in *.
  destruct (Z.eqb_spec (pos - k) 0) as [|Hpool]; [reflexivity|].
  destruct (negb (_ =? 0)); [|reflexivity]. cbn [negb andb].
  destruct (ge95 (np_div (tp - k) (pos - k))) eqn:Hge; [|reflexivity].
  exfalso. apply ge95_div_pos in Hge; [|lia].
  assert (Hgood : ge95 (np_div tp pos) = true)
    by (apply ge95_div_pos; lia).
  congruence.
Qed.

Lemma outer_loop_after_single_cut (n pos neg i : Z) (rows : list row)
    (tp tn : Z) (st : scan) :
  0 <= neg -> 0 <= tn -> ge95 (np_div tn neg) = true ->
  tp = count_pos (labels rows) -> tp <= pos ->
  (exists t, optbias st = [t; t]) ->
  exists t, optbias (outer_loop n pos neg i rows tp tn st) = [t; t].
Proof.
  intros Hneg. revert i tp tn st.
  induction rows as [|[vi li] rows IH]; intros i tp tn st Htn Hspec Htp Hle Hst;
    [exact Hst|].
  cbn [outer_loop].
  set (tp' := if li =? 1 then tp - 1 else tp).
  set (tn' := if li =? 1 then tn else tn + 1).
  rewrite labels_cons, count_pos_cons in Htp. cbn [snd] in Htp.
  assert (Htp' : tp' = count_pos (labels rows))
    by (subst tp'; destruct (li =? 1); lia).
  assert (Htn' : 0 <= tn <= tn') by (subst tn'; destruct (li =? 1); lia).
  pose proof (count_pos_nonneg (labels rows)) as Hnn.
  assert (Hle' : tp' <= pos) by (subst tp'; destruct (li =? 1); lia).
  pose proof (ge95_numerator_grows tn tn' neg Hneg Htn' Hspec) as Hspec'.
  pose proof (single_cut_test_value tp' pos tn' neg) as Hv.
  destruct (single_cut_test tp' pos tn' neg) as [sat zd]. cbn [fst] in Hv.
  destruct sat.
  - apply IH; [lia|exact Hspec'|exact Htp'|exact Hle'|].
    exists vi. reflexivity.
  - unfold single_test in Hv. rewrite Hspec', andb_true_r in Hv.
    rewrite inner_loop_no_pair
      by (apply no_pair_after_low_sensitivity; auto).
    apply IH; [lia|exact Hspec'|exact Htp'|exact Hle'|exact Hst].
Qed.

Lemma outer_loop_single_cut (n pos neg i : Z) (rows : list row)
    (tp tn : Z) (st : scan) :
  0 <= neg -> 0 <= tn ->
  tp = count_pos (labels rows) -> tp <= pos ->
  (exists m, (m < length rows)%nat
     /\ single_test (tp - count_pos (labels (take (S m) rows))) pos
          (tn + count_neg (labels (take (S m) rows))) neg = true) ->
  exists t, optbias (outer_loop n pos neg i rows tp tn st) = [t; t].
Proof.
  intros Hneg. revert i tp tn st.
  induction rows as [|[vi li] rows IH]; intros i tp tn st Htn Htp Hle [m [Hm Hok]];
    [cbn in Hm; lia|].
  cbn [outer_loop].
  set (tp' := if li =? 1 then tp - 1 else tp).
  set (tn' := if li =? 1 then tn else tn + 1).
  assert (Etp : forall c, tp - count_pos (li :: c) = tp' - count_pos c).
  { intros c. rewrite count_pos_cons. subst tp'. destruct (li =? 1); lia. }
  assert (Etn : forall c, tn + count_neg (li :: c) = tn' + count_neg c).
  { intros c. rewrite count_neg_cons. subst tn'. destruct (li =? 1); lia. }
  rewrite labels_cons, count_pos_cons in Htp. cbn [snd] in Htp.
  assert (Htp' : tp' = count_pos (labels rows))
    by (subst tp'; destruct (li =? 1); lia).
  assert (Htn' : 0 <= tn') by (subst tn'; destruct (li =? 1); lia).
  pose proof (count_pos_nonneg (labels rows)) as Hnn.
  assert (Hle' : tp' <= pos) by (subst tp'; destruct (li =? 1); lia).
  pose proof (single_cut_test_value tp' pos tn' neg) as Hv.
  destruct (single_cut_test tp' pos tn' neg) as [sat zd]. cbn [fst] in Hv.
  destruct sat.
  - symmetry in Hv. unfold single_test in Hv.
    apply andb_true_iff in Hv as [_ Hspec].
    apply outer_loop_after_single_cut; try assumption.
    exists vi. reflexivity.
  - apply IH; try assumption.
    destruct m as [|m].
    + exfalso.
      change (take 1 ((vi, li) :: rows)) with [(vi, li)] in Hok.
      rewrite labels_cons in Hok. cbn [snd labels map] in Hok.
      rewrite Etp, Etn, count_pos_nil, count_neg_nil, Z.sub_0_r, Z.add_0_r
        in Hok.
      congruence.
    + exists m. split; [cbn in Hm; lia|].
      change (take (S (S m)) ((vi, li) :: rows))
        with ((vi, li) :: take (S m) rows) in Hok.
      rewrite labels_cons in Hok. cbn [snd] in Hok.
      rewrite Etp, Etn in Hok. exact Hok.
Qed.

(** Where some single cut meets both constraints the bias returned is a
    zero-width pair. *)
Lemma scan_rows_single_cut (db : list row) (i : nat) :
  (i < length db)%nat -> single_cut_ok db i = true ->
  exists t, optbias (scan_rows db) = [t; t].
Proof.
  intros Hi Hok. unfold scan_rows.
  apply outer_loop_single_cut.
  - apply (count_neg_nonneg (labels db)).
  - lia.
  - reflexivity.
  - lia.
  - exists i. split; [exact Hi|]. rewrite Z.add_0_l. exact Hok.
Qed.

(** C3.  Where a single cut already meets both constraints the scorer
    does return a zero-width pair [[t, t]], but the loss of that band is
    never recorded: [minloss] keeps the value it had, so the score
    returned with the pair is strictly negative, not 0. *)
Theorem two_bias_single_cut_score_not_zero
    (probs : list Q) (y : list Z) (i : nat) :
  length probs = length y ->
  (i < length y)%nat ->
  single_cut_ok (sort_rows (combine probs y)) i = true ->
  exists score t,
    two_bias_scorer_CV_bias probs y = Ok (score, [t; t])
    /\ two_bias_scorer_CV probs y = Ok score
    /\ (score < 0)%Q.
Proof.
  intros Hlen Hi Hok.
  unfold two_bias_scorer_CV_bias, two_bias_scorer_CV, run.
  rewrite (proj2 (Nat.eqb_eq _ _) Hlen). cbn [mbind py_bind].
  assert (Hi' : (i < length (sort_rows (combine probs y)))%nat).
  { rewrite (proj1 (sort_rows_counts _)). unfold row.
    rewrite length_combine. lia. }
  destruct (scan_rows_single_cut _ i Hi' Hok) as [t Ht].
  exists (- minloss (scan_rows (sort_rows (combine probs y))))%Q, t.
  rewrite Ht. split; [reflexivity|]. split; [reflexivity|].
  pose proof (scan_rows_minloss_positive (sort_rows (combine probs y))) as H.
  apply Qopp_lt_compat in H. exact H.
Qed.

(** C6.  The empty prediction vector makes neither loop run: the scorer
    returns the score -1, with an empty bias when the bias is asked
    for, and raises nothing. *)
Theorem two_bias_empty_input_returns :
  two_bias_scorer_CV_bias [] [] = Ok ((-1)%Q, [])
  /\ two_bias_scorer_CV [] [] = Ok (-1)%Q.
Proof.
  unfold two_bias_scorer_CV_bias, two_bias_scorer_CV, run.
  change (combine (@nil Q) (@nil Z)) with (@nil row).
  rewrite sort_rows_nil. split; reflexivity.
Qed.

End TwoBiasFacts.

(** On the empty prediction vector the scorer raises no exception. *)
Lemma two_bias_empty_input_no_error :
  ~ exists e,
      TwoBias.two_bias_scorer_CV (AS:=TwoBias.insertion_argsort) [] []
      = Raise e.
Proof. intros [e H]. discriminate H. Qed.

(** ** The two-bias scorer and pairs of threshold values *)

Section TwoBiasByValue.

Import TwoBias Cuts Thresholds.

Context {AS : ArgSort}.



















End TwoBiasByValue.

(** ** The main function *)

Section MainFacts.

Context {FA : FloatArith} {AS : TwoBias.ArgSort}.
Context {feat param model : Type} {E : Estimator feat param model}.

Variable precision_recall_curve :
  list Z -> list Q -> py (list Q * list Q * list Q).

Local Abbreviation main := (Main.main precision_recall_curve).
Local Abbreviation select_scorer := (Main.select_scorer precision_recall_curve).

Lemma main_steps (a : Main.scorer_arg) (w : Main.search_arg)
    (grid_iterable sampler_iterable : list param) (elapsed : nat -> Q)
    (deliver : list (nat * Search.fit_result) -> list (nat * Search.fit_result))
    (X : list feat) (y : list Z) (lkf : list fold)
    (out : Main.main_output) :
  main a w grid_iterable sampler_iterable elapsed deliver X y lkf = Ok out ->
  Search.fit (Main.main_config lkf)
    (match w with
     | Main.SearchGrid => grid_iterable
     | Main.SearchRandomized => sampler_iterable
     end) elapsed deliver X y = Ok (Main.out_search out)
  /\ CrossVal.cross_val_probs (Search.best_params_ (Main.out_search out)) X y lkf
     = Ok (Main.out_cv_probs out)
  /\ select_scorer a (Main.out_cv_probs out) y
     = Ok (Main.out_score out, Main.out_bias out)
  /\ Main.out_report out = Main.report_model (Main.out_bias out).
Proof.
  unfold Main.main. intros H.
  destruct (Search.fit _ _ _ _ _ _) as [clf|e] eqn:Hf;
    cbn [mbind py_bind] in H; [|discriminate].
  destruct (CrossVal.cross_val_probs _ _ _ _) as [CV_probs|e] eqn:Hc;
    cbn [mbind py_bind] in H; [|discriminate].
  destruct (Main.select_scorer _ _ _ _) as [[s b]|e] eqn:Hs;
    cbn [mbind py_bind] in H; [|discriminate].
  injection H as <-. cbn. rewrite Hc, Hs. repeat split; reflexivity.
Qed.


(** C2.  During the search the score of a work item is the estimator's
    own [score] of the model fitted on the train rows, taken on the test
    rows: the search objects are built with [scoring=None] whatever
    scorer was selected.  The selected dual-threshold scorer is applied
    once, after the search, to the out-of-fold probabilities of the
    whole data set. *)
Theorem search_scores_with_estimator_score
    (X : list feat) (y : list Z) (lkf : list fold) (elapsed : nat -> Q)
    (idx : nat) (parameters : param) (train test : list nat)
    (X_train X_test : list feat) (y_train y_test : list Z) :
  np_take X train = Ok X_train -> np_take y train = Ok y_train ->
  np_take X test = Ok X_test -> np_take y test = Ok y_test ->
  Search.local_fit X y
    (Search.check_scoring (Search.scoring (Main.main_config lkf)))
    elapsed (idx, (parameters, train, test))
  = Ok (idx,
        Search.mkFitResult
          (est_score (est_fit parameters X_train y_train) X_test y_test)
          (length X_test) (elapsed idx) parameters)
  /\ forall a w grid_iterable sampler_iterable deliver out,
       main a w grid_iterable sampler_iterable elapsed deliver X y lkf
       = Ok out ->
       Search.fit (Main.main_config lkf)
         (match w with
          | Main.SearchGrid => grid_iterable
          | Main.SearchRandomized => sampler_iterable
          end) elapsed deliver X y = Ok (Main.out_search out)
       /\ CrossVal.cross_val_probs
            (Search.best_params_ (Main.out_search out)) X y lkf
          = Ok (Main.out_cv_probs out)
       /\ select_scorer a (Main.out_cv_probs out) y
          = Ok (Main.out_score out, Main.out_bias out).
Proof.
  intros HXtr Hytr HXte Hyte. split.
  - unfold Search.local_fit, Search.fit_and_score.
    rewrite HXtr, Hytr, HXte, Hyte. reflexivity.
  - intros a w g s deliver out Hmain.
    destruct (main_steps _ _ _ _ _ _ _ _ _ _ Hmain) as (Hf & Hc & Hs & _).
    auto.
Qed.

End MainFacts.

(** ** The theorems on a small data set *)

Lemma reassembly_order_independent_witness :
  Toy.collected ≡ₚ Search.index_grid Toy.results
  /\ Search.reassemble (length Toy.results) Toy.collected = Ok Toy.results.
Proof.
  assert (H : Toy.collected ≡ₚ Search.index_grid Toy.results).
  { unfold Toy.collected. apply Permutation_sym, Permutation_rev. }
  split; [exact H|].
  exact (proj1 (@reassembly_order_independent exact_arith Q nat nat
                  Toy.estimator Toy.cfg Toy.X Toy.y Toy.results
                  Toy.collected H)).
Defined.

Lemma param_grid_blocks_witness :
  Toy.lkf <> []
  /\ py_mapM (Search.local_fit Toy.X Toy.y est_score Toy.elapsed)
       (Search.index_grid (Search.make_param_grid Toy.grid Toy.lkf))
     = Ok Toy.pairs
  /\ Toy.collected ≡ₚ Toy.pairs
  /\ exists out gs,
       Search.reassemble
         (length (Search.make_param_grid Toy.grid Toy.lkf)) Toy.collected
       = Ok out
       /\ Search.aggregate (FA:=exact_arith) false (length Toy.lkf) out
          = Ok gs
       /\ map Search.cvs_parameters gs = Toy.grid.
Proof.
  assert (H1 : Toy.lkf <> []) by discriminate.
  assert (H2 : py_mapM (Search.local_fit Toy.X Toy.y est_score Toy.elapsed)
                 (Search.index_grid (Search.make_param_grid Toy.grid Toy.lkf))
               = Ok Toy.pairs) by (vm_compute; reflexivity).
  assert (H3 : Toy.collected ≡ₚ Toy.pairs).
  { unfold Toy.collected. apply Permutation_sym, Permutation_rev. }
  split; [exact H1|]. split; [exact H2|]. split; [exact H3|].
  destruct (proj2 (@param_grid_blocks exact_arith Q nat nat Toy.estimator
                     Toy.grid Toy.lkf Toy.X Toy.y est_score Toy.elapsed false
                     Toy.pairs Toy.collected H1 H2 H3))
    as (out & Hre & Hpar & Hret).
  destruct Hret as [gs Hgs]; [discriminate|].
  exists out, gs. split; [exact Hre|]. split; [exact Hgs|exact (Hpar gs Hgs)].
Defined.


Ltac list_cases H :=
  repeat (apply elem_of_cons in H as [->|H]);
  try (apply elem_of_nil in H; destruct H).

Ltac not_in_list :=
  let H := fresh in
  intros H;
  repeat (apply elem_of_cons in H as [H|H]; [discriminate H|]);
  apply elem_of_nil in H; destruct H.

Lemma toy_folds_in_range : folds_in_range (length Toy.y) Toy.lkf.
Proof.
  intros f Hf. unfold Toy.lkf in Hf. list_cases Hf;
    (split; intros i Hi; cbn in Hi; list_cases Hi; cbn; lia).
Defined.

Lemma cross_val_probs_out_of_fold_witness :
  length Toy.X = length Toy.y
  /\ folds_in_range (length Toy.y) Toy.lkf
  /\ test_partition (length Toy.y) Toy.lkf
  /\ folds_disjoint Toy.lkf
  /\ exists out,
       CrossVal.cross_val_probs (E:=Toy.estimator) 7%nat Toy.X Toy.y Toy.lkf
       = Ok out
       /\ length out = length Toy.y.
Proof.
  assert (H1 : length Toy.X = length Toy.y) by reflexivity.
  assert (H3 : test_partition (length Toy.y) Toy.lkf)
    by (unfold test_partition; cbn; reflexivity).
  assert (H4 : folds_disjoint Toy.lkf).
  { intros f Hf i Hi. unfold Toy.lkf in Hf. list_cases Hf;
      cbn in Hi; list_cases Hi; cbn; not_in_list. }
  split; [exact H1|]. split; [exact toy_folds_in_range|].
  split; [exact H3|]. split; [exact H4|].
  destruct (@cross_val_probs_out_of_fold Q nat nat Toy.estimator 7%nat
              Toy.X Toy.y Toy.lkf H1 toy_folds_in_range H3 H4)
    as [out [Hout [Hlen _]]].
  exists out. split; [exact Hout|exact Hlen].
Defined.

Lemma cross_val_probs_uncovered_zero_witness :
  length Toy.X = length Toy.y
  /\ folds_in_range (length Toy.y) Toy.partial_lkf
  /\ (3 < length Toy.y)%nat
  /\ (forall f, f ∈ Toy.partial_lkf -> 3%nat ∉ snd f)
  /\ exists out,
       CrossVal.cross_val_probs (E:=Toy.estimator) 7%nat Toy.X Toy.y
         Toy.partial_lkf = Ok out
       /\ out !! 3%nat = Some 0%Q.
Proof.
  assert (H1 : length Toy.X = length Toy.y) by reflexivity.
  assert (H2 : folds_in_range (length Toy.y) Toy.partial_lkf).
  { intros f Hf. unfold Toy.partial_lkf in Hf. list_cases Hf;
      (split; intros i Hi; cbn in Hi; list_cases Hi; cbn; lia). }
  assert (H3 : (3 < length Toy.y)%nat) by (cbn; lia).
  assert (H4 : forall f, f ∈ Toy.partial_lkf -> 3%nat ∉ snd f).
  { intros f Hf. unfold Toy.partial_lkf in Hf. list_cases Hf;
      cbn; not_in_list. }
  split; [exact H1|]. split; [exact H2|]. split; [exact H3|].
  split; [exact H4|].
  exact (@cross_val_probs_uncovered_zero Q nat nat Toy.estimator 7%nat
           Toy.X Toy.y Toy.partial_lkf 3%nat H1 H2 H3 H4).
Defined.

Lemma two_bias_divides_by_zero_without_positives_witness :
  length [1 # 2] = length [0]
  /\ [0] <> []
  /\ TwoBias.count_pos [0] = 0
  /\ exists st,
       TwoBias.run (AS:=TwoBias.insertion_argsort) [1 # 2] [0] = Ok st
       /\ TwoBias.zero_div st = true
       /\ TwoBias.optbias st = [] /\ TwoBias.minloss st = 1%Q.
Proof.
  assert (H1 : length [1 # 2] = length [0]) by reflexivity.
  assert (H2 : [0] <> []) by discriminate.
  assert (H3 : TwoBias.count_pos [0] = 0) by reflexivity.
  split; [exact H1|]. split; [exact H2|]. split; [exact H3|].
  exact (two_bias_divides_by_zero_without_positives [1 # 2] [0] H1 H2 H3).
Defined.

Lemma two_bias_single_cut_score_not_zero_witness :
  length [1 # 10; 9 # 10] = length [0; 1]
  /\ (0 < length [0; 1])%nat
  /\ Cuts.single_cut_ok
       (TwoBias.sort_rows (AS:=TwoBias.insertion_argsort)
           (combine [1 # 10; 9 # 10] [0; 1])) 0 = true
  /\ exists score t,
       TwoBias.two_bias_scorer_CV_bias (AS:=TwoBias.insertion_argsort)
           [1 # 10; 9 # 10] [0; 1]
       = Ok (score, [t; t])
       /\ TwoBias.two_bias_scorer_CV (AS:=TwoBias.insertion_argsort)
           [1 # 10; 9 # 10] [0; 1] = Ok score
       /\ (score < 0)%Q.
Proof.
  assert (H1 : length [1 # 10; 9 # 10] = length [0; 1]) by reflexivity.
  assert (H2 : (0 < length [0; 1])%nat) by (cbn; lia).
  assert (H3 : Cuts.single_cut_ok
                 (TwoBias.sort_rows (AS:=TwoBias.insertion_argsort)
                     (combine [1 # 10; 9 # 10] [0; 1])) 0
               = true) by (vm_compute; reflexivity).
  split; [exact H1|]. split; [exact H2|]. split; [exact H3|].
  exact (two_bias_single_cut_score_not_zero [1 # 10; 9 # 10] [0; 1] 0
           H1 H2 H3).
Defined.

(** The run of the scorer on two perfectly separated samples: the bias
    is the zero-width pair at the negative sample and the score is -1,
    the score of an infeasible input. *)
Example two_bias_separable_run :
  TwoBias.two_bias_scorer_CV_bias (AS:=TwoBias.insertion_argsort)
      [1 # 10; 9 # 10] [0; 1]
  = Ok ((-1)%Q, [1 # 10; 1 # 10]).
Proof. vm_compute. reflexivity. Qed.





(** A fold list whose test sets partition the sample indices, with a
    fold that trains on the samples it tests: the probability of sample
    0 comes from a model fitted on sample 0 (the estimator answers 1 for
    a row it has seen), where folds with disjoint train and test sets
    give 0. *)
Lemma cross_val_probs_fold_trained_on_test :
  folds_in_range (length Memo.y) Memo.leaky
  /\ test_partition (length Memo.y) Memo.leaky
  /\ (exists f, f ∈ Memo.leaky /\ 0%nat ∈ snd f /\ 0%nat ∈ fst f)
  /\ CrossVal.cross_val_probs (E:=Memo.estimator) 7%nat Memo.X Memo.y
       Memo.leaky = Ok [1%Q; 1%Q]
  /\ CrossVal.cross_val_probs (E:=Memo.estimator) 7%nat Memo.X Memo.y
       Memo.clean = Ok [0%Q; 0%Q].
Proof.
  split.
  { intros f Hf. unfold Memo.leaky in Hf. list_cases Hf.
    split; intros i Hi; cbn in Hi; list_cases Hi; cbn; lia. }
  split; [unfold test_partition; cbn; reflexivity|].
  split; [exists ([0; 1], [0; 1])%nat; repeat split; left|].
  split; vm_compute; reflexivity.
Qed.

Lemma search_scores_with_estimator_score_witness :
  np_take Toy.X [2; 3]%nat = Ok [2 # 10; 8 # 10]
  /\ np_take Toy.y [2; 3]%nat = Ok [0; 1]
  /\ np_take Toy.X [0; 1]%nat = Ok [1 # 10; 9 # 10]
  /\ np_take Toy.y [0; 1]%nat = Ok [0; 1]
  /\ Search.local_fit Toy.X Toy.y
       (Search.check_scoring (Search.scoring (Main.main_config Toy.lkf)))
       Toy.elapsed (0%nat, (7%nat, [2; 3]%nat, [0; 1]%nat))
     = Ok (0%nat,
           Search.mkFitResult
             (est_score (est_fit 7%nat [2 # 10; 8 # 10] [0; 1])
                [1 # 10; 9 # 10] [0; 1])
             2 (Toy.elapsed 0%nat) 7%nat).
Proof.
  assert (H1 : np_take Toy.X [2; 3]%nat = Ok [2 # 10; 8 # 10])
    by reflexivity.
  assert (H2 : np_take Toy.y [2; 3]%nat = Ok [0; 1]) by reflexivity.
  assert (H3 : np_take Toy.X [0; 1]%nat = Ok [1 # 10; 9 # 10])
    by reflexivity.
  assert (H4 : np_take Toy.y [0; 1]%nat = Ok [0; 1]) by reflexivity.
  split; [exact H1|]. split; [exact H2|]. split; [exact H3|].
  split; [exact H4|].
  exact (proj1 (@search_scores_with_estimator_score exact_arith
                  TwoBias.insertion_argsort Q nat nat
                  Toy.estimator Toy.curve Toy.X Toy.y Toy.lkf Toy.elapsed
                  0%nat 7%nat [2; 3]%nat [0; 1]%nat _ _ _ _ H1 H2 H3 H4)).
Defined.

(** The first work item of the small search: its score in the search is
    the accuracy 1 of the estimator on the test fold, while the two-bias
    scorer gives that fold's test predictions the score -1. *)
Lemma search_item_not_scored_by_selected_scorer :
  exists r probs y_test sb,
    Search.local_fit Toy.X Toy.y
      (Search.check_scoring (Search.scoring (Main.main_config Toy.lkf)))
      Toy.elapsed (0%nat, (7%nat, [2; 3]%nat, [0; 1]%nat)) = Ok (0%nat, r)
    /\ (X_test ← np_take Toy.X [0; 1]%nat;
        Ok (map (predict_proba1 (est_fit 7%nat [2 # 10; 8 # 10] [0; 1]))
              X_test)) = Ok probs
    /\ np_take Toy.y [0; 1]%nat = Ok y_test
    /\ Main.select_scorer (FA:=exact_arith) (AS:=TwoBias.insertion_argsort)
        Toy.curve Main.ScorerTwoBias
         probs y_test = Ok sb
    /\ ~ (Search.test_score r == fst sb)%Q.
Proof.
  eexists _, _, _, _.
  split; [vm_compute; reflexivity|]. split; [vm_compute; reflexivity|].
  split; [vm_compute; reflexivity|]. split; [vm_compute; reflexivity|].
  vm_compute. intros H. discriminate H.
Qed.

(** * Further properties of the code *)

(** ** The two-bias scorer: range of the score and shape of the bias *)

Section TwoBiasRange.

Import TwoBias Cuts.

Context {AS : ArgSort}.

Lemma inner_loop_minloss_le (n i : Z) (vi : Q) (j : Z) (rows : list row)
    (rpos rneg rtp rtn : Z) (st : scan) :
  (minloss st <= 1)%Q ->
  (minloss (inner_loop n i vi j rows rpos rneg rtp rtn st) <= 1)%Q.
Proof.
  revert j rpos rneg rtp st.
  induction rows as [|[vj lj] rows IH]; intros j rpos rneg rtp st Hst;
    [exact Hst|].
  cbn [inner_loop].
  destruct (_ || _); [exact Hst|].
  destruct (ge95 _ && ge95 _ && Qlt_bool _ (minloss st)) eqn:Hc;
    apply IH; [|exact Hst].
  cbn [minloss]. apply andb_true_iff in Hc as [_ Hlt].
  apply Qlt_bool_true in Hlt. apply Qlt_le_weak.
  eapply Qlt_le_trans; [exact Hlt|exact Hst].
Qed.

Lemma outer_loop_minloss_le (n pos neg i : Z) (rows : list row)
    (tp tn : Z) (st : scan) :
  (minloss st <= 1)%Q ->
  (minloss (outer_loop n pos neg i rows tp tn st) <= 1)%Q.
Proof.
  revert i tp tn st.
  induction rows as [|[vi li] rows IH]; intros i tp tn st Hst; [exact Hst|].
  cbn [outer_loop].
  destruct (single_cut_test _ _ _ _) as [sat zd].
  destruct sat; apply IH; cbn [minloss]; [exact Hst|].
  apply inner_loop_minloss_le. exact Hst.
Qed.

Lemma scan_rows_minloss_le (db : list row) : (minloss (scan_rows db) <= 1)%Q.
Proof. unfold scan_rows. apply outer_loop_minloss_le. apply Qle_refl. Qed.

(** X1.  Whatever the predictions and labels (of equal length), the
    scorer returns, and its score lies in the interval [-1, 0). *)
Theorem two_bias_score_range (probs : list Q) (y : list Z) :
  length probs = length y ->
  exists score,
    two_bias_scorer_CV probs y = Ok score
    /\ (-1 <= score)%Q /\ (score < 0)%Q.
Proof.
  intros Hlen. unfold two_bias_scorer_CV, run.
  rewrite (proj2 (Nat.eqb_eq _ _) Hlen). cbn [mbind py_bind].
  eexists. split; [reflexivity|]. split.
  - change (-1)%Q with (- (1))%Q. apply Qopp_le_compat.
    apply scan_rows_minloss_le.
  - pose proof (scan_rows_minloss_positive (sort_rows (combine probs y)))
      as H.
    apply Qopp_lt_compat in H. exact H.
Qed.

(** X2.  With labels of one class only, whichever class it is, the
    scorer returns the score -1 and an empty bias. *)
Theorem two_bias_single_class (probs : list Q) (y : list Z) :
  length probs = length y ->
  count_pos y = 0 \/ count_neg y = 0 ->
  two_bias_scorer_CV_bias probs y = Ok ((-1)%Q, []).
Proof.
  intros Hlen Hclass. unfold two_bias_scorer_CV_bias, run.
  rewrite (proj2 (Nat.eqb_eq _ _) Hlen). cbn [mbind py_bind].
  destruct (sort_rows_counts (combine probs y)) as [Hl Hc].
  rewrite labels_combine in Hc by exact Hlen.
  destruct (single_class_no_cut (sort_rows (combine probs y))) as [Hb Hm].
  - destruct Hclass as [Hp|Hn]; [left; congruence|right].
    unfold count_neg in *. rewrite Hc.
    assert (Hll : length (labels (sort_rows (combine probs y))) = length y).
    { unfold labels, row in *. rewrite length_map, Hl, length_combine.
      lia. }
    rewrite Hll. exact Hn.
  - rewrite Hb, Hm. reflexivity.
Qed.

End TwoBiasRange.

(** ** The two-bias scorer: the bias is empty exactly when no cut is
       feasible *)

Section TwoBiasComplete.

Import TwoBias Cuts.

Context {AS : ArgSort}.

Lemma inner_loop_keeps_bias (n i : Z) (vi : Q) (j : Z) (rows : list row)
    (rpos rneg rtp rtn : Z) (st : scan) :
  optbias st <> [] ->
  optbias (inner_loop n i vi j rows rpos rneg rtp rtn st) <> [].
Proof.
  revert j rpos rneg rtp st.
  induction rows as [|[vj lj] rows IH]; intros j rpos rneg rtp st Hst;
    [exact Hst|].
  cbn [inner_loop].
  destruct (_ || _); [exact Hst|].
  destruct (_ && _); apply IH; [discriminate|exact Hst].
Qed.

Lemma outer_loop_keeps_bias (n pos neg i : Z) (rows : list row)
    (tp tn : Z) (st : scan) :
  optbias st <> [] ->
  optbias (outer_loop n pos neg i rows tp tn st) <> [].
Proof.
  revert i tp tn st.
  induction rows as [|[vi li] rows IH]; intros i tp tn st Hst; [exact Hst|].
  cbn [outer_loop].
  destruct (single_cut_test _ _ _ _) as [sat zd].
  destruct sat; apply IH; [discriminate|].
  apply inner_loop_keeps_bias. exact Hst.
Qed.

Lemma inner_loop_keeps_unset (n i : Z) (vi : Q) (j : Z) (rows : list row)
    (rpos rneg rtp rtn : Z) (st : scan) :
  (optbias st = [] -> minloss st = 1%Q) ->
  optbias (inner_loop n i vi j rows rpos rneg rtp rtn st) = [] ->
  minloss (inner_loop n i vi j rows rpos rneg rtp rtn st) = 1%Q.
Proof.
  revert j rpos rneg rtp st.
  induction rows as [|[vj lj] rows IH]; intros j rpos rneg rtp st Hst;
    [exact Hst|].
  cbn [inner_loop].
  destruct (_ || _); [exact Hst|].
  destruct (_ && _); apply IH; [discriminate|exact Hst].
Qed.

Lemma lost_below_one (d n : Z) :
  0 < n -> d < n -> (inject_Z d / inject_Z n < 1)%Q.
Proof.
  intros Hn Hd. apply Qlt_shift_div_r.
  - change 0%Q with (inject_Z 0). rewrite <- Zlt_Qlt. exact Hn.
  - rewrite Qmult_1_l. rewrite <- Zlt_Qlt. exact Hd.
Qed.

Lemma take_cons_labels (r : row) (rows : list row) (m : nat) :
  labels (take (S m) (r :: rows)) = snd r :: labels (take m rows).
Proof. reflexivity. Qed.

Lemma pair_test_true (a b c d : Z) :
  pair_test a b c d = true ->
  a <> 0 /\ b <> 0 /\ ge95 (np_div c a) = true /\ ge95 (np_div d b) = true.
Proof.
  unfold pair_test. intros H.
  apply andb_true_iff in H as [H Hd]. apply andb_true_iff in H as [H Hc].
  apply andb_true_iff in H as [Ha Hb].
  apply negb_true_iff, Z.eqb_neq in Ha, Hb. auto.
Qed.

(** If some pair of cuts starting at row [i] passes the tests, the inner
    loop leaves a bias. *)
Lemma inner_loop_finds_pair (n i : Z) (vi : Q) (j : Z) (rows : list row)
    (rpos rneg rtp rtn : Z) (st : scan) :
  0 < n -> 0 <= i < j -> j + Z.of_nat (length rows) <= n ->
  (optbias st = [] -> minloss st = 1%Q) ->
  count_pos (labels rows) <= rpos -> count_neg (labels rows) <= rneg ->
  (exists m, (m < length rows)%nat
     /\ pair_test (rpos - count_pos (labels (take (S m) rows)))
          (rneg - count_neg (labels (take (S m) rows)))
          (rtp - count_pos (labels (take (S m) rows))) rtn = true) ->
  optbias (inner_loop n i vi j rows rpos rneg rtp rtn st) <> [].
Proof.
  intros Hn. revert j rpos rneg rtp st.
  induction rows as [|[vj lj] rows IH];
    intros j rpos rneg rtp st Hij Hlen Hst Hp Hq [m [Hm Hok]];
    [cbn in Hm; lia|].
  cbn [inner_loop].
  rewrite labels_cons, count_pos_cons in Hp.
  rewrite labels_cons, count_neg_cons in Hq. cbn [snd] in Hp, Hq.
  rewrite take_cons_labels in Hok. cbn [snd] in Hok.
  rewrite count_pos_cons, count_neg_cons in Hok.
  pose proof (count_pos_take rows m) as Hk.
  pose proof (count_neg_take rows m) as Hk'.
  set (rpos' := if lj =? 1 then rpos - 1 else rpos).
  set (rneg' := if lj =? 1 then rneg else rneg - 1).
  set (rtp' := if lj =? 1 then rtp - 1 else rtp).
  assert (Hok' : pair_test (rpos' - count_pos (labels (take m rows)))
                   (rneg' - count_neg (labels (take m rows)))
                   (rtp' - count_pos (labels (take m rows))) rtn = true).
  { rewrite <- Hok. subst rpos' rneg' rtp'. destruct (lj =? 1); f_equal; lia. }
  assert (Hp' : count_pos (labels rows) <= rpos')
    by (subst rpos'; destruct (lj =? 1); lia).
  assert (Hq' : count_neg (labels rows) <= rneg')
    by (subst rneg'; destruct (lj =? 1); lia).
  destruct (pair_test_true _ _ _ _ Hok') as (Ha & Hb & Hc & Hd).
  destruct (Z.eqb_spec rpos' 0) as [Hz|_]; [lia|].
  destruct (Z.eqb_spec rneg' 0) as [Hz|_]; [lia|].
  cbn [orb]. cbn [length] in Hlen.
  destruct (ge95 (np_div rtp' rpos') && ge95 (np_div rtn rneg')
            && Qlt_bool (inject_Z (j - i) / inject_Z n) (minloss st)) eqn:Hc0.
  - apply inner_loop_keeps_bias. discriminate.
  - destruct m as [|m].
    + apply inner_loop_keeps_bias. intros Hnil.
      change (take 0 rows) with (@nil row) in Hc, Hd.
      change (labels []) with (@nil Z) in Hc, Hd.
      rewrite count_pos_nil, !Z.sub_0_r in Hc.
      rewrite count_neg_nil, !Z.sub_0_r in Hd.
      rewrite Hc, Hd in Hc0. cbn [andb] in Hc0.
      apply Qlt_bool_false in Hc0. rewrite (Hst Hnil) in Hc0.
      pose proof (lost_below_one (j - i) n Hn ltac:(lia)) as Hlt.
      exact (Qlt_not_le _ _ Hlt Hc0).
    + apply IH; [lia|lia|exact Hst|exact Hp'|exact Hq'|].
      exists m. split; [cbn in Hm; lia|]. exact Hok'.
Qed.

(** If some single cut or pair of cuts at or after the current row
    passes the tests, the outer loop leaves a bias. *)
Lemma outer_loop_finds_cut (n pos neg i : Z) (rows : list row)
    (tp tn : Z) (st : scan) :
  0 < n -> 0 <= i -> i + Z.of_nat (length rows) <= n ->
  (optbias st = [] -> minloss st = 1%Q) ->
  count_pos (labels rows) <= pos -> count_neg (labels rows) <= neg ->
  (exists m, (m < length rows)%nat
     /\ (single_test (tp - count_pos (labels (take (S m) rows))) pos
           (tn + count_neg (labels (take (S m) rows))) neg = true
         \/ exists m2, (m < m2 < length rows)%nat
              /\ pair_test
                   (pos - count_pos (labels (take (m2 - m) (drop (S m) rows))))
                   (neg - count_neg (labels (take (m2 - m) (drop (S m) rows))))
                   (tp - count_pos (labels (take (S m) rows))
                    - count_pos (labels (take (m2 - m) (drop (S m) rows))))
                   (tn + count_neg (labels (take (S m) rows))) = true)) ->
  optbias (outer_loop n pos neg i rows tp tn st) <> [].
Proof.
  intros Hn. revert i tp tn st.
  induction rows as [|[vi li] rows IH];
    intros i tp tn st Hi Hlen Hst Hp Hq [m [Hm Hok]]; [cbn in Hm; lia|].
  cbn [outer_loop].
  set (tp' := if li =? 1 then tp - 1 else tp).
  set (tn' := if li =? 1 then tn else tn + 1).
  assert (Etp : forall c, tp - count_pos (li :: c) = tp' - count_pos c).
  { intros c. rewrite count_pos_cons. subst tp'. destruct (li =? 1); lia. }
  assert (Etn : forall c, tn + count_neg (li :: c) = tn' + count_neg c).
  { intros c. rewrite count_neg_cons. subst tn'. destruct (li =? 1); lia. }
  rewrite labels_cons, count_pos_cons in Hp.
  rewrite labels_cons, count_neg_cons in Hq. cbn [snd] in Hp, Hq.
  assert (Hp' : count_pos (labels rows) <= pos) by (destruct (li =? 1); lia).
  assert (Hq' : count_neg (labels rows) <= neg) by (destruct (li =? 1); lia).
  cbn [length] in Hlen.
  pose proof (single_cut_test_value tp' pos tn' neg) as Hv.
  destruct (single_cut_test tp' pos tn' neg) as [sat zd]. cbn [fst] in Hv.
  destruct sat; [apply outer_loop_keeps_bias; discriminate|].
  rewrite take_cons_labels in Hok. cbn [snd] in Hok.
  rewrite Etp, Etn in Hok.
  destruct m as [|m].
  - change (take 0 rows) with (@nil row) in Hok.
    change (labels []) with (@nil Z) in Hok.
    rewrite count_pos_nil, count_neg_nil, Z.sub_0_r, Z.add_0_r in Hok.
    destruct Hok as [Hs|[m2 [Hm2 Hpair]]]; [congruence|].
    apply outer_loop_keeps_bias.
    destruct m2 as [|m2]; [lia|].
    apply inner_loop_finds_pair; [exact Hn|lia|lia|exact Hst|exact Hp'|exact Hq'|].
    exists m2. split; [cbn in Hm2; lia|].
    change (take (S m2 - 0) (drop 1 ((vi, li) :: rows)))
      with (take (S m2) rows) in Hpair.
    exact Hpair.
  - apply IH; [lia|lia| |exact Hp'|exact Hq'|].
    + apply inner_loop_keeps_unset. exact Hst.
    + exists m. split; [cbn in Hm; lia|].
      destruct Hok as [Hs|[m2 [Hm2 Hpair]]]; [left; exact Hs|right].
      destruct m2 as [|m2]; [lia|].
      exists m2. split; [cbn in Hm2; lia|].
      change (take (S m2 - S m) (drop (S (S m)) ((vi, li) :: rows)))
        with (take (m2 - m) (drop (S m) rows)) in Hpair.
      exact Hpair.
Qed.

Lemma scan_rows_feasible (db : list row) :
  feasible db = true -> optbias (scan_rows db) <> [].
Proof.
  intros H. unfold feasible in H.
  apply existsb_exists in H as [i [Hi Hcut]]. apply in_seq in Hi.
  unfold scan_rows.
  apply outer_loop_finds_cut.
  - destruct db; [cbn in Hi; lia|]. cbn [map length]. lia.
  - lia.
  - pose proof (length_map snd db) as Hl. unfold row in *. lia.
  - reflexivity.
  - apply Z.le_refl.
  - apply Z.le_refl.
  - exists i. split; [lia|].
    apply orb_true_iff in Hcut as [Hs|Hp].
    + left. rewrite Z.add_0_l. exact Hs.
    + right. apply existsb_exists in Hp as [j [Hj Hpair]].
      apply in_seq in Hj. exists j. split; [lia|].
      rewrite Z.add_0_l. exact Hpair.
Qed.

(** X3.  Whatever order the sort leaves equal predictions in, the
    scorer returns an empty bias exactly when, on the rows in that
    order, no single cut and no pair of cuts passes its tests;
    otherwise it returns a bias of the cuts it found. *)
Theorem two_bias_empty_bias_iff_infeasible (probs : list Q) (y : list Z) :
  length probs = length y ->
  exists score bias,
    two_bias_scorer_CV_bias probs y = Ok (score, bias)
    /\ (bias = [] <-> feasible (sort_rows (combine probs y)) = false).
Proof.
  intros Hlen. unfold two_bias_scorer_CV_bias, run.
  rewrite (proj2 (Nat.eqb_eq _ _) Hlen). cbn [mbind py_bind].
  eexists _, _. split; [reflexivity|]. split.
  - intros Hb. destruct (feasible _) eqn:Hf; [|reflexivity].
    exfalso. exact (scan_rows_feasible _ Hf Hb).
  - intros Hf. apply scan_rows_infeasible, Hf.
Qed.

End TwoBiasComplete.

(** ** The two-bias scorer: shape of the bias *)

Section TwoBiasShape.

Import TwoBias Cuts Shapes.

Context {AS : ArgSort}.

Lemma inner_loop_bias_shape (vals : list Q) (n i : Z) (vi : Q) (j : Z)
    (rows : list row) (rpos rneg rtp rtn : Z) (st : scan) :
  vi ∈ vals ->
  Forall (fun r : row => (vi <= fst r)%Q /\ fst r ∈ vals) rows ->
  bias_shape vals (optbias st) ->
  bias_shape vals
    (optbias (inner_loop n i vi j rows rpos rneg rtp rtn st)).
Proof.
  intros Hvi. revert j rpos rneg rtp st.
  induction rows as [|[vj lj] rows IH]; intros j rpos rneg rtp st Hrows Hst;
    [exact Hst|].
  cbn [inner_loop]. apply Forall_cons in Hrows as [[Hle Hin] Hrows].
  destruct (_ || _); [exact Hst|].
  destruct (_ && _); apply IH; try assumption.
  right. exists vi, vj. cbn in *. auto.
Qed.

Lemma outer_loop_bias_shape (vals : list Q) (n pos neg i : Z)
    (rows : list row) (tp tn : Z) (st : scan) :
  rows_ascending rows ->
  Forall (fun r : row => fst r ∈ vals) rows ->
  bias_shape vals (optbias st) ->
  bias_shape vals (optbias (outer_loop n pos neg i rows tp tn st)).
Proof.
  revert i tp tn st.
  induction rows as [|[vi li] rows IH]; intros i tp tn st Hs Hin Hst;
    [exact Hst|].
  cbn [outer_loop].
  apply StronglySorted_inv in Hs as [Hs Hle].
  apply Forall_cons in Hin as [Hvi Hin]. cbn [fst] in Hvi.
  destruct (single_cut_test _ _ _ _) as [sat zd].
  destruct sat; apply IH; try assumption.
  - right. exists vi, vi. split; [reflexivity|].
    split; [apply Qle_refl|]. split; assumption.
  - apply inner_loop_bias_shape; [exact Hvi| |exact Hst].
    apply Forall_forall. intros r Hr.
    rewrite Forall_forall in Hle, Hin. split; [apply Hle, Hr|apply Hin, Hr].
Qed.

Lemma scan_rows_bias_shape (probs : list Q) (y : list Z) :
  bias_shape probs (optbias (scan_rows (sort_rows (combine probs y)))).
Proof.
  unfold scan_rows. apply outer_loop_bias_shape.
  - apply sort_rows_ascending.
  - apply Forall_forall. intros r Hr.
    rewrite sort_rows_perm in Hr.
    apply list_elem_of_In in Hr. destruct r as [p l].
    apply in_combine_l in Hr. apply list_elem_of_In. exact Hr.
  - left. reflexivity.
Qed.

(** X4.  The bias the scorer returns is empty or a pair [[lo, hi]] of
    two of the given predictions with [lo <= hi]. *)
Theorem two_bias_bias_shape (probs : list Q) (y : list Z) :
  length probs = length y ->
  exists score bias,
    two_bias_scorer_CV_bias probs y = Ok (score, bias)
    /\ bias_shape probs bias.
Proof.
  intros Hlen. unfold two_bias_scorer_CV_bias, run.
  rewrite (proj2 (Nat.eqb_eq _ _) Hlen). cbn [mbind py_bind].
  eexists _, _. split; [reflexivity|]. apply scan_rows_bias_shape.
Qed.

End TwoBiasShape.

(** ** The f1 scorer *)

Section F1Facts.

Context {FA : FloatArith}.
Import Shapes.

Variable precision_recall_curve :
  list Z -> list Q -> py (list Q * list Q * list Q).

Lemma threshold_loop_spec (P R T : list Q) (idx : list nat) (f1 bias : Q) :
  (forall i, i ∈ idx ->
     is_Some (P !! i) /\ is_Some (R !! i) /\ is_Some (T !! i)) ->
  exists f1' bias',
    F1Bias.threshold_loop P R T idx f1 bias = Ok (f1', bias')
    /\ (f1 <= f1')%Q
    /\ (forall i p r, i ∈ idx -> P !! i = Some p -> R !! i = Some r ->
          degenerate p r = false -> (f_measure p r <= f1')%Q)
    /\ ((f1' = f1 /\ bias' = bias)
        \/ exists pre k post p r,
             idx = pre ++ k :: post
             /\ P !! k = Some p /\ R !! k = Some r /\ T !! k = Some bias'
             /\ degenerate p r = false
             /\ f1' = f_measure p r /\ (f1 < f1')%Q
             /\ forall i p' r', i ∈ pre -> P !! i = Some p' ->
                  R !! i = Some r' -> degenerate p' r' = false ->
                  (f_measure p' r' < f1')%Q).
Proof.
  revert f1 bias. induction idx as [|i idx IH]; intros f1 bias Hidx.
  - exists f1, bias. split; [reflexivity|]. split; [apply Qle_refl|].
    split; [intros i p r Hi; inversion Hi|left; split; reflexivity].
  - destruct (Hidx i) as ([p Hp] & [r Hr] & [t Ht]); [left|].
    assert (Hidx' : forall k, k ∈ idx ->
              is_Some (P !! k) /\ is_Some (R !! k) /\ is_Some (T !! k))
      by (intros k Hk; apply Hidx; right; exact Hk).
    cbn [F1Bias.threshold_loop]. rewrite Hp, Hr.
    cbn [of_option mbind py_bind].
    fold (degenerate p r). fold (f_measure p r).
    destruct (degenerate p r) eqn:Hdeg; cbn [negb].
    + destruct (IH f1 bias Hidx') as (f1' & b' & Hl & Hle & Hmax & Hwho).
      exists f1', b'. split; [exact Hl|]. split; [exact Hle|]. split.
      * intros k p0 r0 Hk Hp0 Hr0 Hnd.
        apply elem_of_cons in Hk as [->|Hk]; [|eapply Hmax; eassumption].
        rewrite Hp in Hp0. rewrite Hr in Hr0. congruence.
      * destruct Hwho as [Hsame|(pre & k & post & pk & rk & -> & H)];
          [left; exact Hsame|right].
        exists (i :: pre), k, post, pk, rk.
        destruct H as (H1 & H2 & H3 & H4 & H5 & H6 & H7).
        repeat (split; [assumption || reflexivity|]).
        intros k0 p0 r0 Hk0 Hp0 Hr0 Hnd.
        apply elem_of_cons in Hk0 as [->|Hk0]; [|eapply H7; eassumption].
        rewrite Hp in Hp0. rewrite Hr in Hr0. congruence.
    + destruct (Qlt_bool f1 (f_measure p r)) eqn:Hlt.
      * apply Qlt_bool_true in Hlt. rewrite Ht. cbn [of_option mbind py_bind].
        destruct (IH (f_measure p r) t Hidx')
          as (f1' & b' & Hl & Hle & Hmax & Hwho).
        exists f1', b'. split; [exact Hl|]. split.
        { apply Qlt_le_weak. eapply Qlt_le_trans; eassumption. }
        split.
        { intros k p0 r0 Hk Hp0 Hr0 Hnd.
          apply elem_of_cons in Hk as [->|Hk]; [|eapply Hmax; eassumption].
          rewrite Hp in Hp0. rewrite Hr in Hr0.
          injection Hp0 as <-. injection Hr0 as <-. exact Hle. }
        right. destruct Hwho as [[-> ->]|(pre & k & post & pk & rk & -> & H)].
        { exists [], i, idx, p, r. repeat (split; [assumption || reflexivity|]).
          intros k0 p0 r0 Hk0. inversion Hk0. }
        exists (i :: pre), k, post, pk, rk.
        destruct H as (H1 & H2 & H3 & H4 & H5 & H6 & H7).
        repeat (split; [assumption || reflexivity|]).
        split; [eapply Qlt_trans; eassumption|].
        intros k0 p0 r0 Hk0 Hp0 Hr0 Hnd.
        apply elem_of_cons in Hk0 as [->|Hk0]; [|eapply H7; eassumption].
        rewrite Hp in Hp0. rewrite Hr in Hr0.
        injection Hp0 as <-. injection Hr0 as <-. exact H6.
      * apply Qlt_bool_false in Hlt.
        destruct (IH f1 bias Hidx') as (f1' & b' & Hl & Hle & Hmax & Hwho).
        exists f1', b'. split; [exact Hl|]. split; [exact Hle|]. split.
        { intros k p0 r0 Hk Hp0 Hr0 Hnd.
          apply elem_of_cons in Hk as [->|Hk]; [|eapply Hmax; eassumption].
          rewrite Hp in Hp0. rewrite Hr in Hr0.
          injection Hp0 as <-. injection Hr0 as <-.
          eapply Qle_trans; eassumption. }
        destruct Hwho as [Hsame|(pre & k & post & pk & rk & -> & H)];
          [left; exact Hsame|right].
        exists (i :: pre), k, post, pk, rk.
        destruct H as (H1 & H2 & H3 & H4 & H5 & H6 & H7).
        repeat (split; [assumption || reflexivity|]).
        intros k0 p0 r0 Hk0 Hp0 Hr0 Hnd.
        apply elem_of_cons in Hk0 as [->|Hk0]; [|eapply H7; eassumption].
        rewrite Hp in Hp0. rewrite Hr in Hr0.
        injection Hp0 as <-. injection Hr0 as <-.
        eapply Qle_lt_trans; eassumption.
Qed.

Lemma seq_split_prefix (a n : nat) (pre post : list nat) (k : nat) :
  seq a n = pre ++ k :: post -> forall i, (a <= i < k)%nat -> i ∈ pre.
Proof.
  revert a n. induction pre as [|x pre IH]; intros a n H i Hi.
  - destruct n; [discriminate|]. cbn in H. injection H as -> _. lia.
  - destruct n; [discriminate|]. cbn in H. injection H as <- H.
    destruct (decide (i = a)) as [->|Hne]; [left|].
    right. apply (IH (S a) n H). lia.
Qed.

(** X5.  Given the curve arrays of the library, the f1 scorer returns
    the largest F1 value over the thresholds it does not skip, or 0 when
    none exceeds 0, with the first threshold that attains it (bias 0 when
    none does). *)
Theorem f1_bias_scorer_max (probs : list Q) (y : list Z)
    (precision recall thresholds : list Q) :
  precision_recall_curve y probs = Ok (precision, recall, thresholds) ->
  (length thresholds <= length precision)%nat ->
  (length thresholds <= length recall)%nat ->
  exists f1 bias,
    F1Bias.f1_bias_scorer_CV_bias precision_recall_curve probs y
    = Ok (f1, bias)
    /\ (0 <= f1)%Q
    /\ (forall i p r, (i < length thresholds)%nat ->
          precision !! i = Some p -> recall !! i = Some r ->
          degenerate p r = false -> (f_measure p r <= f1)%Q)
    /\ ((f1 = 0%Q /\ bias = 0%Q)
        \/ exists k p r,
             precision !! k = Some p /\ recall !! k = Some r
             /\ thresholds !! k = Some bias
             /\ degenerate p r = false
             /\ f1 = f_measure p r /\ (0 < f1)%Q
             /\ forall i p' r', (i < k)%nat -> precision !! i = Some p' ->
                  recall !! i = Some r' -> degenerate p' r' = false ->
                  (f_measure p' r' < f1)%Q).
Proof.
  intros Hcurve HP HR. unfold F1Bias.f1_bias_scorer_CV_bias.
  rewrite Hcurve. cbn [mbind py_bind].
  destruct (threshold_loop_spec precision recall thresholds
              (seq 0 (length thresholds)) 0%Q 0%Q)
    as (f1 & bias & Hl & Hle & Hmax & Hwho).
  { intros i Hi. apply elem_of_seq in Hi.
    repeat split; apply lookup_lt_is_Some_2; lia. }
  exists f1, bias. split; [exact Hl|]. split; [exact Hle|]. split.
  - intros i p r Hi. apply Hmax. apply elem_of_seq. lia.
  - destruct Hwho as [Hsame|(pre & k & post & p & r & Hseq & H)];
      [left; exact Hsame|right].
    destruct H as (H1 & H2 & H3 & H4 & H5 & H6 & H7).
    exists k, p, r. repeat (split; [assumption|]).
    intros i p' r' Hi. apply H7.
    apply (seq_split_prefix _ _ _ _ _ Hseq). lia.
Qed.

End F1Facts.

(** ** [cross_val_probs]: overlapping folds and bad indices *)

Section CrossValMore.

Context {AS : TwoBias.ArgSort}.
Context {feat param model : Type} {E : Estimator feat param model}.

(** X6.  When test sets overlap, the probability of a sample is the one
    written by the last fold, in the order of [cv], that tests it. *)
Theorem cross_val_probs_last_fold_wins (parameters : param)
    (X : list feat) (y : list Z) (cv pre post : list fold) (f : fold)
    (s : nat) :
  length X = length y ->
  folds_in_range (length y) cv ->
  cv = pre ++ f :: post ->
  s ∈ snd f ->
  (forall g, g ∈ post -> s ∉ snd g) ->
  exists out X_train y_train x,
    CrossVal.cross_val_probs parameters X y cv = Ok out
    /\ np_take X (fst f) = Ok X_train
    /\ np_take y (fst f) = Ok y_train
    /\ X !! s = Some x
    /\ out !! s
       = Some (predict_proba1 (est_fit parameters X_train y_train) x).
Proof.
  intros HX Hr Hcv Hs Hpost. unfold CrossVal.cross_val_probs.
  destruct (fold_loop_spec parameters X y cv (replicate (length y) 0%Q)
              (length y) HX eq_refl (length_replicate _ _) Hr)
    as [out (Hout & _ & _ & Hin)].
  destruct (Hin s pre f post Hcv Hs Hpost)
    as (X_train & y_train & x & H1 & H2 & H3 & H4).
  exists out, X_train, y_train, x. auto.
Qed.

Lemma py_mapM_raise {A B : Type} (f : A -> py B) (l : list A) (e : exn) :
  (forall a, a ∈ l -> (exists b, f a = Ok b) \/ f a = Raise e) ->
  (exists a, a ∈ l /\ f a = Raise e) ->
  py_mapM f l = Raise e.
Proof.
  induction l as [|a l IH]; intros Hall [x [Hx Hfx]]; [inversion Hx|].
  cbn [py_mapM].
  destruct (Hall a) as [[b Hb]|Hb]; [left| |rewrite Hb; reflexivity].
  rewrite Hb. cbn [mbind py_bind].
  apply elem_of_cons in Hx as [->|Hx]; [congruence|].
  rewrite IH; [reflexivity| |eauto].
  intros a' Ha'. apply Hall. right. exact Ha'.
Qed.

Lemma np_take_out_of_range {A : Type} (a : list A) (idx : list nat) :
  (exists i, i ∈ idx /\ (length a <= i)%nat) ->
  np_take a idx = Raise IndexError.
Proof.
  intros [i [Hi Hge]]. apply py_mapM_raise.
  - intros k _. destruct (a !! k); [left; eauto|right; reflexivity].
  - exists i. split; [exact Hi|].
    rewrite (proj2 (lookup_ge_None a i) Hge). reflexivity.
Qed.

Lemma indices_in_range_dec (n : nat) (idx : list nat) :
  (forall i, i ∈ idx -> (i < n)%nat)
  \/ exists i, i ∈ idx /\ (n <= i)%nat.
Proof.
  induction idx as [|k idx [IH|[i [Hi Hge]]]].
  - left. intros i Hi. inversion Hi.
  - destruct (decide (k < n)%nat) as [Hk|Hk].
    + left. intros i Hi. apply elem_of_cons in Hi as [->|Hi]; auto.
    + right. exists k. split; [left|lia].
  - right. exists i. split; [right; exact Hi|exact Hge].
Qed.

Lemma fold_loop_bad_index (parameters : param) (X : list feat) (y : list Z)
    (cv : list fold) (pv : list Q) (n : nat) :
  length X = n -> length y = n -> length pv = n ->
  (exists f i, f ∈ cv /\ (i ∈ fst f \/ i ∈ snd f) /\ (n <= i)%nat) ->
  CrossVal.fold_loop parameters X y cv pv = Raise IndexError.
Proof.
  intros HX Hy. revert pv.
  induction cv as [|[train test] cv IH]; intros pv Hpv [f [i [Hf [Hi Hge]]]];
    [inversion Hf|].
  cbn [CrossVal.fold_loop].
  destruct (indices_in_range_dec n train) as [Htr|Htr].
  2:{ rewrite (np_take_out_of_range X train) by (rewrite HX; exact Htr).
      reflexivity. }
  destruct (np_take_total X train) as [X_train HXtr];
    [intros k Hk; rewrite HX; auto|].
  destruct (np_take_total y train) as [y_train Hytr];
    [intros k Hk; rewrite Hy; auto|].
  rewrite HXtr. cbn [mbind py_bind]. rewrite Hytr. cbn [mbind py_bind].
  destruct (indices_in_range_dec n test) as [Hte|Hte].
  2:{ rewrite (np_take_out_of_range X test) by (rewrite HX; exact Hte).
      reflexivity. }
  destruct (np_take_total X test) as [X_test HXte];
    [intros k Hk; rewrite HX; auto|].
  rewrite HXte. cbn [mbind py_bind].
  destruct (np_put_total pv test
              (map (predict_proba1 (est_fit parameters X_train y_train)) X_test))
    as [pv' [Hput Hlen']].
  { intros k Hk. rewrite Hpv. auto. }
  { rewrite length_map. symmetry. apply (py_mapM_length _ _ _ HXte). }
  rewrite Hput. cbn [mbind py_bind].
  apply IH; [rewrite Hlen'; exact Hpv|].
  apply elem_of_cons in Hf as [->|Hf]; [|eauto 6].
  exfalso. cbn [fst snd] in Hi. destruct Hi as [Hi|Hi];
    [apply Htr in Hi|apply Hte in Hi]; lia.
Qed.

(** X7.  If some fold has a train or test index that addresses no
    sample, the call raises IndexError. *)
Theorem cross_val_probs_bad_index (parameters : param)
    (X : list feat) (y : list Z) (cv : list fold) (f : fold) (i : nat) :
  length X = length y ->
  f ∈ cv -> i ∈ fst f \/ i ∈ snd f -> (length y <= i)%nat ->
  CrossVal.cross_val_probs parameters X y cv = Raise IndexError.
Proof.
  intros HX Hf Hi Hge. unfold CrossVal.cross_val_probs.
  apply (fold_loop_bad_index parameters X y cv _ (length y) HX eq_refl
           (length_replicate _ _)).
  exists f, i. auto.
Qed.

(** X8.  With the two-bias scorer and folds whose indices address
    samples, [cv_fit_and_score] returns the parameters it was given with
    a score in [-1, 0). *)
Theorem cv_fit_and_score_two_bias (parameters : param)
    (X : list feat) (y : list Z) (cv : list fold) :
  length X = length y ->
  folds_in_range (length y) cv ->
  exists score,
    CvFit.cv_fit_and_score X y TwoBias.two_bias_scorer_CV parameters cv
    = Ok (score, parameters)
    /\ (-1 <= score)%Q /\ (score < 0)%Q.
Proof.
  intros HX Hr. unfold CvFit.cv_fit_and_score, CrossVal.cross_val_probs.
  destruct (fold_loop_spec parameters X y cv (replicate (length y) 0%Q)
              (length y) HX eq_refl (length_replicate _ _) Hr)
    as [out (Hout & Hlen & _)].
  rewrite Hout. cbn [mbind py_bind].
  unfold TwoBias.two_bias_scorer_CV, TwoBias.run.
  rewrite (proj2 (Nat.eqb_eq _ _) Hlen). cbn [mbind py_bind].
  eexists. split; [reflexivity|]. split.
  - change (-1)%Q with (- (1))%Q. apply Qopp_le_compat.
    apply scan_rows_minloss_le.
  - pose proof (scan_rows_minloss_positive
                  (TwoBias.sort_rows (combine out y))) as H.
    apply Qopp_lt_compat in H. exact H.
Qed.

End CrossValMore.

(** ** The searches: aggregation in closed form, totality, edge cases *)

Section SearchMore.

Context {FA : FloatArith}.
Context {feat param model : Type} {E : Estimator feat param model}.

Local Abbreviation fit_result := (@Search.fit_result param).
Local Abbreviation cv_score_tuple := (@Search.cv_score_tuple param).

Lemma block_loop_closed (iid : bool) (block : list fit_result)
    (st : Search.block_state) :
  Search.blk_score (Search.block_loop iid block st)
  = fold_left (fun s r => fadd s (Blocks.fold_term iid r)) block
      (Search.blk_score st)
  /\ Search.blk_n_test_samples (Search.block_loop iid block st)
     = (if iid
        then fold_left (fun k r => (k + Search.n_test_samples r)%nat) block
               (Search.blk_n_test_samples st)
        else Search.blk_n_test_samples st).
Proof.
  revert st. induction block as [|r block IH]; intros st.
  - split; [reflexivity|]. destruct iid; reflexivity.
  - cbn [Search.block_loop fold_left]. destruct (IH
      (Search.mkBlock
         (if iid then (Search.blk_n_test_samples st + Search.n_test_samples r)%nat
          else Search.blk_n_test_samples st)
         (fadd (Search.blk_score st)
            (if iid
             then fmul (Search.test_score r)
                    (inject_Z (Z.of_nat (Search.n_test_samples r)))
             else Search.test_score r))
         (Search.blk_all_scores st ++ [Search.test_score r])
         (Some (Search.parameters r)))) as [Hs Hn].
    rewrite Hs, Hn. cbn [Search.blk_score Search.blk_n_test_samples].
    unfold Blocks.fold_term. destruct iid; split; reflexivity.
Qed.

Lemma grid_loop_closed (iid : bool) (n : nat) (out : list fit_result)
    (starts : list nat) (pv : option param)
    (acc gs : list cv_score_tuple) :
  Search.grid_loop iid n out starts pv acc = Ok gs ->
  exists gs',
    gs = acc ++ gs' /\ length gs' = length starts
    /\ forall b s g, starts !! b = Some s -> gs' !! b = Some g ->
         Search.cv_validation_scores g
         = map Search.test_score (take n (drop s out))
         /\ Search.mean_validation_score g
            = Blocks.block_mean iid n (take n (drop s out))
         /\ (iid = true -> Blocks.block_tests (take n (drop s out)) <> 0%nat).
Proof.
  revert pv acc. induction starts as [|s0 starts IH]; intros pv acc H.
  - cbn in H. injection H as <-. exists []. rewrite app_nil_r.
    split; [reflexivity|]. split; [reflexivity|]. intros b s g Hb. discriminate.
  - cbn [Search.grid_loop] in H.
    destruct (block_loop_closed iid (take n (drop s0 out))
                (Search.mkBlock 0 0%Q [] pv)) as [Hs Hn].
    cbn [Search.blk_score Search.blk_n_test_samples] in Hs, Hn.
    fold (Blocks.block_tests (take n (drop s0 out))) in Hn.
    set (st := Search.block_loop iid (take n (drop s0 out))
                 (Search.mkBlock 0 0%Q [] pv)) in *.
    assert (Hscore :
              (if iid
               then if Nat.eqb (Search.blk_n_test_samples st) 0
                    then Raise ZeroDivisionError
                    else Ok (fdiv (Search.blk_score st)
                               (inject_Z (Z.of_nat
                                  (Search.blk_n_test_samples st))))
               else Ok (fdiv (Search.blk_score st) (inject_Z (Z.of_nat n))))
              = Ok (Blocks.block_mean iid n (take n (drop s0 out)))
              /\ (iid = true
                  -> Blocks.block_tests (take n (drop s0 out)) <> 0%nat)).
    { unfold Blocks.block_mean. fold (Blocks.block_tests (take n (drop s0 out))).
      rewrite Hs, Hn. destruct iid.
      - destruct (Nat.eqb_spec (Blocks.block_tests (take n (drop s0 out))) 0)
          as [Hz|Hz].
        + rewrite Hn, Hz in H. discriminate H.
        + split; [reflexivity|]. intros _. exact Hz.
      - split; [reflexivity|]. discriminate. }
    destruct Hscore as [Hscore Htests]. rewrite Hscore in H.
    cbn [mbind py_bind] in H.
    destruct (Search.blk_parameters st) as [p|]; cbn in H; [|discriminate].
    apply IH in H as (gs' & -> & Hlen & Hat).
    eexists (_ :: gs'). split; [rewrite <- app_assoc; reflexivity|].
    split; [cbn; rewrite Hlen; reflexivity|].
    intros b s g Hb Hg. destruct b as [|b]; [|eapply Hat; eassumption].
    cbn in Hb, Hg. injection Hb as <-. injection Hg as <-.
    cbn [Search.cv_validation_scores Search.mean_validation_score].
    subst st. rewrite block_loop_all_scores.
    split; [reflexivity|]. split; [reflexivity|exact Htests].
Qed.

(** X9.  Whenever the grouping returns, each grid score carries the
    test scores of its block of [out] in fold order, and its mean is
    their sum from 0 in that order divided by the number of folds, or,
    with [iid], the sum of the scores times the test sizes divided by
    the number of test samples of the block, which is then not 0. *)
Theorem aggregate_closed_form (iid : bool) (n_folds : nat)
    (out : list fit_result) (gs : list cv_score_tuple)
    (b : nat) (g : cv_score_tuple) :
  Search.aggregate iid n_folds out = Ok gs ->
  gs !! b = Some g ->
  Search.cv_validation_scores g
  = map Search.test_score (Blocks.block_of n_folds out b)
  /\ Search.mean_validation_score g
     = Blocks.block_mean iid n_folds (Blocks.block_of n_folds out b)
  /\ (iid = true
      -> Blocks.block_tests (Blocks.block_of n_folds out b) <> 0%nat).
Proof.
  unfold Search.aggregate, Search.grid_starts. intros H Hg.
  destruct (Nat.eqb n_folds 0); [discriminate|]. cbn [mbind py_bind] in H.
  apply grid_loop_closed in H as (gs' & -> & Hlen & Hat).
  cbn [app] in Hg. unfold Blocks.block_of.
  apply (Hat b (b * n_folds)%nat g); [|exact Hg].
  rewrite map_lookup. rewrite length_map, length_seq in Hlen.
  rewrite lookup_seq_lt; [reflexivity|].
  rewrite <- Hlen. eapply lookup_lt_Some. exact Hg.
Qed.

Lemma make_param_grid_elem (ps : list param) (cv : list fold)
    (w : Search.work_item) :
  w ∈ Search.make_param_grid ps cv ->
  exists p f, p ∈ ps /\ f ∈ cv /\ w = (p, fst f, snd f).
Proof.
  unfold Search.make_param_grid. intros Hw.
  apply list_elem_of_In, in_flat_map in Hw as [p [Hp Hw]].
  apply in_map_iff in Hw as [f [<- Hf]].
  exists p, f. split; [|split]; [apply list_elem_of_In..|reflexivity];
    assumption.
Qed.

Lemma local_fit_total (X : list feat) (y : list Z)
    (scorer : Search.sk_scorer) (elapsed : nat -> Q) (cv : list fold)
    (idx : nat) (p : param) (f : fold) :
  length X = length y -> folds_in_range (length y) cv -> f ∈ cv ->
  exists r, Search.local_fit X y scorer elapsed (idx, (p, fst f, snd f))
            = Ok (idx, r).
Proof.
  intros HX Hr Hf. destruct (Hr f Hf) as [Htr Hte].
  unfold Search.local_fit, Search.fit_and_score.
  destruct (np_take_total X (fst f)) as [a Ha];
    [intros i Hi; rewrite HX; auto|].
  destruct (np_take_total y (fst f)) as [b Hb]; [auto|].
  destruct (np_take_total X (snd f)) as [c Hc];
    [intros i Hi; rewrite HX; auto|].
  destruct (np_take_total y (snd f)) as [d Hd]; [auto|].
  rewrite Ha, Hb, Hc, Hd. cbn. eauto.
Qed.

Lemma parallel_fits_total (X : list feat) (y : list Z)
    (scorer : Search.sk_scorer) (elapsed : nat -> Q)
    (ps : list param) (cv : list fold) :
  length X = length y -> folds_in_range (length y) cv ->
  exists pairs,
    py_mapM (Search.local_fit X y scorer elapsed)
      (Search.index_grid (Search.make_param_grid ps cv)) = Ok pairs.
Proof.
  intros HX Hr. apply py_mapM_total. intros [idx w] Hin.
  apply list_elem_of_lookup in Hin as [i Hi].
  rewrite index_grid_lookup in Hi.
  destruct (Search.make_param_grid ps cv !! i) as [w'|] eqn:Hw;
    [|discriminate].
  cbn in Hi. injection Hi as <- <-.
  assert (Hel : w' ∈ Search.make_param_grid ps cv)
    by (apply list_elem_of_lookup; eauto).
  apply make_param_grid_elem in Hel as (p & f & _ & Hf & ->).
  destruct (local_fit_total X y scorer elapsed cv i p f HX Hr Hf) as [r Hr'].
  eauto.
Qed.

Lemma permuted_results_aggregate (parameter_iterable : list param)
    (cv : list fold) (X : list feat) (y : list Z)
    (scorer : Search.sk_scorer) (elapsed : nat -> Q) (iid : bool)
    (pairs collected : list (nat * fit_result)) :
  cv <> [] ->
  py_mapM (Search.local_fit X y scorer elapsed)
    (Search.index_grid (Search.make_param_grid parameter_iterable cv))
  = Ok pairs ->
  collected ≡ₚ pairs ->
  (iid = true -> exists f, f ∈ cv /\ snd f <> []) ->
  exists gs,
    Search.reassemble
      (length (Search.make_param_grid parameter_iterable cv)) collected
    = Ok (map snd pairs)
    /\ Search.aggregate iid (length cv) (map snd pairs) = Ok gs
    /\ map Search.cvs_parameters gs = parameter_iterable.
Proof.
  intros Hcv Hm Hperm Htest.
  destruct (local_fit_pairs _ _ _ _ _ _ Hm) as [Hidx Hpar].
  destruct (fitted_results_aggregate parameter_iterable cv X y scorer
              elapsed iid pairs Hcv Hm) as [Hps Hret].
  destruct (Hret Htest) as [gs Hgs].
  exists gs. split; [|split; [exact Hgs|exact (Hps gs Hgs)]].
  replace (length (Search.make_param_grid parameter_iterable cv))
    with (length (map snd pairs)).
  - apply reassemble_permuted. rewrite <- Hidx. exact Hperm.
  - rewrite <- (length_map Search.parameters), Hpar, length_map.
    reflexivity.
Qed.

Lemma select_best_elem (gs : list cv_score_tuple) :
  gs <> [] -> exists best, Search.select_best gs = Ok best /\ best ∈ gs.
Proof.
  intros Hne. unfold Search.select_best.
  pose proof (sorted_desc_perm gs) as Hperm.
  destruct (Search.sorted_desc gs) as [|best l] eqn:Hs.
  - apply Permutation_nil in Hperm. congruence.
  - exists best. split; [reflexivity|]. rewrite <- Hperm. left.
Qed.

(** X10.  On data and folds that fit together (as many labels as rows,
    every fold index addressing a row), with at least one fold and one
    parameter setting, with some test sample in the folds when [iid] is
    set, and an estimator whose methods return, [fit] returns whatever
    order the parallel map delivers its results in, and returns what the
    in-order run returns: one grid score per setting in generation
    order, the best setting taken from the iterable, and, with [refit],
    the estimator refitted on the whole data with it. *)
Theorem search_fit_returns (cfg : Search.search_config)
    (parameter_iterable : list param) (elapsed : nat -> Q)
    (deliver : list (nat * fit_result) -> list (nat * fit_result))
    (X : list feat) (y : list Z) :
  length X = length y ->
  folds_in_range (length y) (Search.cv cfg) ->
  Search.cv cfg <> [] ->
  parameter_iterable <> [] ->
  (Search.iid cfg = true ->
   exists f, f ∈ Search.cv cfg /\ snd f <> []) ->
  (forall l, deliver l ≡ₚ l) ->
  exists fs best,
    Search.fit cfg parameter_iterable elapsed deliver X y = Ok fs
    /\ Search.fit cfg parameter_iterable elapsed (fun l => l) X y = Ok fs
    /\ map Search.cvs_parameters (Search.grid_scores_ fs) = parameter_iterable
    /\ Search.select_best (Search.grid_scores_ fs) = Ok best
    /\ Search.best_params_ fs = Search.cvs_parameters best
    /\ Search.best_score_ fs = Search.mean_validation_score best
    /\ Search.best_params_ fs ∈ parameter_iterable
    /\ Search.best_estimator_ fs
       = (if Search.refit cfg
          then Some (est_fit (Search.best_params_ fs) X y) else None).
Proof.
  intros HX Hr Hcv Hps Htest Hdel.
  destruct (parallel_fits_total X y (Search.check_scoring (Search.scoring cfg))
              elapsed parameter_iterable (Search.cv cfg) HX Hr)
    as [pairs Hpairs].
  destruct (permuted_results_aggregate parameter_iterable (Search.cv cfg)
              X y _ elapsed (Search.iid cfg) pairs (deliver pairs) Hcv Hpairs
              (Hdel pairs) Htest) as (gs & Hre & Hag & Hpar).
  destruct (permuted_results_aggregate parameter_iterable (Search.cv cfg)
              X y _ elapsed (Search.iid cfg) pairs pairs Hcv Hpairs
              (reflexivity _) Htest) as (gs' & Hre' & Hag' & _).
  assert (gs' = gs) by congruence. subst gs'.
  assert (Hne : gs <> []).
  { intros ->. cbn in Hpar. congruence. }
  destruct (select_best_elem gs Hne) as (best & Hbest & Hi).
  eexists _, best.
  assert (Hfit : forall d, (d pairs = deliver pairs \/ d pairs = pairs) ->
            Search.fit cfg parameter_iterable elapsed d X y
            = Ok (Search.mkFitted gs (Search.cvs_parameters best)
                    (Search.mean_validation_score best)
                    (if Search.refit cfg
                     then Some (est_fit (Search.cvs_parameters best) X y)
                     else None))).
  { intros d Hd. unfold Search.fit.
    rewrite (proj2 (Nat.eqb_eq _ _) (eq_sym HX)). cbn [negb].
    unfold Search.parallel_map. rewrite Hpairs. cbn [mbind py_bind].
    unfold Search.fit_collected.
    destruct Hd as [-> | ->]; [rewrite Hre|rewrite Hre'];
      cbn [mbind py_bind]; rewrite Hag; cbn [mbind py_bind];
      rewrite Hbest; reflexivity. }
  split; [apply Hfit; left; reflexivity|].
  split; [apply Hfit; right; reflexivity|].
  cbn. split; [exact Hpar|]. split; [exact Hbest|].
  split; [reflexivity|]. split; [reflexivity|]. split; [|reflexivity].
  rewrite <- Hpar. apply list_elem_of_In, in_map, list_elem_of_In.
  exact Hi.
Qed.

(** X11.  If an index below [n] is the key of no collected pair, the
    reassembly raises KeyError. *)
Theorem reassemble_missing_index {A : Type} (n : nat)
    (collected : list (nat * A)) (k : nat) :
  (k < n)%nat -> k ∉ collected.*1 ->
  Search.reassemble n collected = Raise KeyError.
Proof.
  intros Hk Hmiss. unfold Search.reassemble. apply py_mapM_raise.
  - intros i _. destruct (Search.dict_of_pairs collected !! i);
      [left; eauto|right; reflexivity].
  - exists k. split; [apply elem_of_seq; lia|].
    unfold Search.dict_of_pairs.
    rewrite dict_fold_absent by exact Hmiss. rewrite lookup_empty.
    reflexivity.
Qed.

End SearchMore.

(** ** The end of [main]: which models are saved, who is classified *)

Section ReportFacts.

Context {FA : FloatArith} {AS : TwoBias.ArgSort}.
Context {feat param model : Type} {E : Estimator feat param model}.

Variable precision_recall_curve :
  list Z -> list Q -> py (list Q * list Q * list Q).

Local Abbreviation main := (Main.main precision_recall_curve).

(** X12.  With the f1 scorer [main] always saves a model once the scorer
    has returned: the bias is a single threshold, never the empty list,
    even when the best F1 is 0. *)
Theorem main_f1_always_saves (w : Main.search_arg)
    (grid_iterable sampler_iterable : list param) (elapsed : nat -> Q)
    (deliver : list (nat * Search.fit_result) -> list (nat * Search.fit_result))
    (X : list feat) (y : list Z) (lkf : list fold) (out : Main.main_output) :
  main Main.ScorerF1 w grid_iterable sampler_iterable elapsed deliver X y lkf
  = Ok out ->
  exists t, Main.out_bias out = Main.BiasThreshold t
            /\ Main.out_report out = Main.SaveModel (Main.BiasThreshold t).
Proof.
  intros H.
  destruct (main_steps _ _ _ _ _ _ _ _ _ _ _ H) as (_ & _ & Hs & Hr).
  unfold Main.select_scorer in Hs.
  destruct (F1Bias.f1_bias_scorer_CV_bias _ _ _) as [[f1 t]|e];
    cbn in Hs; [|discriminate].
  injection Hs as _ Hb. exists t. rewrite Hr, <- Hb. split; reflexivity.
Qed.

(** X13.  With the two-bias scorer [main] reports that the results are
    not good exactly when no cut is feasible on the out-of-fold
    probabilities, taken in the order the sort leaves them in;
    otherwise it saves a model with a bias pair [lo <= hi]. *)
Theorem main_two_bias_report (w : Main.search_arg)
    (grid_iterable sampler_iterable : list param) (elapsed : nat -> Q)
    (deliver : list (nat * Search.fit_result) -> list (nat * Search.fit_result))
    (X : list feat) (y : list Z) (lkf : list fold) (out : Main.main_output) :
  main Main.ScorerTwoBias w grid_iterable sampler_iterable elapsed deliver
    X y lkf = Ok out ->
  (Main.out_report out = Main.ResultsNotGood
   <-> Cuts.feasible (TwoBias.sort_rows (combine (Main.out_cv_probs out) y))
       = false)
  /\ (Main.out_report out = Main.ResultsNotGood
      \/ exists lo hi,
           Main.out_report out = Main.SaveModel (Main.BiasList [lo; hi])
           /\ (lo <= hi)%Q).
Proof.
  intros H.
  destruct (main_steps _ _ _ _ _ _ _ _ _ _ _ H) as (_ & _ & Hs & Hr).
  unfold Main.select_scorer in Hs.
  destruct (TwoBias.two_bias_scorer_CV_bias (Main.out_cv_probs out) y)
    as [[s b]|e] eqn:Hb; cbn in Hs; [|discriminate].
  injection Hs as _ Hbo.
  unfold TwoBias.two_bias_scorer_CV_bias, TwoBias.run in Hb.
  destruct (Nat.eqb_spec (length (Main.out_cv_probs out)) (length y))
    as [Hlen|]; [|discriminate].
  cbn [mbind py_bind] in Hb. injection Hb as _ Hb.
  pose proof (scan_rows_bias_shape (Main.out_cv_probs out) y) as Hshape.
  assert (Hiff : b = []
                 <-> Cuts.feasible
                       (TwoBias.sort_rows (combine (Main.out_cv_probs out) y))
                     = false).
  { rewrite <- Hb. split.
    - intros Hnil. destruct (Cuts.feasible _) eqn:Hf; [|reflexivity].
      exfalso. exact (scan_rows_feasible _ Hf Hnil).
    - intros Hf. apply scan_rows_infeasible, Hf. }
  rewrite Hb in Hshape.
  rewrite Hr, <- Hbo. unfold Main.report_model. split.
  - rewrite <- Hiff. destruct b; cbn; split; congruence.
  - destruct Hshape as [->|(lo & hi & -> & Hle & _)]; [left; reflexivity|].
    right. exists lo, hi. split; [reflexivity|exact Hle].
Qed.

End ReportFacts.

Lemma classified_all (probs : list Q) (t : Q) (a : nat) (l : list Q) :
  (forall k, (k < length l)%nat -> probs !! (a + k)%nat = l !! k) ->
  List.filter
    (fun k => match probs !! k with
              | Some p => Qle_bool p t || Qle_bool t p
              | None => false
              end) (seq a (length l))
  = seq a (length l).
Proof.
  revert a. induction l as [|p l IH]; intros a H; [reflexivity|].
  cbn [length seq List.filter].
  pose proof (H 0%nat ltac:(cbn; lia)) as H0.
  rewrite Nat.add_0_r in H0. rewrite H0. cbn [lookup list_lookup].
  assert (Htot : Qle_bool p t || Qle_bool t p = true).
  { destruct (Qle_bool p t) eqn:H1; [reflexivity|]. cbn.
    apply Qle_bool_iff. apply Qlt_le_weak. apply Qnot_le_lt. intros Hle.
    apply Qle_bool_iff in Hle. congruence. }
  rewrite Htot. f_equal. apply IH. intros k Hk.
  replace (S a + k)%nat with (a + S k)%nat by lia.
  apply (H (S k)). cbn. lia.
Qed.

(** X14.  With a zero-width bias [[t, t]] the two-bias branch of the
    report classifies every sample and counts none as lost. *)
Theorem classify_zero_width_loses_none (CV_probs : list Q) (t : Q) :
  exists predicted,
    Report.classify_two_bias CV_probs [t; t]
    = Ok (seq 0 (length CV_probs), predicted)
    /\ predicted = map (Report.at_least t) CV_probs
    /\ Report.lost (length CV_probs) (seq 0 (length CV_probs)) = 0.
Proof.
  unfold Report.classify_two_bias. cbn [lookup list_lookup of_option].
  cbn [mbind py_bind].
  rewrite (classified_all CV_probs t 0 CV_probs) by (intros k _; reflexivity).
  assert (Htake : np_take CV_probs (seq 0 (length CV_probs)) = Ok CV_probs).
  { apply py_mapM_seq_lookup. intros i r Hi. cbn. rewrite Hi. reflexivity. }
  rewrite Htake. cbn [mbind py_bind]. eexists. split; [reflexivity|].
  split; [reflexivity|]. unfold Report.lost. rewrite length_seq. lia.
Qed.

(** ** Preparation of the data *)

Section PrepFacts.
Import Prep PrepSpec.

Lemma marks_loop_spec (marks : list mark) (pid s : Z) (acc : list string) :
  marks_loop marks pid s (s + 60000) acc
  = acc ++ map mark_label (List.filter (qualifies pid s) marks).
Proof.
  revert acc; induction marks as [|[[[id gt] st] et] marks IH]; intros acc.
  - cbn. now rewrite app_nil_r.
  - cbn [marks_loop List.filter qualifies].
    destruct (id =? pid); cbn [andb].
    2: apply IH.
    destruct (String.eqb gt "c7"); cbn [negb andb].
    1: apply IH.
    destruct (st <? s); cbn [andb].
    2: apply IH.
    destruct (s + 60000 <? et).
    + rewrite IH. cbn [map mark_label]. now rewrite <- app_assoc.
    + apply IH.
Qed.

Lemma counter_get_add (x : string) (c : list (string * nat)) (k : string) :
  counter_get (counter_add x c) k
  = if String.eqb x k then S (counter_get c k) else counter_get c k.
Proof.
  induction c as [|[k' n] c IH]; cbn.
  - reflexivity.
  - destruct (String.eqb k' x) eqn:E; cbn.
    + apply String.eqb_eq in E. subst k'.
      destruct (String.eqb x k); reflexivity.
    + destruct (String.eqb k' k) eqn:E'.
      * apply String.eqb_eq in E'. subst k'. now rewrite String.eqb_sym, E.
      * exact IH.
Qed.

Lemma counter_add_keys (x : string) (c : list (string * nat)) :
  (counter_add x c).*1 = c.*1 ∧ x ∈ c.*1
  ∨ (counter_add x c).*1 = c.*1 ++ [x] ∧ x ∉ c.*1.
Proof.
  induction c as [|[k' n] c IH]; cbn.
  - right. split; [reflexivity|]. apply not_elem_of_nil.
  - destruct (String.eqb k' x) eqn:E; cbn.
    + apply String.eqb_eq in E. subst. left. split; [reflexivity|]. left.
    + apply String.eqb_neq in E.
      destruct IH as [[-> H]|[-> H]].
      * left. split; [reflexivity|]. now right.
      * right. split; [reflexivity|]. rewrite not_elem_of_cons. split; congruence.
Qed.

Lemma counter_add_NoDup (x : string) (c : list (string * nat)) :
  NoDup c.*1 → NoDup (counter_add x c).*1.
Proof.
  intros H. destruct (counter_add_keys x c) as [[-> _]|[-> Hx]]; [exact H|].
  apply NoDup_app. split; [exact H|]. split.
  - intros y Hy Hy'. apply list_elem_of_singleton in Hy'. now subst.
  - apply NoDup_singleton.
Qed.

Lemma counter_get_elem (c : list (string * nat)) (k : string) (n : nat) :
  NoDup c.*1 → (k, n) ∈ c → counter_get c k = n.
Proof.
  induction c as [|[k' n'] c IH]; cbn; intros Hnd Hin.
  - now apply elem_of_nil in Hin.
  - apply NoDup_cons in Hnd as [Hk' Hnd].
    apply elem_of_cons in Hin as [Heq|Hin].
    + injection Heq as -> ->. now rewrite String.eqb_refl.
    + destruct (String.eqb k' k) eqn:E.
      * apply String.eqb_eq in E. subst k'. exfalso. apply Hk'.
        apply list_elem_of_fmap. now exists (k, n).
      * now apply IH.
Qed.

Lemma counter_elem_get (c : list (string * nat)) (k : string) :
  k ∈ c.*1 → (k, counter_get c k) ∈ c.
Proof.
  induction c as [|[k' n'] c IH]; cbn; intros Hin.
  - now apply elem_of_nil in Hin.
  - destruct (String.eqb k' k) eqn:E.
    + apply String.eqb_eq in E. subst. left.
    + apply String.eqb_neq in E. apply elem_of_cons in Hin as [->|Hin]; [congruence|].
      right. now apply IH.
Qed.

Lemma Counter_fold (l : list string) (c : list (string * nat)) :
  NoDup c.*1 →
  let c' := fold_left (fun c x => counter_add x c) l c in
  NoDup c'.*1
  ∧ (∀ k, counter_get c' k = (counter_get c k + cnt k l)%nat)
  ∧ (∀ k, k ∈ c'.*1 ↔ k ∈ c.*1 ∨ k ∈ l).
Proof.
  revert c; induction l as [|x l IH]; intros c Hnd; cbn [fold_left].
  - cbn. split; [exact Hnd|]. split.
    + intros k. unfold cnt. cbn. lia.
    + intros k. rewrite elem_of_nil. tauto.
  - destruct (IH (counter_add x c) (counter_add_NoDup x c Hnd))
      as (H1 & H2 & H3).
    cbn. split; [exact H1|]. split.
    + intros k. rewrite H2, counter_get_add. unfold cnt. cbn [List.filter].
      rewrite (String.eqb_sym k x).
      destruct (String.eqb x k); cbn [length]; lia.
    + intros k. rewrite H3, elem_of_cons.
      destruct (counter_add_keys x c) as [[-> Hx]|[-> Hx]].
      * split; [tauto|]. intros [H|[->|H]]; tauto.
      * rewrite elem_of_app, list_elem_of_singleton. tauto.
Qed.

Lemma Counter_spec (l : list string) :
  NoDup (Counter l).*1
  ∧ (∀ k, counter_get (Counter l) k = cnt k l)
  ∧ (∀ k, k ∈ (Counter l).*1 ↔ k ∈ l).
Proof.
  destruct (Counter_fold l [] (NoDup_nil_2)) as (H1 & H2 & H3).
  split; [exact H1|]. split.
  - intros k. unfold Counter. exact (H2 k).
  - intros k. unfold Counter. etransitivity; [exact (H3 k)|].
    cbn. rewrite elem_of_nil. tauto.
Qed.

Lemma most_common_fold (c : list (string * nat)) (e : string * nat) :
  let best := fold_left
                (fun best e' => if (snd best <? snd e')%nat then e' else best)
                c e in
  best ∈ e :: c ∧ (snd e <= snd best)%nat
  ∧ ∀ e', e' ∈ c → (snd e' <= snd best)%nat.
Proof.
  revert e; induction c as [|e1 c IH]; intros e; cbn [fold_left].
  - cbn. split; [left|]. split; [lia|]. intros e' H.
    now apply elem_of_nil in H.
  - destruct (snd e <? snd e1)%nat eqn:E.
    + apply Nat.ltb_lt in E.
      destruct (IH e1) as (H1 & H2 & H3). cbn in *.
      split; [now right|]. split; [lia|].
      intros e' [->|H]%elem_of_cons; [exact H2|now apply H3].
    + apply Nat.ltb_ge in E.
      destruct (IH e) as (H1 & H2 & H3). cbn in *.
      split.
      * apply elem_of_cons in H1 as [->|H1]; [left|right; now right].
      * split; [exact H2|].
        intros e' [->|H]%elem_of_cons; [lia|now apply H3].
Qed.

Lemma cnt_votes (marks : list mark) (pid s : Z) (k : string) :
  cnt k (map mark_label (List.filter (qualifies pid s) marks))
  = votes marks pid s k.
Proof.
  unfold cnt, votes.
  induction marks as [|m marks IH]; cbn [List.filter map]; [reflexivity|].
  destruct (qualifies pid s m); cbn [andb map List.filter]; [|exact IH].
  destruct (String.eqb k (mark_label m)); cbn [length]; now rewrite IH.
Qed.

Lemma cnt_pos (k : string) (l : list string) : k ∈ l ↔ (0 < cnt k l)%nat.
Proof.
  unfold cnt. induction l as [|x l IH]; cbn [List.filter].
  - cbn. rewrite elem_of_nil. lia.
  - rewrite elem_of_cons. destruct (String.eqb k x) eqn:E.
    + apply String.eqb_eq in E. cbn. split; [lia|]. intros _. now left.
    + apply String.eqb_neq in E. rewrite <- IH. split; [|tauto].
      intros [H|H]; [congruence|exact H].
Qed.

Lemma votes_not_c7 (marks : list mark) (pid s : Z) :
  votes marks pid s "c7" = 0%nat.
Proof.
  unfold votes. induction marks as [|[[[id gt] st] et] marks IH];
    cbn [List.filter]; [reflexivity|].
  cbn [qualifies mark_label].
  destruct (String.eqb gt "c7") eqn:E.
  - rewrite andb_false_r. cbn [andb negb]. exact IH.
  - rewrite (String.eqb_sym "c7" gt), E, andb_false_r. exact IH.
Qed.

(** X15. [check_stress_mark] returns the empty list exactly when no mark
    of the participant other than a "c7" mark strictly contains the
    one-minute window; otherwise it returns one pair: a label other than
    "c7", with the number of such marks that carry it, and no label has
    more of them. *)
Theorem check_stress_mark_majority (marks : list mark) (pid s : Z) :
  (check_stress_mark marks pid s = []
   ∧ ∀ m, m ∈ marks → qualifies pid s m = false)
  ∨ ∃ gt, check_stress_mark marks pid s = [(gt, votes marks pid s gt)]
          ∧ gt ≠ "c7"
          ∧ (0 < votes marks pid s gt)%nat
          ∧ ∀ k, (votes marks pid s k <= votes marks pid s gt)%nat.
Proof.
  unfold check_stress_mark. rewrite marks_loop_spec. cbn [app].
  pose proof (cnt_votes marks pid s) as Hcv.
  set (l := map mark_label (List.filter (qualifies pid s) marks)) in *.
  destruct (Counter_spec l) as (Hnd & Hget & Hkeys).
  destruct (Counter l) as [|e c] eqn:Ec.
  - left. split; [reflexivity|]. intros m Hm.
    destruct (qualifies pid s m) eqn:Eq; [exfalso|reflexivity].
    assert (Hin : mark_label m ∈ l).
    { apply list_elem_of_fmap. exists m. split; [reflexivity|].
      apply list_elem_of_In, filter_In. split; [now apply list_elem_of_In|exact Eq]. }
    apply Hkeys in Hin. cbn in Hin. now apply elem_of_nil in Hin.
  - right. cbn [most_common_1].
    destruct (most_common_fold c e) as (Hin & He & Hmax).
    set (best := fold_left _ c e) in *.
    destruct best as [gt n] eqn:Eb.
    assert (Hn : n = votes marks pid s gt).
    { rewrite <- Hcv, <- Hget. symmetry. now apply counter_get_elem. }
    assert (Hpos : (0 < votes marks pid s gt)%nat).
    { rewrite <- Hcv. apply cnt_pos, Hkeys.
      apply list_elem_of_fmap. now exists (gt, n). }
    exists gt. split; [now rewrite Hn|]. split.
    { intros ->. rewrite votes_not_c7 in Hpos. lia. }
    split; [exact Hpos|].
    intros k. rewrite <- Hn.
    destruct (Nat.eq_dec (votes marks pid s k) 0%nat) as [->|Hk]; [lia|].
    assert (Hkin : k ∈ (e :: c).*1).
    { apply Hkeys, cnt_pos. rewrite Hcv. lia. }
    apply counter_elem_get in Hkin. rewrite Hget, Hcv in Hkin.
    apply elem_of_cons in Hkin as [Hkin|Hkin].
    + rewrite <- Hkin in He. exact He.
    + apply (Hmax _ Hkin).
Qed.

Lemma check_stress_mark_cases (marks : list mark) (pid s : Z) :
  match check_stress_mark marks pid s with
  | [] => existsb (qualifies pid s) marks = false
  | (gt, _) :: _ =>
      existsb (qualifies pid s) marks = true
      ∧ ∃ m, m ∈ marks ∧ qualifies pid s m = true ∧ mark_label m = gt
  end.
Proof.
  unfold check_stress_mark. rewrite marks_loop_spec. cbn [app].
  set (l := map mark_label (List.filter (qualifies pid s) marks)).
  destruct (Counter_spec l) as (_ & _ & Hkeys).
  destruct (Counter l) as [|e c] eqn:Ec.
  - cbn. destruct (existsb (qualifies pid s) marks) eqn:E; [exfalso|reflexivity].
    apply existsb_exists in E as (m & Hm & Hq).
    assert (Hin : mark_label m ∈ l).
    { apply list_elem_of_fmap. exists m. split; [reflexivity|].
      apply list_elem_of_In, filter_In. now split. }
    apply Hkeys in Hin. cbn in Hin. now apply elem_of_nil in Hin.
  - cbn [most_common_1].
    destruct (most_common_fold c e) as (Hin & _ & _).
    destruct (fold_left _ c e) as [gt n].
    assert (Hgt : gt ∈ l).
    { apply Hkeys, list_elem_of_fmap. now exists (gt, n). }
    apply list_elem_of_fmap in Hgt as (m & -> & Hm).
    apply list_elem_of_In, filter_In in Hm as [Hm Hq].
    assert (Hex : existsb (qualifies pid s) marks = true).
    { apply existsb_exists. now exists m. }
    split; [exact Hex|]. exists m. split; [now apply list_elem_of_In|].
    now split.
Qed.

Lemma start_times_loop_lookup (marks : list mark) (pid : Z) :
  ∀ st0 : gmap Z Z,
    match start_times_loop marks st0 !! pid with
    | None => st0 !! pid = None ∧ has_baseline marks pid = false
    | Some v =>
        ∀ ts, (v <=? ts)
              = (match st0 !! pid with None => false | Some a => a <=? ts end)
                || existsb (fun m => is_baseline pid m && (mark_start m <=? ts))
                     marks
    end.
Proof.
  unfold has_baseline.
  induction marks as [|[[[id gt] st] et] marks IH]; intros st0.
  - cbn. destruct (st0 !! pid); [|now split].
    intros ts. now rewrite orb_false_r.
  - cbn [start_times_loop existsb is_baseline mark_start].
    destruct (String.eqb gt "c4"); [|rewrite !andb_false_r; cbn [andb orb]; apply IH].
    rewrite !andb_true_r.
    match goal with |- context [start_times_loop marks ?m] =>
      specialize (IH m) end.
    destruct (Z.eqb_spec id pid) as [->|Hne].
    + rewrite lookup_insert_eq in IH.
      destruct (start_times_loop marks _ !! pid) as [v|].
      * intros ts. rewrite IH. cbn [orb andb].
        destruct (st0 !! pid) as [a|]; [|cbn [orb]; reflexivity].
        rewrite orb_assoc. f_equal.
        destruct (Z.leb_spec (Z.min a st) ts), (Z.leb_spec a ts),
          (Z.leb_spec st ts); cbn; try reflexivity; lia.
      * destruct IH as [IH _]. discriminate.
    + rewrite lookup_insert_ne in IH by exact Hne. cbn [orb andb]. exact IH.
Qed.

Lemma start_times_lookup (marks : list mark) (pid : Z) :
  match start_times_loop marks ∅ !! pid with
  | None => has_baseline marks pid = false
  | Some v =>
      has_baseline marks pid = true
      ∧ ∀ ts, (ts <? v)
              = negb (existsb (fun m => is_baseline pid m && (mark_start m <=? ts))
                        marks)
  end.
Proof.
  pose proof (start_times_loop_lookup marks pid ∅) as H.
  rewrite lookup_empty in H.
  destruct (start_times_loop marks ∅ !! pid) as [v|]; [|apply H].
  cbn [orb] in H. split.
  - specialize (H v). rewrite Z.leb_refl in H. symmetry in H.
    apply existsb_exists in H as (m & Hm & Hb).
    apply existsb_exists. exists m. split; [exact Hm|].
    now apply andb_true_iff in Hb as [Hb _].
  - intros ts. rewrite <- H, Z.ltb_antisym. reflexivity.
Qed.

Lemma substring_short (s : string) :
  (String.length s <= 2)%nat → String.substring 0 2 s = s.
Proof.
  destruct s as [|a [|b [|c s]]]; cbn; intros H; try reflexivity. lia.
Qed.

Lemma decode_label_raises (label : string) (e : exn) :
  decode_label label = Raise e → e = KeyError.
Proof.
  unfold decode_label. destruct (dict_get _ _); cbn; congruence.
Qed.

Lemma decode_label_classes (label : string) (v : Z) :
  (String.length label <= 2)%nat → label ≠ "c7" →
  decode_label label = Ok v → v = 0 ∨ v = 1.
Proof.
  intros Hlen Hne. unfold decode_label. rewrite (substring_short _ Hlen).
  unfold mapping. cbn [dict_get].
  repeat match goal with
         | |- context [String.eqb ?a label] =>
             let E := fresh "E" in
             destruct (String.eqb a label) eqn:E;
             [try (cbn; intros [= <-]; auto; fail)|]
         end.
  - apply String.eqb_eq in E5. congruence.
  - cbn. discriminate.
Qed.

Section Analyze.
Variable stress_marks : list mark.
Local Abbreviation start_times := (start_times_loop stress_marks ∅).

Lemma features_loop_spec (features : list feature_row) :
  ∀ F L S F' L' S',
    features_loop stress_marks start_times features F L S
    = Ok (F', L', S') →
    F' = F ++ map row_features (List.filter (kept stress_marks) features)
    ∧ S' = S ++ map row_pid (List.filter (kept stress_marks) features)
    ∧ ∃ L2, L' = L ++ L2
            ∧ length L2
              = length (List.filter (kept stress_marks) features)
            ∧ ((∀ m, m ∈ stress_marks →
                     (String.length (mark_label m) <= 2)%nat) →
               Forall (fun c => c = 0 ∨ c = 1) L2).
Proof.
  induction features as [|[[id ts] f] features IH]; intros F L S F' L' S' H.
  - cbn in H. injection H as <- <- <-. cbn. rewrite !app_nil_r.
    split; [reflexivity|]. split; [reflexivity|].
    exists []. rewrite app_nil_r. split; [reflexivity|].
    split; [reflexivity|]. intros _. constructor.
  - cbn [features_loop] in H. cbn [List.filter kept].
    pose proof (start_times_lookup stress_marks id) as Hst.
    destruct (start_times !! id) as [first|]; [|discriminate].
    destruct Hst as [_ Hst]. rewrite (Hst ts) in H.
    destruct (existsb (fun m => is_baseline id m && (mark_start m <=? ts))
                stress_marks); cbn [negb andb] in *.
    2: now apply IH.
    pose proof (check_stress_mark_cases stress_marks id ts) as Hc.
    destruct (check_stress_mark stress_marks id ts) as [|[gt n] rest].
    + rewrite Hc. now apply IH.
    + destruct Hc as [-> (m & Hm & Hq & Hgt)].
      destruct (decode_label gt) as [c|e] eqn:Hd; [|discriminate].
      apply IH in H as (-> & -> & L2 & -> & Hlen & Hcls).
      cbn [map row_features row_pid]. rewrite <- !app_assoc.
      split; [reflexivity|]. split; [reflexivity|].
      exists (c :: L2). split; [reflexivity|].
      split; [cbn; now rewrite Hlen|].
      intros Hshort. constructor; [|now apply Hcls].
      apply (decode_label_classes gt); [| |exact Hd].
      * rewrite <- Hgt. now apply Hshort.
      * intros ->. destruct m as [[[i g] st] et]. cbn in Hgt. subst g.
        cbn in Hq. rewrite andb_false_r in Hq. discriminate.
Qed.

Lemma features_loop_missing (features : list feature_row) :
  ∀ F L S row,
    row ∈ features → has_baseline stress_marks (row_pid row) = false →
    features_loop stress_marks start_times features F L S
    = Raise KeyError.
Proof.
  induction features as [|[[id ts] f] features IH]; intros F L S row Hin Hb.
  - now apply elem_of_nil in Hin.
  - cbn [features_loop].
    pose proof (start_times_lookup stress_marks id) as Hst.
    destruct (start_times !! id) as [first|]; [|reflexivity].
    destruct Hst as [Hid _].
    apply elem_of_cons in Hin as [->|Hin]; [cbn in Hb; congruence|].
    destruct (ts <? first); [now apply (IH _ _ _ row)|].
    destruct (check_stress_mark stress_marks id ts) as [|[gt n] rest];
      [now apply (IH _ _ _ row)|].
    destruct (decode_label gt) as [c|e] eqn:Hd; [now apply (IH _ _ _ row)|].
    now rewrite (decode_label_raises _ _ Hd).
Qed.

Lemma features_loop_total (features : list feature_row) :
  (∀ row, row ∈ features →
          has_baseline stress_marks (row_pid row) = true) →
  (∀ m, m ∈ stress_marks → ∃ c, decode_label (mark_label m) = Ok c) →
  ∀ F L S, ∃ out,
    features_loop stress_marks start_times features F L S = Ok out.
Proof.
  intros Hrows Hmarks.
  induction features as [|[[id ts] f] features IH]; intros F L S.
  - eexists. reflexivity.
  - cbn [features_loop].
    assert (IH' := IH (fun row H => Hrows row (list_elem_of_further _ _ _ H))).
    pose proof (start_times_lookup stress_marks id) as Hst.
    destruct (start_times !! id) as [first|].
    2: { specialize (Hrows (id, ts, f) (list_elem_of_here _ _)).
         cbn in Hrows. congruence. }
    destruct (ts <? first); [apply IH'|].
    pose proof (check_stress_mark_cases stress_marks id ts) as Hc.
    destruct (check_stress_mark stress_marks id ts) as [|[gt n] rest];
      [apply IH'|].
    destruct Hc as [_ (m & Hm & _ & <-)].
    destruct (Hmarks m Hm) as [c ->]. apply IH'.
Qed.
End Analyze.

(** X16. When [analyze_events_with_features] returns, the feature
    vectors and the subjects are those of the rows, in their order, whose
    timestamp is not before a "c4" start of the participant and whose
    window lies strictly inside a mark of the participant that is not
    "c7"; there are as many labels as feature vectors. *)
Theorem analyze_events_kept_rows (features : list feature_row)
    (stress_marks : list mark) (F : list (list Q)) (L S : list Z) :
  analyze_events_with_features features stress_marks = Ok (F, L, S) →
  F = map row_features (List.filter (kept stress_marks) features)
  ∧ S = map row_pid (List.filter (kept stress_marks) features)
  ∧ length L = length F.
Proof.
  intros H. apply features_loop_spec in H as (-> & -> & L2 & -> & Hlen & _).
  cbn [app]. split; [reflexivity|]. split; [reflexivity|].
  now rewrite length_map.
Qed.

(** X17. With mark labels of at most two characters, as
    [read_stress_marks] produces them, every label returned by
    [analyze_events_with_features] is 0 or 1: class 2 never comes
    out. *)
Theorem analyze_events_two_classes (features : list feature_row)
    (stress_marks : list mark) (F : list (list Q)) (L S : list Z) :
  (∀ m, m ∈ stress_marks → (String.length (mark_label m) <= 2)%nat) →
  analyze_events_with_features features stress_marks = Ok (F, L, S) →
  Forall (fun c => c = 0 ∨ c = 1) L.
Proof.
  intros Hshort H.
  apply features_loop_spec in H as (_ & _ & L2 & -> & _ & Hcls).
  cbn [app]. now apply Hcls.
Qed.

(** X18. If some feature row belongs to a participant without a "c4"
    mark, [analyze_events_with_features] raises [KeyError]. *)
Theorem analyze_events_missing_baseline (features : list feature_row)
    (stress_marks : list mark) (row : feature_row) :
  row ∈ features → has_baseline stress_marks (row_pid row) = false →
  analyze_events_with_features features stress_marks = Raise KeyError.
Proof.
  intros Hin Hb. unfold analyze_events_with_features.
  now apply (features_loop_missing stress_marks features [] [] [] row).
Qed.

(** X19. If every feature row's participant has a "c4" mark and every
    mark label decodes, [analyze_events_with_features] returns. *)
Theorem analyze_events_returns (features : list feature_row)
    (stress_marks : list mark) :
  (∀ row, row ∈ features →
          has_baseline stress_marks (row_pid row) = true) →
  (∀ m, m ∈ stress_marks → ∃ c, decode_label (mark_label m) = Ok c) →
  ∃ F L S, analyze_events_with_features features stress_marks
           = Ok (F, L, S).
Proof.
  intros Hrows Hmarks.
  destruct (features_loop_total stress_marks features Hrows Hmarks [] [] [])
    as [[[F L] S] H].
  now exists F, L, S.
Qed.

Lemma py_index_in_range {A : Type} (d : list A) (i : Z) :
  - Z.of_nat (length d) <= i < Z.of_nat (length d) →
  ∃ x, py_index d i = Ok x
       ∧ d !! Z.to_nat (i mod Z.of_nat (length d)) = Some x.
Proof.
  intros Hi. unfold py_index. cbn zeta.
  destruct (Z.leb_spec 0 i) as [H0|H0].
  - rewrite Z.mod_small by lia.
    destruct (lookup_lt_is_Some_2 d (Z.to_nat i)) as [x Hx]; [lia|].
    exists x. now rewrite Hx.
  - destruct (Z.leb_spec 0 (Z.of_nat (length d) + i)) as [H1|H1]; [|lia].
    replace (i mod Z.of_nat (length d)) with (Z.of_nat (length d) + i).
    2: { apply Z.mod_unique with (q := -1); lia. }
    destruct (lookup_lt_is_Some_2 d (Z.to_nat (Z.of_nat (length d) + i)))
      as [x Hx]; [lia|].
    exists x. now rewrite Hx.
Qed.

Lemma py_index_out_of_range {A : Type} (d : list A) (i : Z) :
  ¬ (- Z.of_nat (length d) <= i < Z.of_nat (length d)) →
  py_index d i = Raise IndexError.
Proof.
  intros Hi. unfold py_index. cbn zeta.
  destruct (Z.leb_spec 0 i) as [H0|H0].
  - rewrite (lookup_ge_None_2 d (Z.to_nat i)) by lia. reflexivity.
  - destruct (Z.leb_spec 0 (Z.of_nat (length d) + i)) as [H1|H1];
      [lia|reflexivity].
Qed.

Lemma py_index_raises {A : Type} (d : list A) (i : Z) :
  (∃ x, py_index d i = Ok x) ∨ py_index d i = Raise IndexError.
Proof.
  unfold py_index. cbn zeta.
  destruct (0 <=? i); [destruct (d !! _); cbn; eauto|].
  destruct (0 <=? _); [destruct (d !! _); cbn; eauto|now right].
Qed.

(** X20. With every index within [-len(d), len(d)) for every row [d],
    [reduce_data] returns one row per input row, each as long as [r],
    whose k-th entry is the input entry at index [r[k]], counted from
    the end when negative. *)
Theorem reduce_data_columns {A : Type} (data : list (list A))
    (r : list Z) :
  (∀ d i, d ∈ data → i ∈ r →
          - Z.of_nat (length d) <= i < Z.of_nat (length d)) →
  ∃ out, reduce_data data r = Ok out
         ∧ length out = length data
         ∧ ∀ j d, data !! j = Some d →
             ∃ row, out !! j = Some row
                    ∧ length row = length r
                    ∧ ∀ k i, r !! k = Some i →
                        row !! k
                        = d !! Z.to_nat (i mod Z.of_nat (length d)).
Proof.
  intros Hr. unfold reduce_data.
  destruct (py_mapM_total (fun d => py_mapM (py_index d) r) data)
    as [out Hout].
  { intros d Hd. apply py_mapM_total. intros i Hi.
    destruct (py_index_in_range d i (Hr d i Hd Hi)) as (x & Hx & _).
    now exists x. }
  exists out. split; [exact Hout|].
  split; [exact (py_mapM_length _ _ _ Hout)|].
  intros j d Hj.
  destruct (py_mapM_lookup _ _ _ _ _ Hout Hj) as (row & Hrow & Hmap).
  exists row. split; [exact Hrow|].
  split; [exact (py_mapM_length _ _ _ Hmap)|].
  intros k i Hk.
  destruct (py_mapM_lookup _ _ _ _ _ Hmap Hk) as (x & Hx & Hix).
  destruct (py_index_in_range d i) as (x' & Hx' & Hd').
  { apply Hr; [eapply list_elem_of_lookup_2; exact Hj
              |eapply list_elem_of_lookup_2; exact Hk]. }
  congruence.
Qed.

Lemma py_mapM_index_raises {A : Type} (d : list A) (r : list Z) :
  (∃ row, py_mapM (py_index d) r = Ok row)
  ∨ py_mapM (py_index d) r = Raise IndexError.
Proof.
  induction r as [|i r IH]; [left; eexists; reflexivity|].
  cbn [py_mapM]. destruct (py_index_raises d i) as [[x ->]| ->];
    [|now right].
  cbn [mbind py_bind].
  destruct IH as [[row ->]| ->]; [left; eexists; reflexivity|now right].
Qed.

(** X21. If some index is outside [-len(d), len(d)) for some row [d],
    [reduce_data] raises [IndexError]. *)
Theorem reduce_data_bad_index {A : Type} (data : list (list A))
    (r : list Z) (d : list A) (i : Z) :
  d ∈ data → i ∈ r →
  ¬ (- Z.of_nat (length d) <= i < Z.of_nat (length d)) →
  reduce_data data r = Raise IndexError.
Proof.
  intros Hd Hi Hbad. unfold reduce_data.
  apply py_mapM_raise.
  - intros d' _. apply py_mapM_index_raises.
  - exists d. split; [exact Hd|]. apply py_mapM_raise.
    + intros i' _. apply py_index_raises.
    + exists i. split; [exact Hi|]. now apply py_index_out_of_range.
Qed.
End PrepFacts.

(** ** The elapsed time *)

(** X22.  On a whole number of seconds [elapsed_time_format_hr_min_sec]
    prints hours, minutes and seconds that add up to the input, with
    minutes and seconds between 0 and 59; the hours are not negative
    when the input is not. *)
Theorem elapsed_time_decomposition (seconds : Z) :
  let '(h, m, s) := Elapsed.elapsed_time_format_hr_min_sec seconds in
  seconds = 3600 * h + 60 * m + s
  /\ 0 <= m < 60 /\ 0 <= s < 60
  /\ (0 <= seconds -> 0 <= h).
Proof.
  unfold Elapsed.elapsed_time_format_hr_min_sec.
  pose proof (Z.div_mod seconds 60 ltac:(lia)) as H1.
  pose proof (Z.div_mod (seconds / 60) 60 ltac:(lia)) as H2.
  pose proof (Z.mod_pos_bound seconds 60 ltac:(lia)) as H3.
  pose proof (Z.mod_pos_bound (seconds / 60) 60 ltac:(lia)) as H4.
  split; [lia|]. split; [exact H4|]. split; [exact H3|].
  intros H. apply Z.div_pos; [|lia]. apply Z.div_pos; lia.
Qed.

(** ** The properties on sample data *)

Lemma two_bias_score_range_witness :
  length Toy.X = length Toy.y
  /\ exists score,
       TwoBias.two_bias_scorer_CV (AS:=TwoBias.insertion_argsort)
           Toy.X Toy.y = Ok score
       /\ (-1 <= score)%Q /\ (score < 0)%Q.
Proof.
  assert (H : length Toy.X = length Toy.y) by reflexivity.
  split; [exact H|]. exact (two_bias_score_range Toy.X Toy.y H).
Defined.

Lemma two_bias_single_class_witness :
  length [1 # 2; 1 # 3] = length [0; 0]
  /\ (TwoBias.count_pos [0; 0] = 0 \/ Cuts.count_neg [0; 0] = 0)
  /\ TwoBias.two_bias_scorer_CV_bias (AS:=TwoBias.insertion_argsort)
      [1 # 2; 1 # 3] [0; 0]
     = Ok ((-1)%Q, []).
Proof.
  assert (H1 : length [1 # 2; 1 # 3] = length [0; 0]) by reflexivity.
  assert (H2 : TwoBias.count_pos [0; 0] = 0 \/ Cuts.count_neg [0; 0] = 0)
    by (left; reflexivity).
  split; [exact H1|]. split; [exact H2|].
  exact (two_bias_single_class [1 # 2; 1 # 3] [0; 0] H1 H2).
Defined.

Lemma two_bias_empty_bias_iff_infeasible_witness :
  length Toy.bad_probs = length Toy.bad_y
  /\ exists score bias,
       TwoBias.two_bias_scorer_CV_bias (AS:=TwoBias.insertion_argsort)
           Toy.bad_probs Toy.bad_y
       = Ok (score, bias)
       /\ (bias = []
           <-> Cuts.feasible
                 (TwoBias.sort_rows (AS:=TwoBias.insertion_argsort)
                     (combine Toy.bad_probs Toy.bad_y))
               = false).
Proof.
  assert (H : length Toy.bad_probs = length Toy.bad_y) by reflexivity.
  split; [exact H|].
  exact (two_bias_empty_bias_iff_infeasible Toy.bad_probs Toy.bad_y H).
Defined.

Lemma two_bias_bias_shape_witness :
  length Toy.X = length Toy.y
  /\ exists score bias,
       TwoBias.two_bias_scorer_CV_bias (AS:=TwoBias.insertion_argsort)
           Toy.X Toy.y = Ok (score, bias)
       /\ Shapes.bias_shape Toy.X bias.
Proof.
  assert (H : length Toy.X = length Toy.y) by reflexivity.
  split; [exact H|]. exact (two_bias_bias_shape Toy.X Toy.y H).
Defined.

Lemma f1_bias_scorer_max_witness :
  Toy.curve Toy.y Toy.X = Ok ([1; 1]%Q, [1; 0]%Q, [1 # 2])
  /\ (length [1 # 2] <= length [1; 1]%Q)%nat
  /\ (length [1 # 2] <= length [1; 0]%Q)%nat
  /\ exists f1 bias,
       F1Bias.f1_bias_scorer_CV_bias (FA:=exact_arith) Toy.curve Toy.X Toy.y
       = Ok (f1, bias)
       /\ (0 <= f1)%Q.
Proof.
  assert (H1 : Toy.curve Toy.y Toy.X = Ok ([1; 1]%Q, [1; 0]%Q, [1 # 2]))
    by reflexivity.
  assert (H2 : (length [1 # 2] <= length [1; 1]%Q)%nat) by (cbn; lia).
  assert (H3 : (length [1 # 2] <= length [1; 0]%Q)%nat) by (cbn; lia).
  split; [exact H1|]. split; [exact H2|]. split; [exact H3|].
  destruct (f1_bias_scorer_max (FA:=exact_arith) Toy.curve Toy.X Toy.y
              [1; 1]%Q [1; 0]%Q [1 # 2] H1 H2 H3)
    as (f1 & bias & Hrun & Hpos & _).
  exists f1, bias. split; [exact Hrun|exact Hpos].
Defined.

Lemma cross_val_probs_last_fold_wins_witness :
  length Toy.X = length Toy.y
  /\ folds_in_range (length Toy.y) Toy.lkf
  /\ Toy.lkf = [] ++ ([2; 3], [0; 1])%nat :: [([0; 1], [2; 3])%nat]
  /\ 0%nat ∈ snd ([2; 3], [0; 1])%nat
  /\ (forall g : fold, g ∈ [([0; 1], [2; 3])%nat] -> 0%nat ∉ snd g)
  /\ exists out X_train y_train x,
       CrossVal.cross_val_probs (E:=Toy.estimator) 7%nat Toy.X Toy.y Toy.lkf
       = Ok out
       /\ np_take Toy.X [2; 3]%nat = Ok X_train
       /\ np_take Toy.y [2; 3]%nat = Ok y_train
       /\ Toy.X !! 0%nat = Some x
       /\ out !! 0%nat
          = Some (predict_proba1 (est_fit 7%nat X_train y_train) x).
Proof.
  assert (H1 : length Toy.X = length Toy.y) by reflexivity.
  assert (H3 : Toy.lkf = [] ++ ([2; 3], [0; 1])%nat :: [([0; 1], [2; 3])%nat])
    by reflexivity.
  assert (H4 : 0%nat ∈ snd ([2; 3], [0; 1])%nat) by (cbn; left).
  assert (H5 : forall g : fold, g ∈ [([0; 1], [2; 3])%nat] -> 0%nat ∉ snd g).
  { intros g Hg. list_cases Hg. cbn. not_in_list. }
  split; [exact H1|]. split; [exact toy_folds_in_range|].
  split; [exact H3|]. split; [exact H4|]. split; [exact H5|].
  exact (cross_val_probs_last_fold_wins (E:=Toy.estimator) 7%nat Toy.X Toy.y
           Toy.lkf [] [([0; 1], [2; 3])%nat] ([2; 3], [0; 1])%nat 0%nat
           H1 toy_folds_in_range H3 H4 H5).
Defined.

Lemma cross_val_probs_bad_index_witness :
  length Toy.X = length Toy.y
  /\ ([0; 1], [2; 7])%nat ∈ [([0; 1], [2; 7])%nat]
  /\ (7%nat ∈ fst ([0; 1], [2; 7])%nat \/ 7%nat ∈ snd ([0; 1], [2; 7])%nat)
  /\ (length Toy.y <= 7)%nat
  /\ CrossVal.cross_val_probs (E:=Toy.estimator) 7%nat Toy.X Toy.y
       [([0; 1], [2; 7])%nat] = Raise IndexError.
Proof.
  assert (H1 : length Toy.X = length Toy.y) by reflexivity.
  assert (H2 : ([0; 1], [2; 7])%nat ∈ [([0; 1], [2; 7])%nat]) by left.
  assert (H3 : 7%nat ∈ fst ([0; 1], [2; 7])%nat
               \/ 7%nat ∈ snd ([0; 1], [2; 7])%nat)
    by (right; cbn; right; left).
  assert (H4 : (length Toy.y <= 7)%nat) by (cbn; lia).
  split; [exact H1|]. split; [exact H2|]. split; [exact H3|].
  split; [exact H4|].
  exact (cross_val_probs_bad_index (E:=Toy.estimator) 7%nat Toy.X Toy.y
           [([0; 1], [2; 7])%nat] ([0; 1], [2; 7])%nat 7%nat H1 H2 H3 H4).
Defined.

Lemma cv_fit_and_score_two_bias_witness :
  length Toy.X = length Toy.y
  /\ folds_in_range (length Toy.y) Toy.lkf
  /\ exists score,
       CvFit.cv_fit_and_score (E:=Toy.estimator) Toy.X Toy.y
         (TwoBias.two_bias_scorer_CV (AS:=TwoBias.insertion_argsort))
         7%nat Toy.lkf = Ok (score, 7%nat)
       /\ (-1 <= score)%Q /\ (score < 0)%Q.
Proof.
  assert (H1 : length Toy.X = length Toy.y) by reflexivity.
  split; [exact H1|]. split; [exact toy_folds_in_range|].
  exact (cv_fit_and_score_two_bias (E:=Toy.estimator) 7%nat Toy.X Toy.y
           Toy.lkf H1 toy_folds_in_range).
Defined.

Lemma aggregate_closed_form_witness :
  exists gs g,
    Search.aggregate (FA:=exact_arith) true 2 Toy.results = Ok gs
    /\ gs !! 1%nat = Some g
    /\ Search.cv_validation_scores g
       = map Search.test_score (Blocks.block_of 2 Toy.results 1)
    /\ Search.mean_validation_score g
       = Blocks.block_mean (FA:=exact_arith) true 2
           (Blocks.block_of 2 Toy.results 1)
    /\ (true = true
        -> Blocks.block_tests (Blocks.block_of 2 Toy.results 1) <> 0%nat).
Proof.
  destruct (Search.aggregate (FA:=exact_arith) true 2 Toy.results)
    as [gs|e] eqn:H1; [|vm_compute in H1; discriminate H1].
  destruct (gs !! 1%nat) as [g|] eqn:H2;
    [|vm_compute in H1; injection H1 as <-; discriminate H2].
  exists gs, g. split; [reflexivity|]. split; [exact H2|].
  exact (aggregate_closed_form (FA:=exact_arith) true 2 Toy.results gs
           1 g H1 H2).
Defined.

Lemma search_fit_returns_witness :
  length Toy.X = length Toy.y
  /\ folds_in_range (length Toy.y) (Search.cv Toy.iid_cfg)
  /\ Search.cv Toy.iid_cfg <> []
  /\ Toy.grid <> []
  /\ (Search.iid Toy.iid_cfg = true ->
      exists f, f ∈ Search.cv Toy.iid_cfg /\ snd f <> [])
  /\ (forall l : list (nat * @Search.fit_result nat), rev l ≡ₚ l)
  /\ exists fs,
       Search.fit (FA:=exact_arith) (E:=Toy.estimator) Toy.iid_cfg Toy.grid
         Toy.elapsed (@rev _) Toy.X Toy.y = Ok fs
       /\ Search.fit (FA:=exact_arith) (E:=Toy.estimator) Toy.iid_cfg
            Toy.grid Toy.elapsed (fun l => l) Toy.X Toy.y = Ok fs
       /\ map Search.cvs_parameters (Search.grid_scores_ fs) = Toy.grid.
Proof.
  assert (H1 : length Toy.X = length Toy.y) by reflexivity.
  assert (H3 : Search.cv Toy.iid_cfg <> []) by discriminate.
  assert (H4 : Toy.grid <> []) by discriminate.
  assert (H5 : Search.iid Toy.iid_cfg = true ->
               exists f, f ∈ Search.cv Toy.iid_cfg /\ snd f <> []).
  { intros _. exists ([2; 3], [0; 1])%nat. split; [left|discriminate]. }
  assert (H6 : forall l : list (nat * @Search.fit_result nat), rev l ≡ₚ l)
    by (intros l; apply Permutation_sym, Permutation_rev).
  split; [exact H1|]. split; [exact toy_folds_in_range|].
  split; [exact H3|]. split; [exact H4|]. split; [exact H5|].
  split; [exact H6|].
  destruct (search_fit_returns (FA:=exact_arith) (E:=Toy.estimator)
              Toy.iid_cfg Toy.grid Toy.elapsed (@rev _) Toy.X Toy.y H1
              toy_folds_in_range H3 H4 H5 H6)
    as (fs & best & Ha & Hb & Hc & _).
  exists fs. split; [exact Ha|]. split; [exact Hb|exact Hc].
Defined.

Lemma reassemble_missing_index_witness :
  (1 < 2)%nat
  /\ (1%nat ∉ [(0%nat, 5)].*1)
  /\ Search.reassemble 2 [(0%nat, 5)] = Raise KeyError.
Proof.
  assert (H1 : (1 < 2)%nat) by lia.
  assert (H2 : 1%nat ∉ [(0%nat, 5)].*1) by (cbn; not_in_list).
  split; [exact H1|]. split; [exact H2|].
  exact (reassemble_missing_index 2 [(0%nat, 5)] 1 H1 H2).
Defined.

Lemma main_f1_always_saves_witness :
  exists out,
    Main.main (FA:=exact_arith) (AS:=TwoBias.insertion_argsort)
        (E:=Toy.estimator) Toy.curve Main.ScorerF1
      Main.SearchGrid Toy.grid Toy.grid Toy.elapsed (fun l => l)
      Toy.X Toy.y Toy.lkf = Ok out
    /\ exists t, Main.out_bias out = Main.BiasThreshold t
                 /\ Main.out_report out
                    = Main.SaveModel (Main.BiasThreshold t).
Proof.
  destruct (Main.main (FA:=exact_arith) (AS:=TwoBias.insertion_argsort)
      (E:=Toy.estimator) Toy.curve
              Main.ScorerF1 Main.SearchGrid Toy.grid Toy.grid Toy.elapsed
              (fun l => l) Toy.X Toy.y Toy.lkf)
    as [out|e] eqn:H; [|vm_compute in H; discriminate H].
  exists out. split; [reflexivity|].
  exact (main_f1_always_saves (FA:=exact_arith) (E:=Toy.estimator) Toy.curve
           Main.SearchGrid Toy.grid Toy.grid Toy.elapsed (fun l => l)
           Toy.X Toy.y Toy.lkf out H).
Defined.

Lemma main_two_bias_report_witness :
  exists out,
    Main.main (FA:=exact_arith) (AS:=TwoBias.insertion_argsort)
        (E:=Toy.estimator) Toy.curve
      Main.ScorerTwoBias Main.SearchRandomized Toy.grid Toy.grid Toy.elapsed
      (fun l => l) Toy.X Toy.y Toy.lkf = Ok out
    /\ (Main.out_report out = Main.ResultsNotGood
        <-> Cuts.feasible
              (TwoBias.sort_rows (AS:=TwoBias.insertion_argsort)
                  (combine (Main.out_cv_probs out) Toy.y))
            = false).
Proof.
  destruct (Main.main (FA:=exact_arith) (AS:=TwoBias.insertion_argsort)
      (E:=Toy.estimator) Toy.curve
              Main.ScorerTwoBias Main.SearchRandomized Toy.grid Toy.grid
              Toy.elapsed (fun l => l) Toy.X Toy.y Toy.lkf)
    as [out|e] eqn:H; [|vm_compute in H; discriminate H].
  exists out. split; [reflexivity|].
  exact (proj1 (main_two_bias_report (FA:=exact_arith) (E:=Toy.estimator)
                  Toy.curve Main.SearchRandomized Toy.grid Toy.grid
                  Toy.elapsed (fun l => l) Toy.X Toy.y Toy.lkf out H)).
Defined.

Lemma analyze_events_kept_rows_witness :
  exists F L S,
    Prep.analyze_events_with_features ToyPrep.features ToyPrep.marks
    = Ok (F, L, S)
    /\ F = map PrepSpec.row_features
             (List.filter (PrepSpec.kept ToyPrep.marks) ToyPrep.features)
    /\ S = map PrepSpec.row_pid
             (List.filter (PrepSpec.kept ToyPrep.marks) ToyPrep.features)
    /\ length L = length F.
Proof.
  destruct (Prep.analyze_events_with_features ToyPrep.features ToyPrep.marks)
    as [[[F L] S]|e] eqn:H; [|vm_compute in H; discriminate H].
  exists F, L, S. split; [reflexivity|].
  exact (analyze_events_kept_rows ToyPrep.features ToyPrep.marks F L S H).
Defined.

Lemma toy_marks_short (m : Prep.mark) :
  m ∈ ToyPrep.marks -> (String.length (PrepSpec.mark_label m) <= 2)%nat.
Proof.
  intros Hm. unfold ToyPrep.marks in Hm. list_cases Hm; cbn; lia.
Defined.

Lemma analyze_events_two_classes_witness :
  (forall m, m ∈ ToyPrep.marks ->
     (String.length (PrepSpec.mark_label m) <= 2)%nat)
  /\ exists F L S,
       Prep.analyze_events_with_features ToyPrep.features ToyPrep.marks
       = Ok (F, L, S)
       /\ Forall (fun c => c = 0 \/ c = 1) L.
Proof.
  split; [exact toy_marks_short|].
  destruct (Prep.analyze_events_with_features ToyPrep.features ToyPrep.marks)
    as [[[F L] S]|e] eqn:H; [|vm_compute in H; discriminate H].
  exists F, L, S. split; [reflexivity|].
  exact (analyze_events_two_classes ToyPrep.features ToyPrep.marks F L S
           toy_marks_short H).
Defined.

Lemma analyze_events_missing_baseline_witness :
  (2, 10, [1 # 2; 1 # 3]) ∈ ToyPrep.orphan
  /\ PrepSpec.has_baseline ToyPrep.marks
       (PrepSpec.row_pid (2, 10, [1 # 2; 1 # 3])) = false
  /\ Prep.analyze_events_with_features ToyPrep.orphan ToyPrep.marks
     = Raise KeyError.
Proof.
  assert (H1 : (2, 10, [1 # 2; 1 # 3]) ∈ ToyPrep.orphan) by left.
  assert (H2 : PrepSpec.has_baseline ToyPrep.marks
                 (PrepSpec.row_pid (2, 10, [1 # 2; 1 # 3])) = false)
    by reflexivity.
  split; [exact H1|]. split; [exact H2|].
  exact (analyze_events_missing_baseline ToyPrep.orphan ToyPrep.marks
           (2, 10, [1 # 2; 1 # 3]) H1 H2).
Defined.

Lemma analyze_events_returns_witness :
  (forall row, row ∈ ToyPrep.features ->
     PrepSpec.has_baseline ToyPrep.marks (PrepSpec.row_pid row) = true)
  /\ (forall m, m ∈ ToyPrep.marks ->
        exists c, Prep.decode_label (PrepSpec.mark_label m) = Ok c)
  /\ exists F L S,
       Prep.analyze_events_with_features ToyPrep.features ToyPrep.marks
       = Ok (F, L, S).
Proof.
  assert (H1 : forall row, row ∈ ToyPrep.features ->
            PrepSpec.has_baseline ToyPrep.marks (PrepSpec.row_pid row)
            = true).
  { intros row Hr. unfold ToyPrep.features in Hr.
    list_cases Hr; reflexivity. }
  assert (H2 : forall m, m ∈ ToyPrep.marks ->
            exists c, Prep.decode_label (PrepSpec.mark_label m) = Ok c).
  { intros m Hm. unfold ToyPrep.marks in Hm.
    list_cases Hm; eexists; reflexivity. }
  split; [exact H1|]. split; [exact H2|].
  exact (analyze_events_returns ToyPrep.features ToyPrep.marks H1 H2).
Defined.

Lemma reduce_data_columns_witness :
  (forall d i, d ∈ ToyPrep.table -> i ∈ [-1; 0] ->
     - Z.of_nat (length d) <= i < Z.of_nat (length d))
  /\ exists out,
       Prep.reduce_data ToyPrep.table [-1; 0] = Ok out
       /\ length out = length ToyPrep.table.
Proof.
  assert (H : forall d i, d ∈ ToyPrep.table -> i ∈ [-1; 0] ->
            - Z.of_nat (length d) <= i < Z.of_nat (length d)).
  { intros d i Hd Hi. unfold ToyPrep.table in Hd.
    list_cases Hd; list_cases Hi; cbn; lia. }
  split; [exact H|].
  destruct (reduce_data_columns ToyPrep.table [-1; 0] H)
    as (out & Hout & Hlen & _).
  exists out. split; [exact Hout|exact Hlen].
Defined.

Lemma reduce_data_bad_index_witness :
  [10; 20; 30] ∈ ToyPrep.table
  /\ 3 ∈ [0; 3]
  /\ ~ (- Z.of_nat (length [10; 20; 30]) <= 3
        < Z.of_nat (length [10; 20; 30]))
  /\ Prep.reduce_data ToyPrep.table [0; 3] = Raise IndexError.
Proof.
  assert (H1 : [10; 20; 30] ∈ ToyPrep.table) by left.
  assert (H2 : 3 ∈ [0; 3]) by (right; left).
  assert (H3 : ~ (- Z.of_nat (length [10; 20; 30]) <= 3
                  < Z.of_nat (length [10; 20; 30]))) by (cbn; lia).
  split; [exact H1|]. split; [exact H2|]. split; [exact H3|].
  exact (reduce_data_bad_index ToyPrep.table [0; 3] [10; 20; 30] 3
           H1 H2 H3).
Defined.
